(** * ACF (Archive Compressed File): a shallow embedding of the format engine

    The development follows [src/src/acf.cc] and [src/include/acf.hh]: the
    CRC-32 codec, the packed header and entry descriptor, the date
    wrappers, and the operations [Create], [CreateData], [List],
    [ExtractData], [ExtractAll] and [Extract] of [ACFArchiver]. It goes on to
    the two renderers of the listing in [src/src/acfcli.cc] and to the
    handle table and the calls [OpenArchiveW], [ReadHeaderExW],
    [ProcessFileW] and [CloseArchive] of the plugin in [src/src/acfwcx.cc].

    Unsigned machine integers are [Z] with their wrap-around written out
    (a 64-bit target is assumed for [size_t]), bytes are [Byte.byte],
    [std::string] is [string], and a file is the [list byte] it holds.
    Streams are records passed along explicitly. The external collaborators
    (Zstandard, the host file system, the Windows time and attribute calls)
    are parameters gathered in records. The archive file is taken to open;
    the progress callback, which returns nothing, is left out. *)

From Stdlib Require Import ZArith Lia List Bool.
From Stdlib Require Import Strings.String Strings.Ascii Strings.Byte.
From stdpp Require Import base option list strings gmap sorting.

Local Open Scope Z_scope.

(** ** Bytes and little-endian, tightly packed integers ([#pragma pack(1)]) *)

Global Instance byte_eq_decision : EqDecision byte := Byte.byte_eq_dec.

Module Bytes.

Definition to_Z (b : byte) : Z := Z.of_N (Byte.to_N b).

Definition of_Z (z : Z) : byte :=
  match Byte.of_N (Z.to_N (z mod 256)) with
  | Some b => b
  | None => x00
  end.

(** [le n z]: the [n] bytes of the unsigned integer [z mod 2^(8n)],
    least significant byte first. *)
Fixpoint le (n : nat) (z : Z) : list byte :=
  match n with
  | O => []
  | S n' => of_Z z :: le n' (z / 256)
  end.

(** The unsigned integer stored in a little-endian byte string. *)
Fixpoint value (bs : list byte) : Z :=
  match bs with
  | [] => 0
  | b :: bs' => to_Z b + 256 * value bs'
  end.

(** [n] bytes [\0]: a value-initialised [std::vector<char>(n)] or
    [std::string(n, '\0')]. *)
Definition zeros (n : nat) : list byte := replicate n x00.

(** [overlay got old]: a buffer that held [old] after a read stored the
    bytes [got] at its start. *)
Definition overlay (got old : list byte) : list byte :=
  got ++ drop (length got) old.

End Bytes.

(** ** CRC-32 (the anonymous namespace of acf.cc) *)

Module Crc.

Definition POLY : Z := 0xEDB88320.

(** One round of the inner loop of [crc32_generate_table]:
    [crc = (crc & 1) ? (crc >> 1) ^ 0xEDB88320 : (crc >> 1)]. *)
Definition table_round (crc : Z) : Z :=
  if Z.testbit crc 0 then Z.lxor (Z.shiftr crc 1) POLY else Z.shiftr crc 1.

Definition table_entry (i : Z) : Z :=
  Nat.iter 8 table_round i.

(** [crc32_generate_table]: fills [crc32_tab[0..255]]. *)
Definition crc32_generate_table : list Z :=
  map (fun i => table_entry (Z.of_nat i)) (seq 0 256).

(** The table as it stands after the static initializer has run. *)
Definition crc32_tab : list Z := Eval vm_compute in crc32_generate_table.

Definition tab (i : Z) : Z := nth (Z.to_nat i) crc32_tab 0.

(** [~x] on a [uint32_t]. *)
Definition not32 (x : Z) : Z := Z.lxor x 0xFFFFFFFF.

(** The body of the loop of [crc32_update]:
    [crc = crc32_tab[(crc ^ p[i]) & 0xFF] ^ (crc >> 8)]. *)
Definition step (crc : Z) (b : byte) : Z :=
  Z.lxor (tab (Z.land (Z.lxor crc (Bytes.to_Z b)) 0xFF)) (Z.shiftr crc 8).

Definition crc32_update (crc : Z) (data : list byte) : Z :=
  not32 (fold_left step data (not32 crc)).

Definition crc32 (data : list byte) : Z := crc32_update 0 data.

(** A value of type [uint32_t]. *)
Definition u32 (x : Z) : Prop := 0 <= x < 2 ^ 32.

(** The table index [x & 0xFF]. *)
Definition index_of (i : Z) : Z := Z.land i 0xFF.

Definition top_byte (x : Z) : Z := Z.shiftr x 24.

Definition top_bytes_differ (i j : Z) : bool :=
  implb (top_byte (tab i) =? top_byte (tab j)) (i =? j).

End Crc.

(** ** The data model of acf.hh *)

Definition ACF_MAGIC : Z := 0x39464341.
Definition ACF_VERSION : Z := 0x10000900.

(** [enum class EntryType : uint8_t]. A descriptor read back from disk
    holds the raw byte, which need not be one of the two enumerators. *)
Inductive EntryType := File | Directory.

Definition EntryType_value (t : EntryType) : Z :=
  match t with File => 0 | Directory => 1 end.

Record ACFHeader := {
  magic : Z;              (* uint32_t *)
  version : Z;            (* uint32_t *)
  centralDirOffset : Z;   (* uint64_t *)
  entryCount : Z;         (* uint64_t *)
  centralDirCRC32 : Z;    (* uint32_t *)
  reserved : Z            (* uint32_t *)
}.

Record ACFEntryData := {
  type : Z;               (* EntryType, one byte *)
  originalSize : Z;       (* uint64_t *)
  compressedSize : Z;     (* uint64_t *)
  dataOffset : Z;         (* uint64_t *)
  crc32 : Z;              (* uint32_t *)
  filedatetime : Z;       (* uint32_t *)
  fileattribute : Z;      (* uint8_t *)
  pathLength : Z          (* uint16_t *)
}.

(** The default member initialisers of [ACFHeader]. *)
Definition ACFHeader_default : ACFHeader :=
  {| magic := ACF_MAGIC; version := ACF_VERSION; centralDirOffset := 0;
     entryCount := 0; centralDirCRC32 := 0; reserved := 0 |}.

(** The object representation of the packed structs, as [write] stores it
    and as [read] and [memcpy] fill it. *)
Definition ACFHeader_bytes (h : ACFHeader) : list byte :=
  Bytes.le 4 (magic h) ++ Bytes.le 4 (version h) ++
  Bytes.le 8 (centralDirOffset h) ++ Bytes.le 8 (entryCount h) ++
  Bytes.le 4 (centralDirCRC32 h) ++ Bytes.le 4 (reserved h).

Definition field (off len : nat) (bs : list byte) : Z :=
  Bytes.value (take len (drop off bs)).

Definition ACFHeader_of_bytes (bs : list byte) : ACFHeader :=
  {| magic := field 0 4 bs; version := field 4 4 bs;
     centralDirOffset := field 8 8 bs; entryCount := field 16 8 bs;
     centralDirCRC32 := field 24 4 bs; reserved := field 28 4 bs |}.

Definition ACFEntryData_bytes (e : ACFEntryData) : list byte :=
  Bytes.le 1 (type e) ++ Bytes.le 8 (originalSize e) ++
  Bytes.le 8 (compressedSize e) ++ Bytes.le 8 (dataOffset e) ++
  Bytes.le 4 (crc32 e) ++ Bytes.le 4 (filedatetime e) ++
  Bytes.le 1 (fileattribute e) ++ Bytes.le 2 (pathLength e).

Definition ACFEntryData_of_bytes (bs : list byte) : ACFEntryData :=
  {| type := field 0 1 bs; originalSize := field 1 8 bs;
     compressedSize := field 9 8 bs; dataOffset := field 17 8 bs;
     crc32 := field 25 4 bs; filedatetime := field 29 4 bs;
     fileattribute := field 33 1 bs; pathLength := field 34 2 bs |}.

Arguments ACFHeader_of_bytes : simpl never.
Arguments ACFEntryData_of_bytes : simpl never.

Definition sizeof_ACFHeader : nat := 32.
Definition sizeof_ACFEntryData : nat := 36.

(** One central-directory record: the descriptor followed by its path. *)
Definition record_bytes (r : ACFEntryData * string) : list byte :=
  ACFEntryData_bytes r.1 ++ list_byte_of_string r.2.

Definition central_directory_bytes (cd : list (ACFEntryData * string)) : list byte :=
  concat (map record_bytes cd).

(** ** Outcomes

    Every failure of the engine is a [std::runtime_error]; the constructors
    name the error kinds by the message thrown. [AllocationFailure] stands
    for the [std::length_error] or [std::bad_alloc] of a container asked for
    more than [PTRDIFF_MAX] bytes. [Indeterminate] marks a run that goes on
    to use an object whose bytes were never written. *)
Inductive Error :=
  | IoError             (* "Could not create/open archive file: ..." *)
  | UnknownFormat       (* "Not a valid ACF archive" *)
  | BadArchive          (* "Central directory CRC32 mismatch. ..." *)
  | NotFound            (* "File not found in archive: ..." *)
  | InvalidOperation    (* "Cannot extract data from a directory entry: ..." *)
  | CompressorError     (* "ZSTD_endStream error", "ZSTD_decompressStream error" *)
  | CRCMismatch         (* "CRC32 mismatch for file: ..." *)
  | AllocationFailure.

Inductive Outcome (A : Type) :=
  | Ok (a : A)
  | Throw (e : Error)
  | Indeterminate.
Arguments Ok {A} a.
Arguments Throw {A} e.
Arguments Indeterminate {A}.

Definition PTRDIFF_MAX : Z := 2 ^ 63 - 1.

(** [sizeof(std::pair<ACFEntryData, std::string>)] with a 32-byte
    [std::string] aligned on 8 bytes. *)
Definition sizeof_list_item : Z := 72.

(** ** Streams *)

(** A [std::ifstream] opened in binary mode on a file: its bytes, the get
    position and whether [failbit] is set. *)
Record ifstream := {
  contents : list byte;
  gpos : nat;
  failed : bool
}.

Definition ifstream_open (f : list byte) : ifstream :=
  {| contents := f; gpos := 0; failed := false |}.

(** [read(buf, n)]: the bytes stored and the stream afterwards. A stream
    that has failed stores nothing; a short read stores what is left and
    sets [failbit]. *)
Definition read (n : nat) (s : ifstream) : list byte * ifstream :=
  if failed s then ([], s)
  else
    let avail := drop (gpos s) (contents s) in
    if (n <=? length avail)%nat
    then (take n avail, {| contents := contents s; gpos := gpos s + n; failed := false |})
    else (avail, {| contents := contents s; gpos := gpos s + length avail; failed := true |}).

(** [seekg(pos)] with [pos] converted from a [uint64_t]: values from [2^63]
    up become negative stream positions, which the file buffer refuses. *)
Definition seekg (pos : Z) (s : ifstream) : ifstream :=
  if failed s then s
  else if 2 ^ 63 <=? pos
       then {| contents := contents s; gpos := gpos s; failed := true |}
       else {| contents := contents s; gpos := Z.to_nat pos; failed := false |}.

(** [seekg(0, std::ios::end)], with the truth value of the stream. *)
Definition seekg_end (s : ifstream) : ifstream * bool :=
  if failed s then (s, false)
  else ({| contents := contents s; gpos := length (contents s); failed := false |}, true).

Definition tellg (s : ifstream) : Z :=
  if failed s then -1 else Z.of_nat (gpos s).

(** A [std::ofstream] opened with [trunc]: the file written so far and the
    put position. *)
Record ofstream := {
  written : list byte;
  ppos : nat
}.

Definition ofstream_open : ofstream := {| written := []; ppos := 0 |}.

Definition write (bs : list byte) (s : ofstream) : ofstream :=
  {| written := take (ppos s) (written s) ++ bs ++ drop (ppos s + length bs) (written s);
     ppos := ppos s + length bs |}.

Definition tellp (s : ofstream) : Z := Z.of_nat (ppos s).

Definition seekp (pos : nat) (s : ofstream) : ofstream :=
  {| written := written s; ppos := pos |}.

(** ** The external collaborators *)

(** Zstandard's streaming interface as acf.cc drives it. A call
    [ZSTD_compressStream cs chunk] stands for the inner [while] loop that
    feeds one input buffer until it is consumed, and returns everything it
    wrote; likewise for decompression, where [None] is [ZSTD_isError]. *)
Record Zstd := {
  CStream : Type;
  DStream : Type;
  ZSTD_initCStream : CStream;      (* ZSTD_createCStream, ZSTD_initCStream(_, 9) *)
  ZSTD_CStreamInSize : positive;
  ZSTD_compressStream : CStream -> list byte -> CStream * list byte;
  ZSTD_endStream : CStream -> option (list byte);
  ZSTD_initDStream : DStream;      (* ZSTD_createDStream, ZSTD_initDStream *)
  ZSTD_DStreamInSize : positive;
  ZSTD_decompressStream : DStream -> list byte -> option (DStream * list byte)
}.

(** What the extraction routines ask of the output directory; every path is
    the entry's stored path, to be resolved under [outputDir]. *)
Inductive Action :=
  | create_directories (p : string)
  | create_parent_directories (p : string)
  | write_file (p : string) (data : list byte)
  | last_write_time (p : string) (dosDateTime : Z)
  | SetFileAttributesW (p : string) (attr : Z).

(** ** The archive reader *)

Section Reader.

Variable zstd : Zstd.

(** The [ACFHeader header; archiveFile.read(&header, sizeof(ACFHeader))]
    that opens both [List] and [ExtractData]: bytes the read does not
    supply keep their default member initialisers. *)
Definition read_header (s : ifstream) : ACFHeader * ifstream :=
  let '(got, s') := read sizeof_ACFHeader s in
  (ACFHeader_of_bytes (Bytes.overlay got (ACFHeader_bytes ACFHeader_default)), s').

(** The loop of [List] over the central-directory buffer. *)
Fixpoint List_loop (n : nat) (buf : list byte) : list (ACFEntryData * string) :=
  match n with
  | O => []
  | S n' =>
    if (length buf <? sizeof_ACFEntryData)%nat then []
    else
      let entryData := ACFEntryData_of_bytes (take sizeof_ACFEntryData buf) in
      let rest := drop sizeof_ACFEntryData buf in
      let len := Z.to_nat (pathLength entryData) in
      if (length rest <? len)%nat then []
      else (entryData, string_of_list_byte (take len rest)) :: List_loop n' (drop len rest)
  end.

(** [List] on an archive file that opens and holds the bytes [f]. *)
Definition List (f : list byte) : Outcome (list (ACFEntryData * string)) :=
  let '(header, s1) := read_header (ifstream_open f) in
  if negb (magic header =? ACF_MAGIC) then Throw UnknownFormat
  else
    let s2 := seekg (centralDirOffset header) s1 in
    let '(s3, ok) := seekg_end s2 in
    let cdSize := if ok then (tellg s3 - centralDirOffset header) mod 2 ^ 64 else 0 in
    let s4 := seekg (centralDirOffset header) s3 in
    if PTRDIFF_MAX <? cdSize then Throw AllocationFailure
    else
      let '(got, _) := read (Z.to_nat cdSize) s4 in
      let centralDirBuffer := Bytes.overlay got (Bytes.zeros (Z.to_nat cdSize)) in
      if negb (Crc.crc32 centralDirBuffer =? centralDirCRC32 header)
      then Throw BadArchive
      else if PTRDIFF_MAX <? entryCount header * sizeof_list_item
      then Throw AllocationFailure
      else Ok (List_loop (Z.to_nat (entryCount header)) centralDirBuffer).

(** The search loop of [ExtractData]. *)
Inductive Scan :=
  | Found (targetEntry : ACFEntryData) (s : ifstream)
  | Missing
  | Unread.   (* [currentEntry] was not filled and is used all the same *)

Fixpoint ExtractData_scan (n : nat) (s : ifstream) (archFileName : string) : Scan :=
  match n with
  | O => Missing
  | S n' =>
    let '(got, s1) := read sizeof_ACFEntryData s in
    if (length got <? sizeof_ACFEntryData)%nat then Unread
    else
      let currentEntry := ACFEntryData_of_bytes got in
      let len := Z.to_nat (pathLength currentEntry) in
      let '(pgot, s2) := read len s1 in
      let path := string_of_list_byte (Bytes.overlay pgot (Bytes.zeros len)) in
      if String.eqb path archFileName then Found currentEntry s2
      else ExtractData_scan n' s2 archFileName
  end.

(** The decompression loop of [ExtractData]; [fuel] bounds the number of
    iterations and [Z.to_nat compressedSize] is always enough. *)
Fixpoint ExtractData_loop (fuel : nat) (dstream : DStream zstd) (inBuff : list byte)
    (s : ifstream) (totalRead compressedSize : Z) (decompressedData : list byte)
    : Outcome (list byte) :=
  if totalRead <? compressedSize then
    match fuel with
    | O => Indeterminate
    | S fuel' =>
      let toRead :=
        Z.to_nat (Z.min (Z.of_nat (length inBuff)) (compressedSize - totalRead)) in
      let '(got, s') := read toRead s in
      let inBuff' := Bytes.overlay got inBuff in
      match ZSTD_decompressStream zstd dstream (take toRead inBuff') with
      | None => Throw CompressorError
      | Some (dstream', out) =>
        ExtractData_loop fuel' dstream' inBuff' s' (totalRead + Z.of_nat toRead)
                         compressedSize (decompressedData ++ out)
      end
    end
  else Ok decompressedData.

(** [ExtractData] from the point where the target entry is known. *)
Definition ExtractData_entry (targetEntry : ACFEntryData) (s : ifstream)
    : Outcome (list byte) :=
  if negb (type targetEntry =? EntryType_value File) then Throw InvalidOperation
  else
    let s' := seekg (dataOffset targetEntry) s in
    if PTRDIFF_MAX <? originalSize targetEntry then Throw AllocationFailure
    else
      let inBuff := Bytes.zeros (Pos.to_nat (ZSTD_DStreamInSize zstd)) in
      match ExtractData_loop (Z.to_nat (compressedSize targetEntry))
              (ZSTD_initDStream zstd) inBuff s' 0 (compressedSize targetEntry) [] with
      | Ok decompressedData =>
        if negb (Crc.crc32 decompressedData =? crc32 targetEntry)
        then Throw CRCMismatch
        else Ok decompressedData
      | other => other
      end.

(** [ExtractData] on an archive file that opens and holds the bytes [f]. *)
Definition ExtractData (f : list byte) (archFileName : string) : Outcome (list byte) :=
  let '(header, s1) := read_header (ifstream_open f) in
  if negb (magic header =? ACF_MAGIC) then Throw UnknownFormat
  else
    let s2 := seekg (centralDirOffset header) s1 in
    match ExtractData_scan (Z.to_nat (entryCount header)) s2 archFileName with
    | Unread => Indeterminate
    | Missing => Throw NotFound
    | Found targetEntry s3 => ExtractData_entry targetEntry s3
    end.

(** The loop of [ExtractAll] over the listed entries: the actions issued
    so far and how the loop ended. *)
Fixpoint ExtractAll_loop (f : list byte) (entries : list (ACFEntryData * string))
    : list Action * Outcome unit :=
  match entries with
  | [] => ([], Ok tt)
  | (entry, path) :: rest =>
    let finish (acts : list Action) :=
      let '(more, r) := ExtractAll_loop f rest in
      (acts ++ [last_write_time path (filedatetime entry);
                SetFileAttributesW path (fileattribute entry)] ++ more, r) in
    if type entry =? EntryType_value Directory then
      finish [create_directories path]
    else if type entry =? EntryType_value File then
      match ExtractData f path with
      | Ok data => finish [create_parent_directories path; write_file path data]
      | Throw e => ([create_parent_directories path], Throw e)
      | Indeterminate => ([create_parent_directories path], Indeterminate)
      end
    else finish []
  end.

(** [ExtractAll]: the actions issued on the output directory and how the
    run ended. *)
Definition ExtractAll (f : list byte) : list Action * Outcome unit :=
  match List f with
  | Ok entries => ExtractAll_loop f entries
  | Throw e => ([], Throw e)
  | Indeterminate => ([], Indeterminate)
  end.

End Reader.

(** The files of the output directory after a run: each [write_file]
    truncates and rewrites the file at its path. *)
Definition output_files (acts : list Action) : gmap string (list byte) :=
  fold_left (fun m a => match a with write_file p data => <[p := data]> m | _ => m end)
            acts ∅.

(** ** The host: file system and Windows calls used by [Create] *)

(** A [std::filesystem::path], as the sequence of its elements. *)
Definition fspath := list string.

(** [path::compare]: element by element, each element as a string. *)
Fixpoint path_compare (p q : fspath) : comparison :=
  match p, q with
  | [], [] => Eq
  | [], _ :: _ => Lt
  | _ :: _, [] => Gt
  | a :: p', b :: q' =>
    match String.compare a b with
    | Eq => path_compare p' q'
    | c => c
    end
  end.

Definition path_le (p q : fspath) : Prop := path_compare p q <> Gt.

Global Instance path_le_dec p q : Decision (path_le p q).
Proof. unfold path_le. destruct (path_compare p q); [left|left|right]; congruence. Defined.

(** [std::sort] with [operator<] of [fs::path]. *)
Definition std_sort (l : list fspath) : list fspath := merge_sort path_le l.

Record FILETIME := {
  dwLowDateTime : Z;
  dwHighDateTime : Z
}.

Record Host := {
  fs_exists : fspath -> bool;
  fs_is_directory : fspath -> bool;
  fs_is_regular_file : fspath -> bool;
  (** the paths a [fs::recursive_directory_iterator] yields, in its order *)
  fs_recursive_directory_iterator : fspath -> list fspath;
  (** [fs::relative(p, base)] *)
  fs_relative : fspath -> fspath -> fspath;
  (** [WStringToString((fs::path(internalBasePath) / rel).make_preferred().wstring())] *)
  fs_internal_path : string -> fspath -> string;
  (** [fs::last_write_time(p).time_since_epoch().count()] *)
  fs_last_write_time : fspath -> Z;
  fs_file_size : fspath -> Z;
  GetFileAttributesW : fspath -> Z;
  (** [ftLastWriteTime] when [GetFileAttributesExW] succeeds *)
  GetFileAttributesExW : fspath -> option FILETIME;
  (** the [dosDate] and [dosTime] words the Windows call leaves behind *)
  FileTimeToDosDateTime_words : FILETIME -> Z * Z;
  (** [std::ifstream(p, std::ios::binary)]: the bytes of the file, [None]
      when the stream does not open *)
  fs_ifstream : fspath -> option (list byte)
}.

(** ** The archive writer *)

Section Writer.

Variable host : Host.
Variable zstd : Zstd.

(** The wrapper [FileTimeToDosDateTime] of acf.cc:
    [(static_cast<uint32_t>(dosDate) << 16) | dosTime]. *)
Definition FileTimeToDosDateTime (ft : FILETIME) : Z :=
  let '(dosDate, dosTime) := FileTimeToDosDateTime_words host ft in
  Z.lor (Z.shiftl (dosDate mod 2 ^ 16) 16 mod 2 ^ 32) (dosTime mod 2 ^ 16).

(** What the enumeration has gathered: [processedPaths],
    [dirsToProcess], [filesToProcess]. *)
Record Gathered := {
  processedPaths : gset fspath;
  dirsToProcess : list fspath;
  filesToProcess : list fspath
}.

(** The body of the loop over a [recursive_directory_iterator]. *)
Definition gather_dir_entry (g : Gathered) (p : fspath) : Gathered :=
  if bool_decide (p ∈ processedPaths g) then g
  else
    {| processedPaths := {[p]} ∪ processedPaths g;
       dirsToProcess :=
         if fs_is_directory host p then dirsToProcess g ++ [p] else dirsToProcess g;
       filesToProcess :=
         if fs_is_directory host p then filesToProcess g
         else if fs_is_regular_file host p then filesToProcess g ++ [p]
         else filesToProcess g |}.

(** The body of the loop over [inputPaths]. *)
Definition gather_input (g : Gathered) (inputPath : fspath) : Gathered :=
  if negb (fs_exists host inputPath) || bool_decide (inputPath ∈ processedPaths g)
  then g
  else if fs_is_directory host inputPath then
    let g1 :=
      if bool_decide (inputPath ∈ processedPaths g) then g
      else {| processedPaths := {[inputPath]} ∪ processedPaths g;
              dirsToProcess := dirsToProcess g ++ [inputPath];
              filesToProcess := filesToProcess g |} in
    fold_left gather_dir_entry (fs_recursive_directory_iterator host inputPath) g1
  else if fs_is_regular_file host inputPath then
    {| processedPaths := {[inputPath]} ∪ processedPaths g;
       dirsToProcess := dirsToProcess g;
       filesToProcess := filesToProcess g ++ [inputPath] |}
  else g.

Definition gather (inputPaths : list fspath) : Gathered :=
  fold_left gather_input inputPaths
    {| processedPaths := ∅; dirsToProcess := []; filesToProcess := [] |}.

Section Entries.

Variable basePath : fspath.
Variable internalBasePath : string.

Definition internalPath_of (p : fspath) : string :=
  fs_internal_path host internalBasePath (fs_relative host p basePath).

(** The stored path of a directory: a backslash is appended unless the
    path is empty or already ends with one. *)
Definition dir_internalPath (dirPath : fspath) : string :=
  let internalPath := internalPath_of dirPath in
  match last (list_ascii_of_string internalPath) with
  | None => internalPath
  | Some c => if Ascii.eqb c "\"%char then internalPath
              else (internalPath ++ "\")%string
  end.

(** The body of the loop over [dirsToProcess]. *)
Definition dir_entry (dirPath : fspath) : ACFEntryData * string :=
  let internalPath := dir_internalPath dirPath in
  let QuadPart := fs_last_write_time host dirPath mod 2 ^ 64 in
  let ft := {| dwLowDateTime := QuadPart mod 2 ^ 32;
               dwHighDateTime := QuadPart / 2 ^ 32 |} in
  ({| type := EntryType_value Directory;
      originalSize := 0; compressedSize := 0; dataOffset := 0; crc32 := 0;
      filedatetime := FileTimeToDosDateTime ft;
      fileattribute := GetFileAttributesW host dirPath mod 2 ^ 8;
      pathLength := Z.of_nat (String.length internalPath) mod 2 ^ 16 |},
   internalPath).

(** The reading loop over one source file: the compressor, the running
    CRC, the archive and [totalCompressedSize]. [S (length file)]
    iterations always reach the [break]. *)
Fixpoint compress_loop (fuel : nat) (inputFile : ifstream) (cstream : CStream zstd)
    (crc : Z) (archiveFile : ofstream) (totalCompressedSize : Z)
    : CStream zstd * Z * ofstream * Z :=
  match fuel with
  | O => (cstream, crc, archiveFile, totalCompressedSize)
  | S fuel' =>
    let '(inBuff, inputFile') := read (Pos.to_nat (ZSTD_CStreamInSize zstd)) inputFile in
    if (length inBuff =? 0)%nat
    then (cstream, crc, archiveFile, totalCompressedSize)
    else
      let crc' := Crc.crc32_update crc inBuff in
      let '(cstream', out) := ZSTD_compressStream zstd cstream inBuff in
      compress_loop fuel' inputFile' cstream' crc' (write out archiveFile)
        ((totalCompressedSize + Z.of_nat (length out)) mod 2 ^ 64)
  end.

(** The descriptor and path pushed for a source file, from the values the
    loop body has computed: the put position before the frame, the running
    CRC and [totalCompressedSize]. *)
Definition file_record (filePath : fspath) (dataOffset_ crc totalCompressedSize : Z)
    : ACFEntryData * string :=
  let internalPath := internalPath_of filePath in
  let ft :=
    match GetFileAttributesExW host filePath with
    | Some ft => ft
    | None => {| dwLowDateTime := 0; dwHighDateTime := 0 |}
    end in
  ({| type := EntryType_value File;
      originalSize := fs_file_size host filePath mod 2 ^ 64;
      compressedSize := totalCompressedSize;
      dataOffset := dataOffset_ mod 2 ^ 64;
      crc32 := crc;
      filedatetime := FileTimeToDosDateTime ft;
      fileattribute := GetFileAttributesW host filePath mod 2 ^ 8;
      pathLength := Z.of_nat (String.length internalPath) mod 2 ^ 16 |},
   internalPath).

(** The body of the loop over [filesToProcess]: [None] is the
    [continue] taken when the source does not open. *)
Definition file_entry (filePath : fspath) (archiveFile : ofstream)
    : Outcome (option (ofstream * (ACFEntryData * string))) :=
  match fs_ifstream host filePath with
  | None => Ok None
  | Some bytes =>
    let '(cstream, crc, archiveFile1, total) :=
      compress_loop (S (length bytes)) (ifstream_open bytes)
        (ZSTD_initCStream zstd) 0 archiveFile 0 in
    match ZSTD_endStream zstd cstream with
    | None => Throw CompressorError
    | Some out =>
      Ok (Some (write out archiveFile1,
                file_record filePath (tellp archiveFile) crc
                  ((total + Z.of_nat (length out)) mod 2 ^ 64)))
    end
  end.

(** The loop over [filesToProcess], from the archive and the central
    directory gathered so far. *)
Fixpoint file_entries (files : list fspath) (archiveFile : ofstream)
    (centralDirectory : list (ACFEntryData * string))
    : Outcome (ofstream * list (ACFEntryData * string)) :=
  match files with
  | [] => Ok (archiveFile, centralDirectory)
  | filePath :: rest =>
    match file_entry filePath archiveFile with
    | Ok None => file_entries rest archiveFile centralDirectory
    | Ok (Some (archiveFile', r)) =>
      file_entries rest archiveFile' (centralDirectory ++ [r])
    | Throw e => Throw e
    | Indeterminate => Indeterminate
    end
  end.

(** [Create] up to the point where the central directory is complete:
    the archive stream and the central directory (the vectors
    [centralDirectory] and [pathStrings], kept side by side). *)
Definition Create_entries (inputPaths : list fspath)
    : Outcome (ofstream * list (ACFEntryData * string)) :=
  let archiveFile := write (ACFHeader_bytes ACFHeader_default) ofstream_open in
  let g := gather inputPaths in
  let dirs := std_sort (dirsToProcess g) in
  let files := std_sort (filesToProcess g) in
  file_entries files archiveFile (map dir_entry dirs).

(** The header written over the placeholder. *)
Definition final_header (archiveFile : ofstream)
    (centralDirectory : list (ACFEntryData * string)) : ACFHeader :=
  {| magic := ACF_MAGIC; version := ACF_VERSION;
     centralDirOffset := tellp archiveFile mod 2 ^ 64;
     entryCount := Z.of_nat (length centralDirectory) mod 2 ^ 64;
     centralDirCRC32 := Crc.crc32 (central_directory_bytes centralDirectory);
     reserved := 0 |}.

(** [Create], with the archive file open for writing: the bytes of the
    archive file when it returns. *)
Definition Create (inputPaths : list fspath) : Outcome (list byte) :=
  match Create_entries inputPaths with
  | Ok (archiveFile, centralDirectory) =>
    let header := final_header archiveFile centralDirectory in
    let archiveFile1 := write (central_directory_bytes centralDirectory) archiveFile in
    let archiveFile2 := write (ACFHeader_bytes header) (seekp 0 archiveFile1) in
    Ok (written archiveFile2)
  | Throw e => Throw e
  | Indeterminate => Indeterminate
  end.

End Entries.

End Writer.

(** ** Notions used to state the properties *)

(** The header a reader finds at the start of a file. *)
Definition header_of (f : list byte) : ACFHeader :=
  (read_header (ifstream_open f)).1.

(** The byte range [[centralDirOffset, EOF)]. *)
Definition central_directory_of (f : list byte) : list byte :=
  drop (Z.to_nat (centralDirOffset (header_of f))) f.

(** A valid archive: the magic matches, the central directory starts after
    the header and inside the file, and its CRC is the one in the header. *)
Definition valid_archive (f : list byte) : Prop :=
  Z.of_nat (length f) < 2 ^ 63 /\
  magic (header_of f) = ACF_MAGIC /\
  Z.of_nat sizeof_ACFHeader <= centralDirOffset (header_of f) <= Z.of_nat (length f) /\
  Crc.crc32 (central_directory_of f) = centralDirCRC32 (header_of f).

(** [f'] is [f] with the byte at index [k] replaced by a different one. *)
Definition flipped_at (k : nat) (f f' : list byte) : Prop :=
  exists b b', f !! k = Some b /\ b' <> b /\ f' = <[k := b']> f.

(** What a stream can still deliver. *)
Definition remaining (s : ifstream) : list byte :=
  if failed s then [] else drop (gpos s) (contents s).

(** The walk over a central-directory buffer in which an overrun is
    reported: [None] when a 36-byte descriptor or its [pathLength] bytes of
    path would run past the end of the buffer within [n] iterations. *)
Fixpoint parse_records (n : nat) (buf : list byte)
    : option (list (ACFEntryData * string)) :=
  match n with
  | O => Some []
  | S n' =>
    if (length buf <? sizeof_ACFEntryData)%nat then None
    else
      let e := ACFEntryData_of_bytes (take sizeof_ACFEntryData buf) in
      let rest := drop sizeof_ACFEntryData buf in
      let len := Z.to_nat (pathLength e) in
      if (length rest <? len)%nat then None
      else cons (e, string_of_list_byte (take len rest)) <$> parse_records n' (drop len rest)
  end.

(** The archive [f] holds a whole header with the right magic and a central
    directory that starts inside the file and holds the [entryCount]
    complete records [cd]. *)
Definition central_directory_is (f : list byte) (cd : list (ACFEntryData * string)) : Prop :=
  (sizeof_ACFHeader <= length f)%nat /\
  Z.of_nat (length f) < 2 ^ 63 /\
  magic (header_of f) = ACF_MAGIC /\
  centralDirOffset (header_of f) <= Z.of_nat (length f) /\
  parse_records (Z.to_nat (entryCount (header_of f))) (central_directory_of f) = Some cd.

(** The first record stored under a path. *)
Definition first_match (name : string) (cd : list (ACFEntryData * string))
    : option ACFEntryData :=
  fst <$> List.find (fun r => String.eqb r.2 name) cd.

(** A descriptor all of whose fields lie in the range of their type. *)
Definition entry_wf (e : ACFEntryData) : Prop :=
  0 <= type e < 2 ^ 8 /\ 0 <= originalSize e < 2 ^ 64 /\
  0 <= compressedSize e < 2 ^ 64 /\ 0 <= dataOffset e < 2 ^ 64 /\
  0 <= crc32 e < 2 ^ 32 /\ 0 <= filedatetime e < 2 ^ 32 /\
  0 <= fileattribute e < 2 ^ 8 /\ 0 <= pathLength e < 2 ^ 16.

(** A record whose [pathLength] is the byte length of its path. *)
Definition record_wf (r : ACFEntryData * string) : Prop :=
  entry_wf r.1 /\ pathLength r.1 = Z.of_nat (String.length r.2).

(** Byte strings cut into the blocks a stream of buffer size [n] hands
    over, the last one possibly shorter; [length l] steps exhaust [l]. *)
Fixpoint blocks_upto (fuel n : nat) (l : list byte) : list (list byte) :=
  match fuel with
  | O => []
  | S fuel' =>
    match l with
    | [] => []
    | _ => take n l :: blocks_upto fuel' n (drop n l)
    end
  end.

Definition blocks (n : positive) (l : list byte) : list (list byte) :=
  blocks_upto (length l) (Pos.to_nat n) l.

Section Codec.

Variable zstd : Zstd.

(** The output of the compressor fed a sequence of input buffers. *)
Fixpoint compress_blocks (cs : CStream zstd) (bs : list (list byte))
    : CStream zstd * list byte :=
  match bs with
  | [] => (cs, [])
  | b :: bs' =>
    let '(cs1, out1) := ZSTD_compressStream zstd cs b in
    let '(cs2, out2) := compress_blocks cs1 bs' in
    (cs2, out1 ++ out2)
  end.

(** The frame [Create] stores for a source file with the given bytes. *)
Definition frame_of (bytes : list byte) : option (list byte) :=
  let '(cs, out) :=
    compress_blocks (ZSTD_initCStream zstd) (blocks (ZSTD_CStreamInSize zstd) bytes) in
  match ZSTD_endStream zstd cs with
  | Some tail => Some (out ++ tail)
  | None => None
  end.

(** The output of the decompressor fed a sequence of input buffers. *)
Fixpoint decompress_blocks (ds : DStream zstd) (bs : list (list byte))
    : option (list byte) :=
  match bs with
  | [] => Some []
  | b :: bs' =>
    match ZSTD_decompressStream zstd ds b with
    | None => None
    | Some (ds1, out1) => app out1 <$> decompress_blocks ds1 bs'
    end
  end.

(** What [ExtractData] decodes from a stored frame. *)
Definition decode_frame (frame : list byte) : option (list byte) :=
  decompress_blocks (ZSTD_initDStream zstd) (blocks (ZSTD_DStreamInSize zstd) frame).

(** The compressor and the decompressor agree: a frame produced the way
    [Create] drives the compressor decodes, the way [ExtractData] drives
    the decompressor, to the bytes it was made from. *)
Definition codec_round_trip : Prop :=
  forall bytes frame, frame_of bytes = Some frame -> decode_frame frame = Some bytes.

End Codec.

(** Strings strictly ascending in lexicographic byte order. *)
Definition byte_ascending (l : list string) : Prop :=
  Sorted (fun a b => String.compare a b = Lt) l.

(** The records of one type, in central-directory order. *)
Definition records_of_type (t : EntryType) (cd : list (ACFEntryData * string))
    : list (ACFEntryData * string) :=
  filter (fun r => type r.1 = EntryType_value t) cd.

(** An output stream whose put position is the end of the file. *)
Definition at_end (s : ofstream) : Prop := ppos s = length (written s).

Section Layout.

Variable host : Host.
Variable zstd : Zstd.
Variable basePath : fspath.
Variable internalBasePath : string.

(** The body bytes and the file records that the loop over the files adds
    to an archive that is [start] bytes long: for each source that opens,
    its frame and its record, in order. [None] when a frame cannot be
    completed. *)
Fixpoint stored_files (files : list fspath) (start : nat)
    : option (list byte * list (ACFEntryData * string)) :=
  match files with
  | [] => Some ([], [])
  | filePath :: rest =>
    match fs_ifstream host filePath with
    | None => stored_files rest start
    | Some bytes =>
      match frame_of zstd bytes with
      | None => None
      | Some frame =>
        match stored_files rest (start + length frame) with
        | None => None
        | Some (body, records) =>
          Some (frame ++ body,
                file_record host basePath internalBasePath filePath
                  (Z.of_nat start) (Crc.crc32 bytes)
                  (Z.of_nat (length frame) mod 2 ^ 64) :: records)
        end
      end
    end
  end.

End Layout.

(** Inputs that the format can hold and tell apart: the stored paths fit
    the 16-bit [pathLength], the sizes reported for the files are sizes,
    source files stored under one path have the same bytes, and no file is
    stored under the path of a directory. *)
Definition storable (host : Host) (basePath : fspath) (internalBasePath : string)
    (inputPaths : list fspath) : Prop :=
  let g := gather host inputPaths in
  let opens p := is_Some (fs_ifstream host p) in
  (forall d, d ∈ dirsToProcess g ->
     Z.of_nat (String.length (dir_internalPath host basePath internalBasePath d)) <= 65535) /\
  (forall p, p ∈ filesToProcess g -> opens p ->
     Z.of_nat (String.length (internalPath_of host basePath internalBasePath p)) <= 65535 /\
     0 <= fs_file_size host p <= PTRDIFF_MAX) /\
  (forall p q, p ∈ filesToProcess g -> q ∈ filesToProcess g -> opens p -> opens q ->
     internalPath_of host basePath internalBasePath p =
       internalPath_of host basePath internalBasePath q ->
     fs_ifstream host p = fs_ifstream host q) /\
  (forall d p, d ∈ dirsToProcess g -> p ∈ filesToProcess g -> opens p ->
     dir_internalPath host basePath internalBasePath d <>
       internalPath_of host basePath internalBasePath p).

(** ** A small host and a stand-in codec, for concrete runs *)

Module Demo.

(** A codec that stores blocks as they are: enough to run the engine, and
    small buffer sizes so that the loops take several turns. *)
Definition stored : Zstd :=
  {| CStream := unit;
     DStream := unit;
     ZSTD_initCStream := tt;
     ZSTD_CStreamInSize := 4%positive;
     ZSTD_compressStream := fun _ block => (tt, block);
     ZSTD_endStream := fun _ => Some [];
     ZSTD_initDStream := tt;
     ZSTD_DStreamInSize := 3%positive;
     ZSTD_decompressStream := fun _ block => Some (tt, block) |}.

(** A file system given by the list of its nodes, each a directory
    ([None]) or a regular file with its bytes. *)
Definition tree := list (fspath * option (list byte)).

Definition node (t : tree) (p : fspath) : option (option (list byte)) :=
  snd <$> List.find (fun n => bool_decide (n.1 = p)) t.

Fixpoint strip_prefix (base p : fspath) : fspath :=
  match base, p with
  | b :: base', a :: p' => if String.eqb a b then strip_prefix base' p' else p
  | _, _ => p
  end.

Fixpoint is_proper_prefix (base p : fspath) : bool :=
  match base, p with
  | [], _ :: _ => true
  | b :: base', a :: p' => String.eqb a b && is_proper_prefix base' p'
  | _, _ => false
  end.

Fixpoint join (elements : fspath) : string :=
  match elements with
  | [] => ""%string
  | [a] => a
  | a :: rest => (a ++ "\" ++ join rest)%string
  end.

Definition host_of (t : tree) : Host :=
  {| fs_exists := fun p => bool_decide (is_Some (node t p));
     fs_is_directory := fun p =>
       match node t p with Some None => true | _ => false end;
     fs_is_regular_file := fun p =>
       match node t p with Some (Some _) => true | _ => false end;
     fs_recursive_directory_iterator := fun p =>
       map fst (filter (fun n => is_proper_prefix p n.1 = true) t);
     fs_relative := fun p base => strip_prefix base p;
     fs_internal_path := fun internalBasePath rel =>
       match internalBasePath with
       | EmptyString => join rel
       | _ => (internalBasePath ++ "\" ++ join rel)%string
       end;
     fs_last_write_time := fun _ => 0;
     fs_file_size := fun p =>
       match node t p with Some (Some bytes) => Z.of_nat (length bytes) | _ => 0 end;
     GetFileAttributesW := fun p =>
       match node t p with Some None => 0x10 | _ => 0x20 end;
     GetFileAttributesExW := fun _ => Some {| dwLowDateTime := 0; dwHighDateTime := 0 |};
     FileTimeToDosDateTime_words := fun _ => (0x5B5E, 0x6000);
     fs_ifstream := fun p =>
       match node t p with Some (Some bytes) => Some bytes | _ => None end |}.

(** A directory [root] holding the file [a.txt] and the directory [a]
    with the file [b] in it. *)
Definition sample_tree : tree :=
  [ (["root"], None);
    (["root"; "a"], None);
    (["root"; "a"; "b"], Some [x00; x01; x02; x03]);
    (["root"; "a.txt"], Some (list_byte_of_string "hello")) ]%string.

Definition sample_host : Host := host_of sample_tree.

Definition archive_or_empty (r : Outcome (list byte)) : list byte :=
  match r with Ok a => a | _ => [] end.

(** The archive [Create] makes of [root], with an empty base path and an
    empty internal base path. *)
Definition sample_archive : list byte :=
  archive_or_empty (Create sample_host stored [] "" [["root"%string]]).

(** The central directory [Create] builds for the sample. *)
Definition sample_cd : list (ACFEntryData * string) :=
  match Create_entries sample_host stored [] "" [["root"%string]] with
  | Ok (_, cd) => cd
  | _ => []
  end.

(** The archive stream at the point where [Create] has built it. *)
Definition sample_stream : ofstream :=
  match Create_entries sample_host stored [] "" [["root"%string]] with
  | Ok (af, _) => af
  | _ => ofstream_open
  end.

(** An archive with the given entry count and central-directory bytes and
    no body. *)
Definition bare_archive (count : Z) (cd : list byte) : list byte :=
  ACFHeader_bytes
    {| magic := ACF_MAGIC; version := ACF_VERSION;
       centralDirOffset := Z.of_nat sizeof_ACFHeader; entryCount := count;
       centralDirCRC32 := Crc.crc32 cd; reserved := 0 |} ++ cd.

Definition sample_dir_entry : ACFEntryData :=
  {| type := EntryType_value Directory; originalSize := 0; compressedSize := 0;
     dataOffset := 0; crc32 := 0; filedatetime := 0x5B5E6000;
     fileattribute := 0x10; pathLength := 2 |}.

(** Two entries declared; the central directory holds the first record
    and ten bytes of a second descriptor. *)
Definition truncated_archive : list byte :=
  bare_archive 2
    (record_bytes (sample_dir_entry, "d\"%string) ++
     take 10 (ACFEntryData_bytes sample_dir_entry)).

(** An archive with a header, a body and the records [cd]. *)
Definition archive_of (body : list byte) (cd : list (ACFEntryData * string)) : list byte :=
  ACFHeader_bytes
    {| magic := ACF_MAGIC; version := ACF_VERSION;
       centralDirOffset := Z.of_nat (sizeof_ACFHeader + length body);
       entryCount := Z.of_nat (length cd);
       centralDirCRC32 := Crc.crc32 (central_directory_bytes cd); reserved := 0 |}
  ++ body ++ central_directory_bytes cd.

Definition stored_entry (offset : Z) (bytes : list byte) (name : string) : ACFEntryData :=
  {| type := EntryType_value File; originalSize := Z.of_nat (length bytes);
     compressedSize := Z.of_nat (length bytes); dataOffset := offset;
     crc32 := Crc.crc32 bytes; filedatetime := 0x5B5E6000; fileattribute := 0x20;
     pathLength := Z.of_nat (String.length name) |}.

(** Two file records stored under the same path [x], the first for the
    bytes [AB], the second for the bytes [CD]. *)
Definition duplicate_cd : list (ACFEntryData * string) :=
  [ (stored_entry 32 (list_byte_of_string "AB") "x", "x"%string);
    (stored_entry 34 (list_byte_of_string "CD") "x", "x"%string) ].

Definition duplicate_archive : list byte :=
  archive_of (list_byte_of_string "ABCD") duplicate_cd.

Fixpoint string_repeat (c : ascii) (n : nat) : string :=
  match n with
  | O => EmptyString
  | S n' => String c (string_repeat c n')
  end.

(** A single file [f] and an internal base path of 65534 bytes: the
    internal path [base\f] is 65536 bytes long. *)
Definition long_host : Host := host_of [(["f"%string], Some [x2a])].
Definition long_base : string := string_repeat "x" (Z.to_nat 65534).

End Demo.

(** ** Extraction by name ([ACFArchiver::Extract]) *)

(** [Extract]: the entries whose path is in the set built from
    [archFileNames] are kept, in central-directory order, and go through the
    same loop body as in [ExtractAll]. *)
Definition Extract (zstd : Zstd) (f : list byte) (archFileNames : list string)
    : list Action * Outcome unit :=
  match List f with
  | Ok allEntries =>
    let filesToExtractSet : gset string := list_to_set archFileNames in
    let entriesToExtract :=
      filter (fun pair => pair.2 ∈ filesToExtractSet) allEntries in
    ExtractAll_loop zstd f entriesToExtract
  | Throw e => ([], Throw e)
  | Indeterminate => ([], Indeterminate)
  end.

(** The paths an action list writes files at, in order. *)
Definition written_paths (acts : list Action) : list string :=
  omap (fun a => match a with write_file p _ => Some p | _ => None end) acts.

(** ** More notions *)

(** The stored paths fit the 16-bit [pathLength]. *)
Definition paths_fit (host : Host) (basePath : fspath) (internalBasePath : string)
    (inputPaths : list fspath) : Prop :=
  let g := gather host inputPaths in
  (forall d, d ∈ dirsToProcess g ->
     Z.of_nat (String.length (dir_internalPath host basePath internalBasePath d)) <= 65535) /\
  (forall p, p ∈ filesToProcess g -> is_Some (fs_ifstream host p) ->
     Z.of_nat (String.length (internalPath_of host basePath internalBasePath p)) <= 65535).

(** The central directory [Create] builds, when it gets that far. *)
Definition Create_central_directory (host : Host) (zstd : Zstd) (basePath : fspath)
    (internalBasePath : string) (inputPaths : list fspath)
    : option (list (ACFEntryData * string)) :=
  match Create_entries host zstd basePath internalBasePath inputPaths with
  | Ok (_, cd) => Some cd
  | _ => None
  end.

(** The sum of the [compressedSize] fields of a list of records. *)
Definition compressed_total (cd : list (ACFEntryData * string)) : Z :=
  foldr (fun r acc => compressedSize r.1 + acc) 0 cd.

(** The gathered files whose input stream opens. *)
Definition opened_files (host : Host) (inputPaths : list fspath) : list fspath :=
  filter (fun p => is_Some (fs_ifstream host p)) (filesToProcess (gather host inputPaths)).

(** What the enumeration keeps true of [processedPaths], [dirsToProcess]
    and [filesToProcess]. *)
Definition gathered_ok (host : Host) (g : Gathered) : Prop :=
  NoDup (dirsToProcess g) /\ NoDup (filesToProcess g) /\
  (forall d, d ∈ dirsToProcess g ->
     d ∈ processedPaths g /\ fs_is_directory host d = true) /\
  (forall p, p ∈ filesToProcess g ->
     p ∈ processedPaths g /\ fs_is_directory host p = false /\
     fs_is_regular_file host p = true).

(** The record [Create] builds for the directory [root] of the sample. *)
Definition sample_root_entry : ACFEntryData :=
  {| type := EntryType_value Directory; originalSize := 0; compressedSize := 0;
     dataOffset := 0; crc32 := 0; filedatetime := 0x5B5E6000;
     fileattribute := 0x10; pathLength := 5 |}.

(** Two file records over the body [ABCD]: [x] for the bytes [AB], and
    [y], whose descriptor carries the CRC of [XX] over the stored [CD]. *)
Definition damaged_cd : list (ACFEntryData * string) :=
  [ (Demo.stored_entry 32 (list_byte_of_string "AB") "x", "x"%string);
    ({| type := EntryType_value File; originalSize := 2; compressedSize := 2;
        dataOffset := 34; crc32 := Crc.crc32 (list_byte_of_string "XX");
        filedatetime := 0x5B5E6000; fileattribute := 0x20; pathLength := 1 |},
     "y"%string) ].

Definition damaged_archive : list byte :=
  Demo.archive_of (list_byte_of_string "ABCD") damaged_cd.

(** ** Archiving a memory buffer ([ACFArchiver::CreateData]) *)

Definition FILE_ATTRIBUTE_ARCHIVE : Z := 0x20.

(** What [CreateData] checks of the compressor and takes from the system,
    beyond the calls of [Zstd]. *)
Record DataHost (zstd : Zstd) := {
  (** [!cstream] after [ZSTD_createCStream], or [ZSTD_isError] of
      [ZSTD_initCStream] *)
  CStream_setup_fails : bool;
  (** [ZSTD_isError] of a [ZSTD_compressStream] call while the one input
      buffer is fed *)
  compressStream_isError : CStream zstd -> list byte -> bool;
  (** the time [GetSystemTimeAsFileTime] stores *)
  GetSystemTimeAsFileTime : FILETIME
}.
Arguments CStream_setup_fails {zstd} _.
Arguments compressStream_isError {zstd} _ _ _.
Arguments GetSystemTimeAsFileTime {zstd} _.

Section DataWriter.

Variable host : Host.
Variable zstd : Zstd.
Variable sys : DataHost zstd.

(** The loop [while (inBuff.pos < inBuff.size)] over the one input buffer
    that holds all of [data]: the compressor afterwards and what was written,
    [None] when a call reports an error. *)
Definition CreateData_compress (data : list byte) : option (CStream zstd * list byte) :=
  if (0 <? length data)%nat then
    if compressStream_isError sys (ZSTD_initCStream zstd) data then None
    else Some (ZSTD_compressStream zstd (ZSTD_initCStream zstd) data)
  else Some (ZSTD_initCStream zstd, []).

(** The descriptor of the one entry. *)
Definition CreateData_entry (internalPath : string) (data : list byte)
    (dataOffset_ compressedSize_ : Z) : ACFEntryData :=
  {| type := EntryType_value File;
     originalSize := Z.of_nat (length data) mod 2 ^ 64;
     compressedSize := compressedSize_;
     dataOffset := dataOffset_;
     crc32 := Crc.crc32 data;
     filedatetime := FileTimeToDosDateTime host (GetSystemTimeAsFileTime sys);
     fileattribute := FILE_ATTRIBUTE_ARCHIVE mod 2 ^ 8;
     pathLength := Z.of_nat (String.length internalPath) mod 2 ^ 16 |}.

(** [CreateData], with the archive file open for writing: the bytes of the
    archive file when it returns. *)
Definition CreateData (internalPath : string) (data : list byte) : Outcome (list byte) :=
  let archiveFile := write (ACFHeader_bytes ACFHeader_default) ofstream_open in
  let dataOffset_ := tellp archiveFile mod 2 ^ 64 in
  if CStream_setup_fails sys then Throw CompressorError
  else
    match CreateData_compress data with
    | None => Throw CompressorError
    | Some (cstream, out) =>
      let archiveFile1 := write out archiveFile in
      let compressedSize1 := Z.of_nat (length out) mod 2 ^ 64 in
      match ZSTD_endStream zstd cstream with
      | None => Throw CompressorError
      | Some tail =>
        let archiveFile2 := write tail archiveFile1 in
        let compressedSize2 := (compressedSize1 + Z.of_nat (length tail)) mod 2 ^ 64 in
        let entryData := CreateData_entry internalPath data dataOffset_ compressedSize2 in
        let centralDirBuffer :=
          ACFEntryData_bytes entryData ++ list_byte_of_string internalPath in
        let header :=
          {| magic := ACF_MAGIC; version := ACF_VERSION;
             centralDirOffset := tellp archiveFile2 mod 2 ^ 64;
             entryCount := 1;
             centralDirCRC32 := Crc.crc32 centralDirBuffer;
             reserved := 0 |} in
        let archiveFile3 := write centralDirBuffer archiveFile2 in
        Ok (written (write (ACFHeader_bytes header) (seekp 0 archiveFile3)))
      end
    end.

(** The frame [CreateData] stores for [data]. *)
Definition CreateData_frame (data : list byte) : option (list byte) :=
  match CreateData_compress data with
  | Some (cstream, out) =>
    match ZSTD_endStream zstd cstream with
    | Some tail => Some (out ++ tail)
    | None => None
    end
  | None => None
  end.

End DataWriter.

(** A system for the stand-in codec: nothing fails, the clock is at zero. *)
Definition sample_sys : DataHost Demo.stored :=
  {| CStream_setup_fails := false;
     compressStream_isError := fun _ _ => false;
     GetSystemTimeAsFileTime := {| dwLowDateTime := 0; dwHighDateTime := 0 |} |}.

(** ** From DOS date and time back to a [FILETIME] (acf.cc) *)

(** The Windows calls [DosDateTimeToFileTime] and
    [LocalFileTimeToFileTime], by the [FILETIME] they store. *)
Record WinTime := {
  Win_DosDateTimeToFileTime : Z -> Z -> FILETIME;
  LocalFileTimeToFileTime : FILETIME -> FILETIME
}.

(** The wrapper [DosDateTimeToFileTime] of acf.cc: the high and the low
    word, each cast to [WORD], go to the Windows call, and its result is
    taken for a local time. *)
Definition DosDateTimeToFileTime (w : WinTime) (dosDateTime : Z) : FILETIME :=
  LocalFileTimeToFileTime w
    (Win_DosDateTimeToFileTime w (Z.shiftr dosDateTime 16 mod 2 ^ 16)
                                 (Z.land dosDateTime 0xFFFF mod 2 ^ 16)).

(** ** The listing of acfcli.cc *)

Module Cli.

Definition digit (n : Z) : ascii := ascii_of_N (Z.to_N (48 + n mod 10)).

(** [operator<<] on a non-negative [int]: its decimal digits. Ten turns
    cover every [int]. *)
Fixpoint decimal_upto (fuel : nat) (n : Z) : string :=
  match fuel with
  | O => ""
  | S fuel' =>
    if n <? 10 then String (digit n) ""
    else (decimal_upto fuel' (n / 10) ++ String (digit n) "")%string
  end.

Definition decimal (n : Z) : string := decimal_upto 10 n.

Fixpoint fill (c : ascii) (n : nat) : string :=
  match n with
  | O => ""
  | S n' => String c (fill c n')
  end.

(** [std::setfill('0') << std::setw(w) << n]. *)
Definition setw_0 (w : nat) (n : Z) : string :=
  (fill "0" (w - String.length (decimal n)) ++ decimal n)%string.

Definition DosDateTimeToString (dosDateTime : Z) : string :=
  if dosDateTime =? 0 then "1980-01-01 00:00:00"
  else
    let dosDate := Z.shiftr dosDateTime 16 mod 2 ^ 16 in
    let dosTime := Z.land dosDateTime 0xFFFF mod 2 ^ 16 in
    let year := Z.land (Z.shiftr dosDate 9) 0x7F + 1980 in
    let month := Z.land (Z.shiftr dosDate 5) 0x0F in
    let day := Z.land dosDate 0x1F in
    let hour := Z.land (Z.shiftr dosTime 11) 0x1F in
    let minute := Z.land (Z.shiftr dosTime 5) 0x3F in
    let second := Z.land dosTime 0x1F * 2 in
    (setw_0 4 year ++ "-" ++ setw_0 2 month ++ "-" ++ setw_0 2 day ++ " " ++
     setw_0 2 hour ++ ":" ++ setw_0 2 minute ++ ":" ++ setw_0 2 second)%string.

Definition FILE_ATTRIBUTE_READONLY : Z := 0x01.
Definition FILE_ATTRIBUTE_HIDDEN : Z := 0x02.
Definition FILE_ATTRIBUTE_SYSTEM : Z := 0x04.
Definition FILE_ATTRIBUTE_DIRECTORY : Z := 0x10.

Definition flag (attr mask : Z) (c : ascii) : ascii :=
  if Z.land attr mask =? 0 then "-"%char else c.

Definition AttrToString (attr : Z) : string :=
  String (flag attr FILE_ATTRIBUTE_READONLY "R")
    (String (flag attr FILE_ATTRIBUTE_HIDDEN "H")
       (String (flag attr FILE_ATTRIBUTE_SYSTEM "S")
          (String (flag attr FILE_ATTRIBUTE_DIRECTORY "D")
             (String (flag attr FILE_ATTRIBUTE_ARCHIVE "A") "")))).

(** Two attribute bytes render alike exactly when they agree on the five
    bits shown. *)
Definition same_rendering (a b : Z) : bool :=
  Bool.eqb (bool_decide (AttrToString a = AttrToString b))
           (Z.land a 0x37 =? Z.land b 0x37).

(** The 32-bit value whose date word holds [year - 1980], [month] and
    [day] and whose time word holds [hour], [minute] and [second / 2], in
    the layout of MS-DOS. *)
Definition dos_pack (y mo d h mi s2 : Z) : Z :=
  (y * 512 + mo * 32 + d) * 65536 + (h * 2048 + mi * 32 + s2).

End Cli.

(** ** The Total Commander plugin (acfwcx.cc) *)

Module Wcx.

(** The results the plugin hands back: [0] and the error constants of
    wcxhead.h it uses, by name. *)
Inductive Code :=
  | Success
  | E_END_ARCHIVE
  | E_BAD_ARCHIVE
  | E_UNKNOWN_FORMAT
  | E_EOPEN
  | E_ECREATE
  | E_EWRITE
  | E_NOT_SUPPORTED.

(** [struct ArchiveState], without the callbacks. *)
Record ArchiveState := {
  entries : list (ACFEntryData * string);
  currentEntryIndex : Z;     (* int *)
  archivePath : string
}.

(** The globals [g_OpenArchives], keyed by the value of the handle, and
    [g_NextHandle]. *)
Record Globals := {
  g_OpenArchives : gmap Z ArchiveState;
  g_NextHandle : Z           (* long *)
}.

Definition initial : Globals := {| g_OpenArchives := ∅; g_NextHandle := 0 |}.

(** [(HANDLE)-1]. *)
Definition INVALID_HANDLE : Z := -1.

Definition INT_MAX : Z := 2 ^ 31 - 1.

(** The conversion of an integer to [int] or [long], 32 bits wide. *)
Definition to_int (n : Z) : Z := (n + 2 ^ 31) mod 2 ^ 32 - 2 ^ 31.

(** [hay.find(needle) != std::string::npos]. *)
Fixpoint contains (needle hay : string) : bool :=
  String.prefix needle hay ||
  match hay with
  | EmptyString => false
  | String _ rest => contains needle rest
  end.

(** The mapping of [e.what()] to a result in [OpenArchiveW]. *)
Definition classify (what : string) : Code :=
  if contains "Not a valid" what then E_UNKNOWN_FORMAT
  else if contains "corrupted" what then E_BAD_ARCHIVE
  else E_EOPEN.

(** What the header data is filled from: the values assigned to
    [FileName], [UnpSize], [PackSize], [FileCRC], [FileTime] and [FileAttr],
    before the types of these fields cut them. *)
Record HeaderData := {
  FileName : string;
  UnpSize : Z;
  PackSize : Z;
  FileCRC : Z;
  FileTime : Z;
  FileAttr : Z
}.

Definition HeaderData_of (current : ACFEntryData * string) : HeaderData :=
  {| FileName := current.2;
     UnpSize := originalSize current.1;
     PackSize := compressedSize current.1;
     FileCRC := crc32 current.1;
     FileTime := filedatetime current.1;
     FileAttr := fileattribute current.1 |}.

(** What the plugin asks of the place it extracts to. *)
Record Output := {
  (** [DestPath / path] *)
  fs_join : string -> string -> string;
  parent_path : string -> string;
  (** [create_directories] throws *)
  create_directories_throws : string -> bool;
  (** the output stream opens *)
  ofstream_opens : string -> bool
}.

Section Plugin.

Variable zstd : Zstd.
(** The archive files: the bytes of the file at a path, [None] when it does
    not open. *)
Variable files : string -> option (list byte).
(** [what()] of the exception a container throws when asked for too much. *)
Variable alloc_what : string.
Variable output : Output.
(** The operations [PK_SKIP] and [PK_EXTRACT] of wcxhead.h. *)
Variable PK_SKIP : Z.
Variable PK_EXTRACT : Z.

(** [List] from the path of the archive. *)
Definition List_file (archivePath : string) : Outcome (list (ACFEntryData * string)) :=
  match files archivePath with
  | None => Throw IoError
  | Some f => List f
  end.

(** [ExtractData] from the path of the archive. *)
Definition ExtractData_file (archivePath archFileName : string) : Outcome (list byte) :=
  match files archivePath with
  | None => Throw IoError
  | Some f => ExtractData zstd f archFileName
  end.

(** [e.what()] for what [List] throws. *)
Definition List_what (archivePath : string) (e : Error) : string :=
  match e with
  | IoError => "Could not open archive file: " ++ archivePath
  | UnknownFormat => "Not a valid ACF archive: " ++ archivePath
  | BadArchive => "Central directory CRC32 mismatch. Archive is likely corrupted."
  | _ => alloc_what
  end.

(** [OpenArchiveW]: the handle returned, [OpenResult] when it is set, and
    the globals afterwards. [ArchiveData] is [None] for a null pointer,
    otherwise its [ArcName]. The result is [None] when the run is
    undefined. The name is the string [WStringToString] makes of it. *)
Definition OpenArchiveW (ArchiveData : option string) (g : Globals)
    : option (Z * option Code * Globals) :=
  match ArchiveData with
  | None => Some (INVALID_HANDLE, None, g)
  | Some ArcName =>
    match List_file ArcName with
    | Throw e => Some (INVALID_HANDLE, Some (classify (List_what ArcName e)), g)
    | Indeterminate => None
    | Ok listed =>
      let newHandle := to_int (g_NextHandle g + 1) in
      let state := {| entries := listed; currentEntryIndex := -1;
                      archivePath := ArcName |} in
      Some (newHandle, Some Success,
            {| g_OpenArchives := <[newHandle := state]> (g_OpenArchives g);
               g_NextHandle := newHandle |})
    end
  end.

(** [ReadHeaderExW]: the result, the header data when it is filled, and the
    globals afterwards; [None] when the run is undefined (the increment
    overflows, or the index lies outside the entries). *)
Definition ReadHeaderExW (hArcData : Z) (g : Globals)
    : option (Code * option HeaderData * Globals) :=
  match g_OpenArchives g !! hArcData with
  | None => Some (E_BAD_ARCHIVE, None, g)
  | Some state =>
    if currentEntryIndex state =? INT_MAX then None
    else
      let index := currentEntryIndex state + 1 in
      let state' := {| entries := entries state; currentEntryIndex := index;
                       archivePath := archivePath state |} in
      let g' := {| g_OpenArchives := <[hArcData := state']> (g_OpenArchives g);
                   g_NextHandle := g_NextHandle g |} in
      if to_int (Z.of_nat (length (entries state))) <=? index
      then Some (E_END_ARCHIVE, None, g')
      else if index <? 0 then None
      else
        match entries state !! Z.to_nat index with
        | Some current => Some (Success, Some (HeaderData_of current), g')
        | None => None
        end
  end.

(** [ProcessFileW]: the result and what was done at the destination;
    [None] when the run is undefined. The globals do not change. *)
Definition ProcessFileW (hArcData : Z) (Operation : Z) (DestPath : string)
    (DestName : option string) (g : Globals) : option (Code * list Action) :=
  match g_OpenArchives g !! hArcData with
  | None => Some (E_BAD_ARCHIVE, [])
  | Some state =>
    let index := currentEntryIndex state in
    if (index <? 0) || (to_int (Z.of_nat (length (entries state))) <=? index)
    then Some (E_BAD_ARCHIVE, [])
    else
      match entries state !! Z.to_nat index with
      | None => None
      | Some (entry, path) =>
        if Operation =? PK_SKIP then Some (Success, [])
        else if negb (Operation =? PK_EXTRACT) then Some (E_NOT_SUPPORTED, [])
        else
          let finalDestPath :=
            match DestName with
            | Some name => name
            | None => fs_join output DestPath path
            end in
          let finish (acts : list Action) :=
            Some (Success,
                  acts ++ [last_write_time finalDestPath (filedatetime entry);
                           SetFileAttributesW finalDestPath (fileattribute entry)]) in
          if type entry =? EntryType_value Directory then
            if create_directories_throws output finalDestPath then Some (E_EWRITE, [])
            else finish [create_directories finalDestPath]
          else
            let parent := parent_path output finalDestPath in
            if create_directories_throws output parent then Some (E_EWRITE, [])
            else
              match ExtractData_file (archivePath state) path with
              | Throw _ => Some (E_EWRITE, [create_directories parent])
              | Indeterminate => None
              | Ok data =>
                if ofstream_opens output finalDestPath
                then finish [create_directories parent; write_file finalDestPath data]
                else Some (E_ECREATE, [create_directories parent])
              end
      end
  end.

(** [CloseArchive]. *)
Definition CloseArchive (hArcData : Z) (g : Globals) : Code * Globals :=
  match g_OpenArchives g !! hArcData with
  | None => (E_BAD_ARCHIVE, g)
  | Some _ =>
    (Success, {| g_OpenArchives := delete hArcData (g_OpenArchives g);
                 g_NextHandle := g_NextHandle g |})
  end.

(** [n] calls of [ReadHeaderExW] in a row: what each returned, and the
    globals at the end. *)
Fixpoint ReadHeaderExW_times (n : nat) (hArcData : Z) (g : Globals)
    : option (list (Code * option HeaderData) * Globals) :=
  match n with
  | O => Some ([], g)
  | S n' =>
    match ReadHeaderExW hArcData g with
    | None => None
    | Some (code, header, g1) =>
      match ReadHeaderExW_times n' hArcData g1 with
      | None => None
      | Some (rest, g2) => Some ((code, header) :: rest, g2)
      end
    end
  end.

End Plugin.

(** The globals the calls keep: every open handle is a positive value no
    greater than [g_NextHandle]. *)
Definition handles_ok (g : Globals) : Prop :=
  0 <= g_NextHandle g /\
  forall h state, g_OpenArchives g !! h = Some state -> 0 < h <= g_NextHandle g.

End Wcx.

(** An output place where nothing fails. *)
Definition sample_output : Wcx.Output :=
  {| Wcx.fs_join := fun dest path => (dest ++ "\" ++ path)%string;
     Wcx.parent_path := fun p => p;
     Wcx.create_directories_throws := fun _ => false;
     Wcx.ofstream_opens := fun _ => true |}.

(** A disk that holds the sample archive at [s.acf] and nothing else. *)
Definition sample_files (path : string) : option (list byte) :=
  if String.eqb path "s.acf" then Some Demo.sample_archive else None.

(** ** The readers with the allocator in view

    [List] and [ExtractData] size three containers by fields of the file:
    the central-directory buffer ([cdSize] bytes), the reservation for
    [entryCount] list items and the reservation for [originalSize] bytes.
    In the definitions above each of them succeeds up to [PTRDIFF_MAX]
    bytes. Here [alloc n] tells whether an allocation of [n] bytes
    succeeds; a refused one throws [std::length_error] or
    [std::bad_alloc]. *)

Section Allocating.

Variable alloc : Z -> bool.
Variable zstd : Zstd.

Definition List_alloc (f : list byte) : Outcome (list (ACFEntryData * string)) :=
  let '(header, s1) := read_header (ifstream_open f) in
  if negb (magic header =? ACF_MAGIC) then Throw UnknownFormat
  else
    let s2 := seekg (centralDirOffset header) s1 in
    let '(s3, ok) := seekg_end s2 in
    let cdSize := if ok then (tellg s3 - centralDirOffset header) mod 2 ^ 64 else 0 in
    let s4 := seekg (centralDirOffset header) s3 in
    if negb (alloc cdSize) then Throw AllocationFailure
    else
      let '(got, _) := read (Z.to_nat cdSize) s4 in
      let centralDirBuffer := Bytes.overlay got (Bytes.zeros (Z.to_nat cdSize)) in
      if negb (Crc.crc32 centralDirBuffer =? centralDirCRC32 header)
      then Throw BadArchive
      else if negb (alloc (entryCount header * sizeof_list_item))
      then Throw AllocationFailure
      else Ok (List_loop (Z.to_nat (entryCount header)) centralDirBuffer).

Definition ExtractData_entry_alloc (targetEntry : ACFEntryData) (s : ifstream)
    : Outcome (list byte) :=
  if negb (type targetEntry =? EntryType_value File) then Throw InvalidOperation
  else
    let s' := seekg (dataOffset targetEntry) s in
    if negb (alloc (originalSize targetEntry)) then Throw AllocationFailure
    else
      let inBuff := Bytes.zeros (Pos.to_nat (ZSTD_DStreamInSize zstd)) in
      match ExtractData_loop zstd (Z.to_nat (compressedSize targetEntry))
              (ZSTD_initDStream zstd) inBuff s' 0 (compressedSize targetEntry) [] with
      | Ok decompressedData =>
        if negb (Crc.crc32 decompressedData =? crc32 targetEntry)
        then Throw CRCMismatch
        else Ok decompressedData
      | other => other
      end.

Definition ExtractData_alloc (f : list byte) (archFileName : string)
    : Outcome (list byte) :=
  let '(header, s1) := read_header (ifstream_open f) in
  if negb (magic header =? ACF_MAGIC) then Throw UnknownFormat
  else
    let s2 := seekg (centralDirOffset header) s1 in
    match ExtractData_scan (Z.to_nat (entryCount header)) s2 archFileName with
    | Unread => Indeterminate
    | Missing => Throw NotFound
    | Found targetEntry s3 => ExtractData_entry_alloc targetEntry s3
    end.

End Allocating.

(** The allocator of the definitions above: everything up to
    [PTRDIFF_MAX] bytes is had. *)
Definition alloc_unlimited (n : Z) : bool := negb (PTRDIFF_MAX <? n).

(** The bytes a record's frame occupies in the file. *)
Definition frame_at (f : list byte) (e : ACFEntryData) : list byte :=
  take (Z.to_nat (compressedSize e)) (drop (Z.to_nat (dataOffset e)) f).

(** ** The input files of a run of [Create] *)

(** The recursive iterator yields, with every directory it yields, what
    the iterator of that directory yields. *)
Definition iterator_closed (host : Host) : Prop :=
  forall d p q,
    p ∈ fs_recursive_directory_iterator host d ->
    fs_is_directory host p = true ->
    q ∈ fs_recursive_directory_iterator host p ->
    q ∈ fs_recursive_directory_iterator host d.

(** A path under the inputs: an input path that exists, or a path that the
    iterator of an existing input directory yields. *)
Definition under_inputs (host : Host) (inputPaths : list fspath) (p : fspath) : Prop :=
  (p ∈ inputPaths /\ fs_exists host p = true) \/
  (exists d, d ∈ inputPaths /\ fs_exists host d = true /\
             fs_is_directory host d = true /\
             p ∈ fs_recursive_directory_iterator host d).

(** An input file: a regular file under the inputs. *)
Definition input_file (host : Host) (inputPaths : list fspath) (p : fspath) : Prop :=
  under_inputs host inputPaths p /\
  fs_is_directory host p = false /\ fs_is_regular_file host p = true.

(** What the enumeration has processed is gathered by its kind. *)
Definition gathered_by_kind (host : Host) (g : Gathered) : Prop :=
  forall p, p ∈ processedPaths g ->
    (fs_is_directory host p = true -> p ∈ dirsToProcess g) /\
    (fs_is_directory host p = false -> fs_is_regular_file host p = true ->
     p ∈ filesToProcess g).

(** What the iterator of a processed directory yields has been processed. *)
Definition processed_closed (host : Host) (g : Gathered) : Prop :=
  forall d, d ∈ processedPaths g -> fs_is_directory host d = true ->
    forall q, q ∈ fs_recursive_directory_iterator host d -> q ∈ processedPaths g.

(** The compressor finishes every frame: [ZSTD_endStream] reports no
    error at the end of any input fed the way [Create] feeds it. *)
Definition compressor_finishes (zstd : Zstd) : Prop :=
  forall bytes, is_Some (frame_of zstd bytes).

(** * Properties *)

(** Closed goals about the concrete samples are settled by evaluation. *)
Ltac by_evaluation :=
  repeat split; vm_compute; first [reflexivity | congruence | lia].

Lemma Ok_inj {A} (a b : A) : Ok a = Ok b -> a = b.
Proof. now inversion 1. Qed.

(** ** Bytes *)

Module BytesFacts.
Import Bytes.

Lemma to_Z_range b : 0 <= to_Z b < 256.
Proof.
  unfold to_Z. pose proof (Byte.to_N_bounded b). lia.
Qed.

Lemma to_of_Z z : to_Z (of_Z z) = z mod 256.
Proof.
  unfold to_Z, of_Z.
  pose proof (Z.mod_pos_bound z 256 ltac:(lia)) as Hr.
  destruct (Byte.of_N (Z.to_N (z mod 256))) as [b|] eqn:E.
  - apply Byte.to_of_N in E. rewrite E. lia.
  - apply Byte.of_N_None_iff in E. lia.
Qed.

Lemma of_to_Z b : of_Z (to_Z b) = b.
Proof.
  unfold of_Z, to_Z. pose proof (Byte.to_N_bounded b).
  rewrite Z.mod_small by lia. rewrite N2Z.id, Byte.of_to_N. reflexivity.
Qed.

Lemma to_Z_inj a b : to_Z a = to_Z b -> a = b.
Proof.
  intros H. rewrite <- (of_to_Z a), <- (of_to_Z b). now rewrite H.
Qed.

Lemma length_le n z : length (le n z) = n.
Proof.
  revert z. induction n as [|n IH]; intros z; simpl; [reflexivity|].
  now rewrite IH.
Qed.

Lemma value_range bs : 0 <= value bs < 2 ^ (8 * Z.of_nat (length bs)).
Proof.
  induction bs as [|b bs IH]; simpl value; simpl length.
  - simpl. lia.
  - pose proof (to_Z_range b).
    replace (8 * Z.of_nat (S (length bs))) with (8 + 8 * Z.of_nat (length bs)) by lia.
    rewrite Z.pow_add_r by lia. change (2 ^ 8) with 256. nia.
Qed.

Lemma value_le n z : value (le n z) = z mod 2 ^ (8 * Z.of_nat n).
Proof.
  revert z. induction n as [|n IH]; intros z.
  - simpl. now rewrite Z.mod_1_r.
  - cbn [le value]. rewrite to_of_Z, IH.
    replace (8 * Z.of_nat (S n)) with (8 + 8 * Z.of_nat n) by lia.
    rewrite Z.pow_add_r by lia. change (2 ^ 8) with 256.
    rewrite Z.rem_mul_r by lia. reflexivity.
Qed.

Lemma le_value bs : le (length bs) (value bs) = bs.
Proof.
  induction bs as [|b bs IH]; [reflexivity|].
  cbn [length le value]. pose proof (to_Z_range b).
  replace (to_Z b + 256 * value bs) with (to_Z b + value bs * 256) by lia.
  f_equal.
  - rewrite <- (of_to_Z b) at 2. unfold of_Z.
    now rewrite Z_mod_plus_full.
  - rewrite Z_div_plus_full by lia.
    rewrite Z.div_small by lia. exact IH.
Qed.

Lemma length_zeros n : length (zeros n) = n.
Proof. apply length_replicate. Qed.

Lemma overlay_full got old :
  (length old <= length got)%nat -> overlay got old = got.
Proof.
  intros H. unfold overlay. rewrite drop_ge by lia. apply app_nil_r.
Qed.

Lemma length_overlay got old :
  (length got <= length old)%nat -> length (overlay got old) = length old.
Proof.
  intros H. unfold overlay. rewrite length_app, length_drop. lia.
Qed.

End BytesFacts.

(** ** CRC-32 *)

Module CrcFacts.
Import Crc.

Lemma crc32_tab_generated : crc32_tab = crc32_generate_table.
Proof. vm_compute. reflexivity. Qed.

Lemma not32_involutive x : not32 (not32 x) = x.
Proof.
  unfold not32. rewrite Z.lxor_assoc, Z.lxor_nilpotent. apply Z.lxor_0_r.
Qed.

Lemma crc32_update_app crc a b :
  crc32_update crc (a ++ b) = crc32_update (crc32_update crc a) b.
Proof.
  unfold crc32_update. rewrite fold_left_app, not32_involutive. reflexivity.
Qed.

Example crc32_hello :
  crc32 (list_byte_of_string "hello") = 0x3610A686.
Proof. vm_compute. reflexivity. Qed.

Example crc32_bytes_0_3 : crc32 [x00; x01; x02; x03] = 0x8BB98613.
Proof. vm_compute. reflexivity. Qed.

Example crc32_empty : crc32 [] = 0.
Proof. reflexivity. Qed.

Lemma u32_shiftr_iff x : u32 x <-> 0 <= x /\ Z.shiftr x 32 = 0.
Proof.
  unfold u32. rewrite Z.shiftr_div_pow2 by lia. split.
  - intros H. split; [lia|]. apply Z.div_small. lia.
  - intros [H0 H]. split; [lia|].
    apply Z.div_small_iff in H; lia.
Qed.

Lemma u32_lxor a b : u32 a -> u32 b -> u32 (Z.lxor a b).
Proof.
  rewrite !u32_shiftr_iff. intros [Ha Ha'] [Hb Hb']. split.
  - apply Z.lxor_nonneg. lia.
  - rewrite Z.shiftr_lxor, Ha', Hb'. reflexivity.
Qed.

Lemma u32_shiftr x n : 0 <= n -> u32 x -> u32 (Z.shiftr x n).
Proof.
  unfold u32. intros Hn Hx. rewrite Z.shiftr_div_pow2 by lia.
  assert (0 < 2 ^ n) by (apply Z.pow_pos_nonneg; lia).
  split.
  - apply Z.div_pos; lia.
  - apply Z.le_lt_trans with x; [|lia].
    apply Z.div_le_upper_bound; nia.
Qed.

Lemma u32_not32 x : u32 x -> u32 (not32 x).
Proof.
  intros H. unfold not32. apply u32_lxor; [exact H|]. unfold u32. lia.
Qed.

Lemma forallb_seq_lookup (f : nat -> bool) n k :
  forallb f (seq 0 n) = true -> (k < n)%nat -> f k = true.
Proof.
  intros H Hk. rewrite forallb_forall in H. apply H. apply in_seq. lia.
Qed.

Lemma index_of_range i : 0 <= index_of i < 256.
Proof.
  unfold index_of. change 0xFF with (Z.ones 8).
  rewrite Z.land_ones by lia. apply Z.mod_pos_bound. lia.
Qed.

Lemma tab_u32 i : u32 (tab i).
Proof.
  unfold tab.
  assert (Hall : forallb (fun x => (0 <=? x) && (x <? 2 ^ 32)) crc32_tab = true)
    by (vm_compute; reflexivity).
  rewrite forallb_forall in Hall.
  destruct (Nat.lt_ge_cases (Z.to_nat i) (length crc32_tab)) as [Hlt|Hge].
  - specialize (Hall _ (nth_In crc32_tab 0 Hlt)).
    apply andb_true_iff in Hall as [H1 H2]. unfold u32. lia.
  - rewrite nth_overflow by exact Hge. unfold u32. lia.
Qed.

Lemma step_u32 c b : u32 c -> u32 (step c b).
Proof.
  intros Hc. unfold step. apply u32_lxor; [apply tab_u32|].
  apply u32_shiftr; [lia|exact Hc].
Qed.

Lemma fold_step_u32 l c : u32 c -> u32 (fold_left step l c).
Proof.
  revert c. induction l as [|b l IH]; intros c Hc; simpl; [exact Hc|].
  apply IH, step_u32, Hc.
Qed.

Lemma crc32_update_u32 c l : u32 c -> u32 (crc32_update c l).
Proof.
  intros Hc. unfold crc32_update. apply u32_not32, fold_step_u32, u32_not32, Hc.
Qed.

Lemma crc32_u32 l : u32 (crc32 l).
Proof. apply crc32_update_u32. unfold u32. lia. Qed.

(** *** Every single-byte change is detected

    The top byte of [crc32_tab[i]] determines [i]; hence one step of the
    loop is injective in the running value and in the byte consumed. *)

Lemma forallb_square (f : Z -> Z -> bool) (n : nat) :
  forallb (fun i => forallb (fun j => f (Z.of_nat i) (Z.of_nat j)) (seq 0 n))
          (seq 0 n) = true ->
  forall i j, 0 <= i < Z.of_nat n -> 0 <= j < Z.of_nat n -> f i j = true.
Proof.
  intros H i j Hi Hj.
  pose proof (forallb_seq_lookup _ n (Z.to_nat i) H ltac:(lia)) as Hrow.
  pose proof (forallb_seq_lookup _ n (Z.to_nat j) Hrow ltac:(lia)) as Hcell.
  cbv beta in Hcell. now rewrite !Z2Nat.id in Hcell by lia.
Qed.

Lemma top_bytes_distinct :
  forallb (fun i => forallb (fun j => top_bytes_differ (Z.of_nat i) (Z.of_nat j))
                            (seq 0 256)) (seq 0 256) = true.
Proof. vm_compute. reflexivity. Qed.

Lemma tab_top_byte_inj i j :
  0 <= i < 256 -> 0 <= j < 256 ->
  top_byte (tab i) = top_byte (tab j) -> i = j.
Proof.
  intros Hi Hj Heq.
  pose proof (forallb_square top_bytes_differ 256 top_bytes_distinct i j
                ltac:(lia) ltac:(lia)) as H.
  unfold top_bytes_differ in H.
  rewrite Heq, Z.eqb_refl in H.
  destruct (i =? j) eqn:E.
  - now apply Z.eqb_eq in E.
  - discriminate H.
Qed.

Lemma land_lxor_distr_l a b c :
  Z.land (Z.lxor a b) c = Z.lxor (Z.land a c) (Z.land b c).
Proof.
  apply Z.bits_inj'. intros n Hn.
  rewrite Z.lxor_spec, !Z.land_spec, Z.lxor_spec.
  destruct (Z.testbit a n), (Z.testbit b n), (Z.testbit c n); reflexivity.
Qed.

Lemma top_byte_step c b :
  u32 c -> top_byte (step c b) = top_byte (tab (index_of (Z.lxor c (Bytes.to_Z b)))).
Proof.
  intros Hc. unfold top_byte, step, index_of.
  rewrite Z.shiftr_lxor, Z.shiftr_shiftr by lia.
  apply u32_shiftr_iff in Hc as [_ Hc]. change (8 + 24) with 32.
  rewrite Hc. apply Z.lxor_0_r.
Qed.

Lemma lxor_cancel_l a b c : Z.lxor a b = Z.lxor a c -> b = c.
Proof.
  intros H. apply (f_equal (Z.lxor a)) in H.
  now rewrite <- !Z.lxor_assoc, Z.lxor_nilpotent, !Z.lxor_0_l in H.
Qed.

Lemma lxor_cancel_r a b c : Z.lxor b a = Z.lxor c a -> b = c.
Proof.
  rewrite (Z.lxor_comm b), (Z.lxor_comm c). apply lxor_cancel_l.
Qed.

Lemma step_same_index c c' b b' :
  u32 c -> u32 c' -> step c b = step c' b' ->
  index_of (Z.lxor c (Bytes.to_Z b)) = index_of (Z.lxor c' (Bytes.to_Z b')).
Proof.
  intros Hc Hc' H. apply (f_equal top_byte) in H.
  rewrite !top_byte_step in H by assumption.
  apply tab_top_byte_inj in H; [exact H| apply index_of_range ..].
Qed.

Lemma step_inj_state c c' b :
  u32 c -> u32 c' -> step c b = step c' b -> c = c'.
Proof.
  intros Hc Hc' H.
  pose proof (step_same_index _ _ _ _ Hc Hc' H) as Hi.
  unfold step in H. fold (index_of (Z.lxor c (Bytes.to_Z b))) in H.
  fold (index_of (Z.lxor c' (Bytes.to_Z b))) in H.
  rewrite Hi in H. apply lxor_cancel_l in H.
  unfold index_of in Hi. rewrite !land_lxor_distr_l in Hi.
  apply lxor_cancel_r in Hi.
  change 0xFF with (Z.ones 8) in Hi. rewrite !Z.land_ones in Hi by lia.
  rewrite !Z.shiftr_div_pow2 in H by lia.
  rewrite (Z.div_mod c (2 ^ 8)), (Z.div_mod c' (2 ^ 8)) by lia.
  now rewrite H, Hi.
Qed.

Lemma step_inj_byte c b b' : u32 c -> step c b = step c b' -> b = b'.
Proof.
  intros Hc H.
  pose proof (step_same_index _ _ _ _ Hc Hc H) as Hi.
  unfold index_of in Hi. rewrite !land_lxor_distr_l in Hi.
  apply lxor_cancel_l in Hi.
  change 0xFF with (Z.ones 8) in Hi. rewrite !Z.land_ones in Hi by lia.
  pose proof (BytesFacts.to_Z_range b). pose proof (BytesFacts.to_Z_range b').
  rewrite !Z.mod_small in Hi by (change (2 ^ 8) with 256; lia).
  now apply BytesFacts.to_Z_inj.
Qed.

Lemma fold_step_inj l c c' :
  u32 c -> u32 c' -> fold_left step l c = fold_left step l c' -> c = c'.
Proof.
  revert c c'. induction l as [|b l IH]; intros c c' Hc Hc' H; simpl in H.
  - exact H.
  - apply IH in H; [|apply step_u32; assumption ..].
    eapply step_inj_state; eassumption.
Qed.

Lemma not32_inj x y : not32 x = not32 y -> x = y.
Proof.
  intros H. rewrite <- (not32_involutive x), <- (not32_involutive y).
  now rewrite H.
Qed.

(** Replacing one byte of the input by a different byte changes the
    checksum. *)
Lemma crc32_update_detects_byte crc pre b b' suf :
  u32 crc -> b <> b' ->
  crc32_update crc (pre ++ b :: suf) <> crc32_update crc (pre ++ b' :: suf).
Proof.
  intros Hc Hne H. unfold crc32_update in H. apply not32_inj in H.
  rewrite !fold_left_app in H. simpl in H.
  pose proof (fold_step_u32 pre _ (u32_not32 _ Hc)) as Hs.
  apply fold_step_inj in H; [|apply step_u32; exact Hs ..].
  apply step_inj_byte in H; [|exact Hs]. contradiction.
Qed.

Lemma crc32_detects_byte pre b b' suf :
  b <> b' -> crc32 (pre ++ b :: suf) <> crc32 (pre ++ b' :: suf).
Proof.
  apply crc32_update_detects_byte. unfold u32. lia.
Qed.

(** C5. CRC32 incremental law: for all byte strings [a] and [b],
    [crc32 (a ++ b) = crc32_update (crc32 a) b], where [crc32 x] is
    [crc32_update 0 x]. *)
Theorem crc32_incremental (a b : list byte) :
  crc32 (a ++ b) = crc32_update (crc32 a) b.
Proof.
  unfold crc32. apply crc32_update_app.
Qed.

End CrcFacts.

(** ** The packed structs *)

Section Format.

Import Bytes BytesFacts.

Lemma length_ACFHeader_bytes h : length (ACFHeader_bytes h) = sizeof_ACFHeader.
Proof.
  unfold ACFHeader_bytes. rewrite !length_app, !length_le. reflexivity.
Qed.

Lemma length_ACFEntryData_bytes e : length (ACFEntryData_bytes e) = sizeof_ACFEntryData.
Proof.
  unfold ACFEntryData_bytes. rewrite !length_app, !length_le. reflexivity.
Qed.

Lemma field_here n z rest : field 0 n (le n z ++ rest) = z mod 2 ^ (8 * Z.of_nat n).
Proof.
  unfold field. rewrite drop_0, take_app_length' by (now rewrite length_le).
  apply value_le.
Qed.

Lemma field_skip n z off len rest :
  field (n + off) len (le n z ++ rest) = field off len rest.
Proof.
  unfold field. rewrite drop_app_add' by (now rewrite length_le). reflexivity.
Qed.

Lemma field_last n z : field 0 n (le n z) = z mod 2 ^ (8 * Z.of_nat n).
Proof.
  rewrite <- (app_nil_r (le n z)). apply field_here.
Qed.

Lemma field_range off len bs : 0 <= field off len bs < 2 ^ (8 * Z.of_nat len).
Proof.
  unfold field.
  pose proof (value_range (take len (drop off bs))) as H.
  assert (Hle : (length (take len (drop off bs)) <= len)%nat)
    by (rewrite length_take; lia).
  split; [lia|].
  eapply Z.lt_le_trans; [apply H|].
  apply Z.pow_le_mono_r; lia.
Qed.

Ltac field_steps :=
  repeat first
    [ rewrite field_here | rewrite field_last
    | rewrite (field_skip 1) | rewrite (field_skip 2)
    | rewrite (field_skip 4) | rewrite (field_skip 8) ].

Lemma ACFEntryData_of_bytes_bytes e :
  entry_wf e -> ACFEntryData_of_bytes (ACFEntryData_bytes e) = e.
Proof.
  intros (Ht & Ho & Hc & Hd & Hcrc & Hdt & Ha & Hp).
  unfold ACFEntryData_of_bytes, ACFEntryData_bytes.
  change (field 9) with (field (1 + (8 + 0))).
  change (field 17) with (field (1 + (8 + (8 + 0)))).
  change (field 25) with (field (1 + (8 + (8 + (8 + 0))))).
  change (field 29) with (field (1 + (8 + (8 + (8 + (4 + 0)))))).
  change (field 33) with (field (1 + (8 + (8 + (8 + (4 + (4 + 0))))))).
  change (field 34) with (field (1 + (8 + (8 + (8 + (4 + (4 + (1 + 0)))))))).
  change (field 1) with (field (1 + 0)).
  field_steps.
  change (8 * Z.of_nat 1) with 8. change (8 * Z.of_nat 2) with 16.
  change (8 * Z.of_nat 4) with 32. change (8 * Z.of_nat 8) with 64.
  rewrite !Z.mod_small by assumption. now destruct e.
Qed.

Lemma ACFHeader_of_bytes_bytes h :
  0 <= magic h < 2 ^ 32 -> 0 <= version h < 2 ^ 32 ->
  0 <= centralDirOffset h < 2 ^ 64 -> 0 <= entryCount h < 2 ^ 64 ->
  0 <= centralDirCRC32 h < 2 ^ 32 -> 0 <= reserved h < 2 ^ 32 ->
  ACFHeader_of_bytes (ACFHeader_bytes h) = h.
Proof.
  intros Hm Hv Ho He Hc Hr.
  unfold ACFHeader_of_bytes, ACFHeader_bytes.
  change (field 8) with (field (4 + (4 + 0))).
  change (field 16) with (field (4 + (4 + (8 + 0)))).
  change (field 24) with (field (4 + (4 + (8 + (8 + 0))))).
  change (field 28) with (field (4 + (4 + (8 + (8 + (4 + 0)))))).
  change (field 4 4) with (field (4 + 0) 4).
  field_steps.
  change (8 * Z.of_nat 4) with 32. change (8 * Z.of_nat 8) with 64.
  rewrite !Z.mod_small by assumption. now destruct h.
Qed.

Lemma ACFEntryData_of_bytes_wf bs : entry_wf (ACFEntryData_of_bytes bs).
Proof.
  unfold entry_wf, ACFEntryData_of_bytes; simpl.
  repeat split; try apply field_range;
    match goal with |- field ?o ?l ?b < _ => apply (field_range o l b) end.
Qed.



Lemma length_list_byte_of_string s :
  length (list_byte_of_string s) = String.length s.
Proof.
  unfold list_byte_of_string. rewrite length_map.
  induction s as [|c s IH]; simpl; [reflexivity|now rewrite IH].
Qed.

Lemma length_string_of_list_byte bs :
  String.length (string_of_list_byte bs) = length bs.
Proof.
  rewrite <- length_list_byte_of_string, list_byte_of_string_of_list_byte.
  reflexivity.
Qed.

Lemma length_record_bytes r :
  length (record_bytes r) = (sizeof_ACFEntryData + String.length r.2)%nat.
Proof.
  unfold record_bytes.
  now rewrite length_app, length_ACFEntryData_bytes, length_list_byte_of_string.
Qed.

End Format.

(** ** Streams *)

Section Streams.

Lemma read_fst n s : (read n s).1 = take n (remaining s).
Proof.
  unfold read, remaining. destruct (failed s); simpl.
  - now rewrite take_nil.
  - destruct (Nat.leb_spec n (length (drop (gpos s) (contents s)))); simpl.
    + reflexivity.
    + symmetry. apply take_ge. lia.
Qed.

Lemma read_remaining n s : remaining (read n s).2 = drop n (remaining s).
Proof.
  unfold read, remaining. destruct (failed s) eqn:E; simpl.
  - rewrite E. now rewrite drop_nil.
  - destruct (Nat.leb_spec n (length (drop (gpos s) (contents s)))); simpl.
    + now rewrite drop_drop.
    + symmetry. apply drop_ge. lia.
Qed.

Lemma read_contents n s : contents (read n s).2 = contents s.
Proof.
  unfold read. destruct (failed s); simpl; [reflexivity|].
  now destruct (n <=? _)%nat.
Qed.

Lemma read_failed n s :
  failed (read n s).2 = failed s || (length (remaining s) <? n)%nat.
Proof.
  unfold read, remaining. destruct (failed s) eqn:E; simpl; [exact E|].
  destruct (Nat.leb_spec n (length (drop (gpos s) (contents s)))); simpl.
  - symmetry. apply Nat.ltb_ge. lia.
  - symmetry. apply Nat.ltb_lt. lia.
Qed.

Lemma read_eq n s : read n s = (take n (remaining s), (read n s).2).
Proof.
  rewrite <- read_fst. now destruct (read n s).
Qed.

Lemma remaining_open f : remaining (ifstream_open f) = f.
Proof. reflexivity. Qed.

Lemma seekg_contents pos s : contents (seekg pos s) = contents s.
Proof.
  unfold seekg. destruct (failed s); [reflexivity|].
  now destruct (2 ^ 63 <=? pos).
Qed.

Lemma seekg_ok pos s :
  failed s = false -> 0 <= pos < 2 ^ 63 ->
  seekg pos s = {| contents := contents s; gpos := Z.to_nat pos; failed := false |}.
Proof.
  intros Hf Hp. unfold seekg. rewrite Hf.
  destruct (Z.leb_spec (2 ^ 63) pos); [lia|reflexivity].
Qed.

Lemma remaining_seekg pos s :
  failed s = false -> 0 <= pos < 2 ^ 63 ->
  remaining (seekg pos s) = drop (Z.to_nat pos) (contents s).
Proof.
  intros Hf Hp. now rewrite seekg_ok.
Qed.

(** The header read from a file that holds at least 32 bytes. *)
Lemma read_header_open f :
  (sizeof_ACFHeader <= length f)%nat ->
  read_header (ifstream_open f) =
    (ACFHeader_of_bytes (take sizeof_ACFHeader f),
     {| contents := f; gpos := sizeof_ACFHeader; failed := false |}).
Proof.
  intros Hlen. unfold read_header, read, ifstream_open. simpl failed. cbv iota.
  simpl gpos. simpl contents. rewrite drop_0.
  destruct (Nat.leb_spec sizeof_ACFHeader (length f)) as [_|]; [|lia].
  rewrite BytesFacts.overlay_full; [reflexivity|].
  rewrite length_ACFHeader_bytes, length_take. lia.
Qed.

Lemma header_of_eq f :
  (sizeof_ACFHeader <= length f)%nat ->
  header_of f = ACFHeader_of_bytes (take sizeof_ACFHeader f).
Proof.
  intros H. unfold header_of. now rewrite read_header_open.
Qed.

Lemma header_of_app h rest :
  header_of (ACFHeader_bytes h ++ rest) = ACFHeader_of_bytes (ACFHeader_bytes h).
Proof.
  rewrite header_of_eq by (rewrite length_app, length_ACFHeader_bytes; lia).
  now rewrite take_app_length' by (now rewrite length_ACFHeader_bytes).
Qed.

Lemma centralDirOffset_nonneg f : 0 <= centralDirOffset (header_of f).
Proof.
  unfold header_of, read_header. destruct (read _ _). simpl. apply field_range.
Qed.

Lemma entryCount_nonneg f : 0 <= entryCount (header_of f).
Proof.
  unfold header_of, read_header. destruct (read _ _). simpl. apply field_range.
Qed.

End Streams.

(** ** Listing *)

Section Listing.

(** [List] on a file that holds a whole header and whose central directory
    starts inside the file. *)
Lemma List_inside f :
  (sizeof_ACFHeader <= length f)%nat ->
  Z.of_nat (length f) < 2 ^ 63 ->
  centralDirOffset (header_of f) <= Z.of_nat (length f) ->
  List f =
    if negb (magic (header_of f) =? ACF_MAGIC) then Throw UnknownFormat
    else if negb (Crc.crc32 (central_directory_of f) =? centralDirCRC32 (header_of f))
    then Throw BadArchive
    else if PTRDIFF_MAX <? entryCount (header_of f) * sizeof_list_item
    then Throw AllocationFailure
    else Ok (List_loop (Z.to_nat (entryCount (header_of f))) (central_directory_of f)).
Proof.
  intros Hlen Hsize Hoff.
  pose proof (centralDirOffset_nonneg f) as Hoff0.
  unfold List, central_directory_of. unfold header_of in *.
  rewrite read_header_open in * by exact Hlen. simpl fst in *.
  set (h := ACFHeader_of_bytes (take sizeof_ACFHeader f)) in *.
  destruct (negb (magic h =? ACF_MAGIC)); [reflexivity|].
  rewrite seekg_ok by (reflexivity || lia).
  unfold seekg_end. simpl failed. cbv iota. simpl contents.
  unfold tellg. simpl failed. cbv iota. simpl gpos.
  rewrite Z.mod_small by lia.
  rewrite seekg_ok by (reflexivity || lia). simpl contents.
  clearbody h.
  destruct (Z.ltb_spec PTRDIFF_MAX (Z.of_nat (length f) - centralDirOffset h)) as [Hbig|_];
    [unfold PTRDIFF_MAX in Hbig; lia|].
  rewrite read_eq. unfold remaining. simpl failed. cbv iota. simpl gpos. simpl contents.
  rewrite take_ge by (rewrite length_drop; lia).
  rewrite BytesFacts.overlay_full
    by (rewrite BytesFacts.length_zeros, length_drop; lia).
  reflexivity.
Qed.

Lemma List_loop_S n buf :
  List_loop (S n) buf =
    if (length buf <? sizeof_ACFEntryData)%nat then []
    else
      let e := ACFEntryData_of_bytes (take sizeof_ACFEntryData buf) in
      let rest := drop sizeof_ACFEntryData buf in
      let len := Z.to_nat (pathLength e) in
      if (length rest <? len)%nat then []
      else (e, string_of_list_byte (take len rest)) :: List_loop n (drop len rest).
Proof. reflexivity. Qed.

Lemma parse_records_S n buf :
  parse_records (S n) buf =
    if (length buf <? sizeof_ACFEntryData)%nat then None
    else
      let e := ACFEntryData_of_bytes (take sizeof_ACFEntryData buf) in
      let rest := drop sizeof_ACFEntryData buf in
      let len := Z.to_nat (pathLength e) in
      if (length rest <? len)%nat then None
      else cons (e, string_of_list_byte (take len rest)) <$> parse_records n (drop len rest).
Proof. reflexivity. Qed.

(** One step of either walk: the buffer holds a whole record or not. *)
Ltac walk_step buf e Hdesc Hpath :=
  destruct (Nat.ltb_spec (length buf) sizeof_ACFEntryData) as [Hdesc|Hdesc];
  [|set (e := ACFEntryData_of_bytes (take sizeof_ACFEntryData buf)) in *;
    destruct (Nat.ltb_spec (length (drop sizeof_ACFEntryData buf))
                (Z.to_nat (pathLength e))) as [Hpath|Hpath]].

Lemma List_loop_parse n buf l :
  parse_records n buf = Some l -> List_loop n buf = l.
Proof.
  revert buf l. induction n as [|n IH]; intros buf l H.
  - now inversion H.
  - rewrite parse_records_S in H. rewrite List_loop_S. cbv zeta in *.
    walk_step buf e Hd Hp; try discriminate.
    destruct (parse_records n _) as [l'|] eqn:E; [|discriminate].
    inversion H; subst. f_equal. now apply IH.
Qed.

Lemma parse_records_length n buf l :
  parse_records n buf = Some l -> length l = n.
Proof.
  revert buf l. induction n as [|n IH]; intros buf l H.
  - now inversion H.
  - rewrite parse_records_S in H. cbv zeta in *.
    walk_step buf e Hd Hp; try discriminate.
    destruct (parse_records n _) as [l'|] eqn:E; [|discriminate].
    inversion H; subst. simpl. f_equal. eapply IH, E.
Qed.



Lemma List_loop_records_wf n buf :
  Forall record_wf (List_loop n buf).
Proof.
  revert buf. induction n as [|n IH]; intros buf.
  - constructor.
  - rewrite List_loop_S. cbv zeta.
    walk_step buf e Hd Hp; try constructor; [|apply IH].
    pose proof (ACFEntryData_of_bytes_wf (take sizeof_ACFEntryData buf)) as Hwf.
    fold e in Hwf. split; [exact Hwf|]. cbn [fst snd].
    rewrite length_string_of_list_byte, length_take.
    destruct Hwf as (_ & _ & _ & _ & _ & _ & _ & Hp'). lia.
Qed.

End Listing.

(** ** C3: a central directory too short for the declared entries *)

Section Overrun.

Import Demo.


End Overrun.

(** ** C4: one byte of the central directory changed *)

Section Corruption.

Import Demo.

Lemma flipped_length k f f' : flipped_at k f f' -> length f' = length f.
Proof.
  intros (b & b' & _ & _ & ->). apply length_insert.
Qed.

Lemma flipped_header k f f' :
  flipped_at k f f' -> (sizeof_ACFHeader <= k)%nat -> header_of f' = header_of f.
Proof.
  intros Hflip Hk. pose proof (flipped_length _ _ _ Hflip) as Hlen.
  destruct Hflip as (b & b' & Hb & _ & ->).
  apply lookup_lt_Some in Hb.
  rewrite !header_of_eq by lia.
  now rewrite take_insert_ge by lia.
Qed.

(** A changed byte inside a byte string changes its checksum. *)
Lemma crc32_insert l i b b' :
  l !! i = Some b -> b' <> b -> Crc.crc32 (<[i := b']> l) <> Crc.crc32 l.
Proof.
  intros Hb Hne.
  rewrite insert_take_drop by (eapply lookup_lt_Some, Hb).
  rewrite <- (take_drop_middle l i b Hb) at 3.
  now apply CrcFacts.crc32_detects_byte.
Qed.

Lemma flipped_central_directory k f f' :
  flipped_at k f f' ->
  Z.of_nat sizeof_ACFHeader <= centralDirOffset (header_of f) <= Z.of_nat k ->
  Crc.crc32 (central_directory_of f') <> Crc.crc32 (central_directory_of f).
Proof.
  intros Hflip Hk.
  unfold central_directory_of.
  rewrite (flipped_header _ _ _ Hflip) by lia.
  destruct Hflip as (b & b' & Hb & Hne & ->).
  rewrite drop_insert_ge by lia.
  apply crc32_insert with b; [|exact Hne].
  rewrite lookup_drop. rewrite <- Hb. f_equal. lia.
Qed.

(** C4, as stated, fails: in the sample archive the byte at offset 70 lies
    in the central directory (it belongs to the [filedatetime] of the first
    record); with that byte changed, [ExtractData] still returns the bytes
    of [root\a.txt], while [List] does fail with [BadArchive]. *)
Lemma ExtractData_corrupt_counterexample :
  valid_archive sample_archive /\
  centralDirOffset (header_of sample_archive) <= 70 /\
  flipped_at 70 sample_archive (<[70%nat := xff]> sample_archive) /\
  List (<[70%nat := xff]> sample_archive) = Throw BadArchive /\
  ExtractData stored (<[70%nat := xff]> sample_archive) "root\a.txt"
    = Ok (list_byte_of_string "hello") /\
  ExtractData stored (<[70%nat := xff]> sample_archive) "root\a.txt"
    <> Throw BadArchive.
Proof.
  split; [|split; [|split; [|split; [|split]]]].
  - unfold valid_archive. by_evaluation.
  - vm_compute. congruence.
  - exists x00, xff. split; [|split].
    + vm_compute. reflexivity.
    + discriminate.
    + reflexivity.
  - vm_compute. reflexivity.
  - vm_compute. reflexivity.
  - vm_compute. discriminate.
Qed.

(** C4, amended: for every valid archive with one byte changed anywhere
    inside its central directory, [List] fails with [BadArchive], and so
    does [ExtractAll], which runs [List] first, before it issues any action;
    the central-directory CRC is validated by [List], not by [ExtractData]. *)
Theorem corrupt_central_directory_BadArchive (zstd : Zstd) (f f' : list byte) (k : nat) :
  valid_archive f ->
  flipped_at k f f' ->
  centralDirOffset (header_of f) <= Z.of_nat k ->
  List f' = Throw BadArchive /\ ExtractAll zstd f' = ([], Throw BadArchive).
Proof.
  intros (Hsize & Hmagic & [Hlo Hhi] & Hcrc) Hflip Hk.
  pose proof (flipped_length _ _ _ Hflip) as Hlen.
  pose proof (flipped_header _ _ _ Hflip ltac:(lia)) as Hhdr.
  pose proof (flipped_central_directory _ _ _ Hflip ltac:(lia)) as Hne.
  assert (HL : List f' = Throw BadArchive).
  { rewrite List_inside by (rewrite ?Hhdr, Hlen; unfold sizeof_ACFHeader in *; lia).
    rewrite Hhdr, Hmagic, Z.eqb_refl. cbn [negb].
    destruct (Z.eqb_spec (Crc.crc32 (central_directory_of f'))
                (centralDirCRC32 (header_of f))) as [E|_]; [|reflexivity].
    rewrite <- Hcrc in E. contradiction. }
  split; [exact HL|]. unfold ExtractAll. now rewrite HL.
Qed.

Lemma corrupt_central_directory_BadArchive_witness :
  List (<[70%nat := xff]> sample_archive) = Throw BadArchive /\
  ExtractAll stored (<[70%nat := xff]> sample_archive) = ([], Throw BadArchive).
Proof.
  apply (corrupt_central_directory_BadArchive stored sample_archive _ 70).
  - unfold valid_archive. by_evaluation.
  - exists x00, xff. split; [|split].
    + vm_compute. reflexivity.
    + discriminate.
    + reflexivity.
  - vm_compute. congruence.
Defined.

End Corruption.

(** ** Looking up one entry *)

Section Lookup.

Variable zstd : Zstd.

Lemma ExtractData_scan_S n s name :
  ExtractData_scan (S n) s name =
    let got := (read sizeof_ACFEntryData s).1 in
    let s1 := (read sizeof_ACFEntryData s).2 in
    if (length got <? sizeof_ACFEntryData)%nat then Unread
    else
      let len := Z.to_nat (pathLength (ACFEntryData_of_bytes got)) in
      let pgot := (read len s1).1 in
      let s2 := (read len s1).2 in
      if String.eqb (string_of_list_byte (Bytes.overlay pgot (Bytes.zeros len))) name
      then Found (ACFEntryData_of_bytes got) s2
      else ExtractData_scan n s2 name.
Proof.
  cbn [ExtractData_scan]. destruct (read sizeof_ACFEntryData s) as [got s1].
  cbn [fst snd]. destruct (length got <? sizeof_ACFEntryData)%nat; [reflexivity|].
  now destruct (read _ s1).
Qed.

Lemma ExtractData_loop_S fuel ds inBuff s totalRead csize out :
  ExtractData_loop zstd (S fuel) ds inBuff s totalRead csize out =
    if totalRead <? csize then
      let toRead := Z.to_nat (Z.min (Z.of_nat (length inBuff)) (csize - totalRead)) in
      let inBuff' := Bytes.overlay (read toRead s).1 inBuff in
      match ZSTD_decompressStream zstd ds (take toRead inBuff') with
      | None => Throw CompressorError
      | Some (ds', o) =>
        ExtractData_loop zstd fuel ds' inBuff' (read toRead s).2
                         (totalRead + Z.of_nat toRead) csize (out ++ o)
      end
    else Ok out.
Proof.
  cbn [ExtractData_loop]. destruct (totalRead <? csize); [|reflexivity].
  now destruct (read _ s).
Qed.

Lemma ExtractData_loop_O ds inBuff s totalRead csize out :
  ExtractData_loop zstd 0 ds inBuff s totalRead csize out =
    if totalRead <? csize then Indeterminate else Ok out.
Proof. reflexivity. Qed.

(** The loop sees the stream only through what it can still deliver. *)
Lemma ExtractData_loop_remaining fuel ds inBuff s t totalRead csize out :
  remaining s = remaining t ->
  ExtractData_loop zstd fuel ds inBuff s totalRead csize out =
  ExtractData_loop zstd fuel ds inBuff t totalRead csize out.
Proof.
  revert ds inBuff s t totalRead out.
  induction fuel as [|fuel IH]; intros ds inBuff s t totalRead out Hrem.
  - reflexivity.
  - rewrite !ExtractData_loop_S. destruct (totalRead <? csize); [|reflexivity].
    cbv zeta. rewrite !read_fst, Hrem.
    destruct (ZSTD_decompressStream zstd ds _) as [[ds' o]|]; [|reflexivity].
    apply IH. now rewrite !read_remaining, Hrem.
Qed.

Lemma ExtractData_loop_not_NotFound fuel ds inBuff s totalRead csize out :
  ExtractData_loop zstd fuel ds inBuff s totalRead csize out <> Throw NotFound.
Proof.
  revert ds inBuff s totalRead out.
  induction fuel as [|fuel IH]; intros ds inBuff s totalRead out.
  - rewrite ExtractData_loop_O. destruct (totalRead <? csize); discriminate.
  - rewrite ExtractData_loop_S. destruct (totalRead <? csize); [|discriminate].
    cbv zeta. destruct (ZSTD_decompressStream zstd ds _) as [[ds' o]|];
      [apply IH|discriminate].
Qed.

Lemma remaining_seekg_any pos s :
  failed s = false ->
  remaining (seekg pos s) =
    if 2 ^ 63 <=? pos then [] else drop (Z.to_nat pos) (contents s).
Proof.
  intros Hf. unfold seekg. rewrite Hf. now destruct (2 ^ 63 <=? pos).
Qed.

Lemma ExtractData_entry_stream e s t :
  contents s = contents t -> failed s = false -> failed t = false ->
  ExtractData_entry zstd e s = ExtractData_entry zstd e t.
Proof.
  intros Hc Hs Ht. unfold ExtractData_entry.
  destruct (negb (type e =? EntryType_value File)); [reflexivity|].
  destruct (PTRDIFF_MAX <? originalSize e); [reflexivity|].
  rewrite (ExtractData_loop_remaining _ _ _ (seekg (dataOffset e) s) (seekg (dataOffset e) t));
    [reflexivity|].
  now rewrite !remaining_seekg_any, Hc.
Qed.

Lemma ExtractData_entry_not_NotFound e s :
  ExtractData_entry zstd e s <> Throw NotFound.
Proof.
  unfold ExtractData_entry.
  destruct (negb (type e =? EntryType_value File)); [discriminate|].
  destruct (PTRDIFF_MAX <? originalSize e); [discriminate|].
  pose proof (ExtractData_loop_not_NotFound (Z.to_nat (compressedSize e))
    (ZSTD_initDStream zstd) (Bytes.zeros (Pos.to_nat (ZSTD_DStreamInSize zstd)))
    (seekg (dataOffset e) s) 0 (compressedSize e) []) as H.
  destruct (ExtractData_loop _ _ _ _ _ _ _ _) as [d|err|]; try discriminate.
  - destruct (negb (Crc.crc32 d =? crc32 e)); discriminate.
  - exact H.
Qed.

(** The search loop over a stream that holds [n] complete records finds
    the first one stored under the name, and leaves the stream usable. *)
Lemma ExtractData_scan_spec n s name cd :
  failed s = false ->
  parse_records n (remaining s) = Some cd ->
  match first_match name cd with
  | Some e => exists s', ExtractData_scan n s name = Found e s' /\
                         contents s' = contents s /\ failed s' = false
  | None => ExtractData_scan n s name = Missing
  end.
Proof.
  revert s cd. induction n as [|n IH]; intros s cd Hf Hparse.
  - inversion Hparse; subst. reflexivity.
  - rewrite parse_records_S in Hparse. cbv zeta in Hparse.
    destruct (Nat.ltb_spec (length (remaining s)) sizeof_ACFEntryData) as [|Hd];
      [discriminate|].
    set (e := ACFEntryData_of_bytes (take sizeof_ACFEntryData (remaining s))) in *.
    destruct (Nat.ltb_spec (length (drop sizeof_ACFEntryData (remaining s)))
                (Z.to_nat (pathLength e))) as [|Hp]; [discriminate|].
    destruct (parse_records n _) as [cd'|] eqn:Hrest; [|discriminate].
    inversion Hparse; subst cd; clear Hparse.
    rewrite ExtractData_scan_S. cbv zeta.
    rewrite !read_fst, !read_remaining.
    destruct (Nat.ltb_spec (length (take sizeof_ACFEntryData (remaining s)))
                sizeof_ACFEntryData) as [Hshort|_];
      [rewrite length_take in Hshort; lia|].
    fold e.
    rewrite BytesFacts.overlay_full
      by (rewrite BytesFacts.length_zeros, length_take; lia).
    set (s1 := (read sizeof_ACFEntryData s).2).
    set (s2 := (read (Z.to_nat (pathLength e)) s1).2).
    assert (Hf1 : failed s1 = false).
    { unfold s1. rewrite read_failed, Hf. apply Nat.ltb_ge. lia. }
    assert (Hf2 : failed s2 = false).
    { unfold s2. rewrite read_failed, Hf1. unfold s1. rewrite read_remaining.
      apply Nat.ltb_ge. lia. }
    assert (Hc2 : contents s2 = contents s).
    { unfold s2, s1. now rewrite !read_contents. }
    unfold first_match. cbn [List.find snd].
    destruct (String.eqb _ name).
    + cbn [fmap option_fmap option_map fst]. exists s2. auto.
    + specialize (IH s2 cd' Hf2).
      assert (Hrem2 : remaining s2 = drop (Z.to_nat (pathLength e))
                                      (drop sizeof_ACFEntryData (remaining s))).
      { unfold s2, s1. now rewrite !read_remaining. }
      rewrite Hrem2 in IH. specialize (IH Hrest).
      unfold first_match in IH.
      destruct (List.find _ cd') as [r|]; cbn [fmap option_fmap option_map] in *.
      * destruct IH as (s' & Hscan & Hc & Hfs). exists s'.
        split; [exact Hscan|]. split; [congruence|exact Hfs].
      * exact IH.
Qed.

(** [ExtractData] on an archive with a complete central directory. *)
Lemma ExtractData_spec f cd name :
  central_directory_is f cd ->
  ExtractData zstd f name =
    match first_match name cd with
    | Some e => ExtractData_entry zstd e (ifstream_open f)
    | None => Throw NotFound
    end.
Proof.
  intros (Hlen & Hsize & Hmagic & Hoff & Hparse).
  pose proof (centralDirOffset_nonneg f) as Hoff0.
  unfold ExtractData, central_directory_of in *.
  rewrite header_of_eq in * by exact Hlen.
  rewrite read_header_open by exact Hlen.
  set (h := ACFHeader_of_bytes (take sizeof_ACFHeader f)) in *.
  rewrite Hmagic, Z.eqb_refl. cbn [negb].
  rewrite seekg_ok by (reflexivity || lia). cbn [contents].
  pose proof (ExtractData_scan_spec (Z.to_nat (entryCount h))
    {| contents := f; gpos := Z.to_nat (centralDirOffset h); failed := false |}
    name cd eq_refl Hparse) as Hscan.
  destruct (first_match name cd) as [e|].
  - destruct Hscan as (s' & -> & Hc & Hf).
    apply ExtractData_entry_stream; [exact Hc|exact Hf|reflexivity].
  - now rewrite Hscan.
Qed.

Lemma first_match_None name cd :
  first_match name cd = None <-> forall r, r ∈ cd -> r.2 <> name.
Proof.
  unfold first_match. induction cd as [|r cd IH]; cbn [List.find].
  - split; [intros _ r Hr; inversion Hr|reflexivity].
  - destruct (String.eqb_spec r.2 name) as [E|E].
    + split; [discriminate|]. intros H. exfalso. apply (H r); [left|exact E].
    + rewrite IH. split.
      * intros H r' Hr'. apply elem_of_cons in Hr' as [->|Hr']; [exact E|now apply H].
      * intros H r' Hr'. apply H. now right.
Qed.

Lemma first_match_app name l1 e l2 :
  (forall r, r ∈ l1 -> r.2 <> name) ->
  first_match name (l1 ++ (e, name) :: l2) = Some e.
Proof.
  unfold first_match. induction l1 as [|r l1 IH]; intros Hno; cbn [app List.find snd].
  - now rewrite String.eqb_refl.
  - destruct (String.eqb_spec r.2 name) as [E|E].
    + exfalso. apply (Hno r); [left|exact E].
    + apply IH. intros r' Hr'. apply Hno. now right.
Qed.

End Lookup.

(** ** C8 and C10: which entry [ExtractData] works on *)

Section Extraction.

Import Demo.

(** C8. For every archive (a file with a whole header, the right magic
    and a central directory holding its [entryCount] complete records) and
    every requested path, [ExtractData] fails with [NotFound] if and only if
    no record's path is equal to the requested path, and it fails with
    [InvalidOperation] when the first matching record is a [Directory]. *)
Theorem ExtractData_NotFound_iff (zstd : Zstd) (f : list byte)
    (cd : list (ACFEntryData * string)) (name : string) :
  central_directory_is f cd ->
  (ExtractData zstd f name = Throw NotFound <-> forall r, r ∈ cd -> r.2 <> name) /\
  (forall e, first_match name cd = Some e ->
             type e = EntryType_value Directory ->
             ExtractData zstd f name = Throw InvalidOperation).
Proof.
  intros Hcd. rewrite (ExtractData_spec zstd f cd name Hcd). split.
  - rewrite <- first_match_None.
    destruct (first_match name cd) as [e|]; [|tauto].
    split; [|discriminate].
    intros H. exfalso. eapply ExtractData_entry_not_NotFound, H.
  - intros e -> Hdir. unfold ExtractData_entry. now rewrite Hdir.
Qed.

Lemma ExtractData_NotFound_iff_witness :
  central_directory_is sample_archive sample_cd /\
  (ExtractData stored sample_archive "nope" = Throw NotFound <->
     forall r, r ∈ sample_cd -> r.2 <> "nope"%string) /\
  (forall e, first_match "nope" sample_cd = Some e ->
             type e = EntryType_value Directory ->
             ExtractData stored sample_archive "nope" = Throw InvalidOperation).
Proof.
  assert (H : central_directory_is sample_archive sample_cd).
  { unfold central_directory_is. by_evaluation. }
  split; [exact H|].
  apply (ExtractData_NotFound_iff stored sample_archive sample_cd "nope" H).
Defined.

Example ExtractData_sample_directory :
  ExtractData stored sample_archive "root\a\" = Throw InvalidOperation.
Proof. vm_compute. reflexivity. Qed.

Example ExtractData_sample_missing :
  ExtractData stored sample_archive "root\a" = Throw NotFound.
Proof. vm_compute. reflexivity. Qed.

Example ExtractData_duplicate :
  ExtractData stored duplicate_archive "x" = Ok (list_byte_of_string "AB").
Proof. vm_compute. reflexivity. Qed.

End Extraction.

(** ** The archive writer *)

Section WriterFacts.

Variable host : Host.
Variable zstd : Zstd.
Variable basePath : fspath.
Variable internalBasePath : string.

Lemma write_at_end bs s :
  at_end s ->
  write bs s = {| written := written s ++ bs; ppos := length (written s ++ bs) |}.
Proof.
  unfold at_end, write. intros ->.
  rewrite take_ge, drop_ge, app_nil_r, length_app by lia. reflexivity.
Qed.

Lemma at_end_write bs s : at_end s -> at_end (write bs s).
Proof.
  intros H. rewrite write_at_end by exact H. reflexivity.
Qed.

Lemma written_write bs s : at_end s -> written (write bs s) = written s ++ bs.
Proof.
  intros H. now rewrite write_at_end.
Qed.

Lemma blocks_upto_enough n l fuel1 fuel2 :
  (0 < n)%nat -> (length l <= fuel1)%nat -> (length l <= fuel2)%nat ->
  blocks_upto fuel1 n l = blocks_upto fuel2 n l.
Proof.
  intros Hn. revert l fuel2.
  induction fuel1 as [|fuel1 IH]; intros l fuel2 H1 H2.
  - destruct l; [|simpl in H1; lia]. now destruct fuel2.
  - destruct l as [|b l]; [now destruct fuel2|].
    destruct fuel2 as [|fuel2]; [simpl in H2; lia|].
    cbn [blocks_upto]. f_equal.
    apply IH; rewrite length_drop; simpl in *; lia.
Qed.

Lemma blocks_cons n b l :
  blocks n (b :: l) =
    take (Pos.to_nat n) (b :: l) :: blocks n (drop (Pos.to_nat n) (b :: l)).
Proof.
  unfold blocks. cbn [length blocks_upto]. f_equal.
  apply blocks_upto_enough; [lia| |lia].
  rewrite length_drop. simpl. lia.
Qed.

Lemma blocks_nil n : blocks n [] = [].
Proof. reflexivity. Qed.

Lemma concat_blocks n l : concat (blocks n l) = l.
Proof.
  remember (length l) as k eqn:Hk. revert l Hk.
  induction k as [k IH] using lt_wf_ind. intros l Hk.
  destruct l as [|b l]; [reflexivity|].
  rewrite blocks_cons, concat_cons.
  rewrite (IH (length (drop (Pos.to_nat n) (b :: l)))); [apply take_drop| |reflexivity].
  rewrite length_drop. subst k. simpl. lia.
Qed.

Lemma compress_loop_S fuel inputFile cs crc af total :
  compress_loop zstd (S fuel) inputFile cs crc af total =
    let inBuff := (read (Pos.to_nat (ZSTD_CStreamInSize zstd)) inputFile).1 in
    let inputFile' := (read (Pos.to_nat (ZSTD_CStreamInSize zstd)) inputFile).2 in
    if (length inBuff =? 0)%nat then (cs, crc, af, total)
    else
      compress_loop zstd fuel inputFile'
        (ZSTD_compressStream zstd cs inBuff).1
        (Crc.crc32_update crc inBuff)
        (write (ZSTD_compressStream zstd cs inBuff).2 af)
        ((total + Z.of_nat (length (ZSTD_compressStream zstd cs inBuff).2)) mod 2 ^ 64).
Proof.
  cbn [compress_loop]. destruct (read _ inputFile) as [inBuff inputFile'].
  cbn [fst snd]. destruct (length inBuff =? 0)%nat; [reflexivity|].
  now destruct (ZSTD_compressStream zstd cs inBuff).
Qed.

Lemma compress_blocks_cons cs b bs :
  compress_blocks zstd cs (b :: bs) =
    ((compress_blocks zstd (ZSTD_compressStream zstd cs b).1 bs).1,
     (ZSTD_compressStream zstd cs b).2 ++
     (compress_blocks zstd (ZSTD_compressStream zstd cs b).1 bs).2).
Proof.
  cbn [compress_blocks]. destruct (ZSTD_compressStream zstd cs b) as [cs1 o1].
  cbn [fst snd]. now destruct (compress_blocks zstd cs1 bs).
Qed.

(** The reading loop compresses the blocks of what the source can still
    deliver, sums their CRC, appends the output to the archive and counts
    it; it never runs out of fuel. *)
Lemma compress_loop_spec fuel inputFile cs crc af total :
  at_end af -> 0 <= total < 2 ^ 64 ->
  (length (remaining inputFile) < fuel)%nat ->
  let r := compress_blocks zstd cs (blocks (ZSTD_CStreamInSize zstd) (remaining inputFile)) in
  compress_loop zstd fuel inputFile cs crc af total =
    (r.1, Crc.crc32_update crc (remaining inputFile),
     {| written := written af ++ r.2; ppos := length (written af ++ r.2) |},
     (total + Z.of_nat (length r.2)) mod 2 ^ 64).
Proof.
  revert inputFile cs crc af total.
  induction fuel as [|fuel IH]; intros inputFile cs crc af total Hend Htot Hfuel; [lia|].
  cbv zeta. rewrite compress_loop_S. cbv zeta. rewrite read_fst.
  destruct (remaining inputFile) as [|b rem] eqn:Hrem.
  - rewrite take_nil. cbn [length Nat.eqb].
    rewrite blocks_nil. cbn [compress_blocks fst snd length].
    rewrite app_nil_r, Z.add_0_r, Z.mod_small by lia.
    unfold Crc.crc32_update. cbn [fold_left]. rewrite CrcFacts.not32_involutive.
    destruct af as [w p]. unfold at_end in Hend. simpl in Hend. now subst p.
  - set (n := Pos.to_nat (ZSTD_CStreamInSize zstd)).
    assert (Hn : (0 < n)%nat) by (unfold n; lia).
    destruct (Nat.eqb_spec (length (take n (b :: rem))) 0) as [E|_].
    { rewrite length_take in E. simpl in E. lia. }
    set (block := take n (b :: rem)).
    specialize (IH (read n inputFile).2 (ZSTD_compressStream zstd cs block).1
      (Crc.crc32_update crc block) (write (ZSTD_compressStream zstd cs block).2 af)
      ((total + Z.of_nat (length (ZSTD_compressStream zstd cs block).2)) mod 2 ^ 64)).
    cbv zeta in IH. rewrite read_remaining, Hrem in IH.
    rewrite IH; clear IH.
    + rewrite blocks_cons, compress_blocks_cons. fold n. fold block. cbn [fst snd].
      rewrite written_write by exact Hend.
      rewrite <- CrcFacts.crc32_update_app. unfold block. rewrite take_drop.
      rewrite <- !app_assoc. f_equal.
      rewrite Zplus_mod_idemp_l. f_equal. rewrite !length_app. lia.
    + now apply at_end_write.
    + apply Z.mod_pos_bound. lia.
    + rewrite length_drop. simpl in Hfuel |- *. lia.
Qed.

(** The loop body, for a source that opens. *)
Lemma file_entry_spec filePath af bytes :
  at_end af ->
  fs_ifstream host filePath = Some bytes ->
  file_entry host zstd basePath internalBasePath filePath af =
    match frame_of zstd bytes with
    | None => Throw CompressorError
    | Some frame =>
      Ok (Some ({| written := written af ++ frame; ppos := length (written af ++ frame) |},
                file_record host basePath internalBasePath filePath
                  (Z.of_nat (length (written af))) (Crc.crc32 bytes)
                  (Z.of_nat (length frame) mod 2 ^ 64)))
    end.
Proof.
  intros Hend Hopen. unfold file_entry. rewrite Hopen.
  pose proof (compress_loop_spec (S (length bytes)) (ifstream_open bytes)
    (ZSTD_initCStream zstd) 0 af 0 Hend ltac:(lia)) as Hloop.
  rewrite remaining_open in Hloop. cbv zeta in Hloop.
  rewrite Hloop by lia. clear Hloop.
  unfold frame_of.
  destruct (compress_blocks zstd _ _) as [cs out]. cbn [fst snd].
  destruct (ZSTD_endStream zstd cs) as [tail|]; [|reflexivity].
  rewrite write_at_end by reflexivity. cbn [written].
  rewrite <- app_assoc. unfold tellp.
  replace (ppos af) with (length (written af)) by (symmetry; exact Hend).
  rewrite Z.add_0_l, Zplus_mod_idemp_l, (length_app out tail), Nat2Z.inj_add.
  reflexivity.
Qed.

(** The loop over the files, as a layout of frames and records. *)
Lemma file_entries_spec files af cd :
  at_end af ->
  file_entries host zstd basePath internalBasePath files af cd =
    match stored_files host zstd basePath internalBasePath files (length (written af)) with
    | Some (body, records) =>
      Ok ({| written := written af ++ body; ppos := length (written af ++ body) |},
          cd ++ records)
    | None => Throw CompressorError
    end.
Proof.
  revert af cd. induction files as [|filePath files IH]; intros af cd Hend.
  - cbn [file_entries stored_files]. rewrite !app_nil_r.
    destruct af as [w p]. unfold at_end in Hend. simpl in Hend. now subst p.
  - cbn [file_entries stored_files].
    destruct (fs_ifstream host filePath) as [bytes|] eqn:Hopen.
    + rewrite (file_entry_spec _ _ bytes Hend Hopen).
      destruct (frame_of zstd bytes) as [frame|]; [|reflexivity].
      rewrite IH by reflexivity. cbn [written].
      rewrite length_app.
      destruct (stored_files _ _ _ _ files _) as [[body records]|]; [|reflexivity].
      now rewrite <- !app_assoc.
    + unfold file_entry. rewrite Hopen. now apply IH.
Qed.

(** What [Create] leaves in the archive file: the final header, the
    frames, the central directory. *)
Lemma Create_spec inputPaths :
  let g := gather host inputPaths in
  let dirs := map (dir_entry host basePath internalBasePath) (std_sort (dirsToProcess g)) in
  Create host zstd basePath internalBasePath inputPaths =
    match stored_files host zstd basePath internalBasePath
            (std_sort (filesToProcess g)) sizeof_ACFHeader with
    | Some (body, records) =>
      Ok (ACFHeader_bytes
            {| magic := ACF_MAGIC; version := ACF_VERSION;
               centralDirOffset := Z.of_nat (sizeof_ACFHeader + length body) mod 2 ^ 64;
               entryCount := Z.of_nat (length (dirs ++ records)) mod 2 ^ 64;
               centralDirCRC32 := Crc.crc32 (central_directory_bytes (dirs ++ records));
               reserved := 0 |}
          ++ body ++ central_directory_bytes (dirs ++ records))
    | None => Throw CompressorError
    end.
Proof.
  cbv zeta. unfold Create, Create_entries.
  assert (Hend0 : at_end (write (ACFHeader_bytes ACFHeader_default) ofstream_open))
    by (apply at_end_write; reflexivity).
  rewrite file_entries_spec by exact Hend0.
  rewrite written_write by reflexivity. cbn [written ofstream_open app].
  rewrite length_ACFHeader_bytes.
  destruct (stored_files _ _ _ _ _ _) as [[body records]|]; [|reflexivity].
  f_equal. unfold final_header, tellp. cbn [ppos written].
  set (af1 := {| written := ACFHeader_bytes ACFHeader_default ++ body;
                 ppos := length (ACFHeader_bytes ACFHeader_default ++ body) |}).
  rewrite (write_at_end _ af1) by reflexivity. cbn [written af1].
  unfold seekp, write. cbn [written ppos]. rewrite take_0, Nat.add_0_l.
  rewrite length_ACFHeader_bytes at 1.
  rewrite app_nil_l, <- !app_assoc.
  rewrite drop_app_length' by (now rewrite length_ACFHeader_bytes).
  rewrite !length_app, length_ACFHeader_bytes. reflexivity.
Qed.

End WriterFacts.

(** ** C2 and C9: the header [Create] leaves behind *)

Section HeaderPatch.

Import Demo.

Variable host : Host.
Variable zstd : Zstd.
Variable basePath : fspath.
Variable internalBasePath : string.

Lemma header_of_written h rest :
  0 <= centralDirOffset h < 2 ^ 64 -> 0 <= entryCount h < 2 ^ 64 ->
  magic h = ACF_MAGIC -> version h = ACF_VERSION -> reserved h = 0 ->
  Crc.u32 (centralDirCRC32 h) ->
  header_of (ACFHeader_bytes h ++ rest) = h.
Proof.
  intros Ho He Hm Hv Hr Hc. rewrite header_of_app.
  apply ACFHeader_of_bytes_bytes; try assumption;
    rewrite ?Hm, ?Hv, ?Hr; unfold ACF_MAGIC, ACF_VERSION; lia.
Qed.

Lemma length_central_directory_bytes cd :
  (sizeof_ACFEntryData * length cd <= length (central_directory_bytes cd))%nat.
Proof.
  unfold central_directory_bytes.
  induction cd as [|r cd IH]; cbn [map concat length]; [lia|].
  rewrite length_app, length_record_bytes. lia.
Qed.

(** C2, as stated, fails: the serialized header is 32 bytes long, not 36,
    and [Create] on an empty input set stores [centralDirOffset = 32]. *)
Lemma Create_empty_counterexample :
  length (ACFHeader_bytes ACFHeader_default) <> 36%nat /\
  exists archive,
    Create sample_host stored [] "" [] = Ok archive /\
    centralDirOffset (header_of archive) <> 36.
Proof.
  split.
  - vm_compute. lia.
  - eexists. split; [vm_compute; reflexivity|]. vm_compute. congruence.
Qed.

(** C2, amended: the serialized file header occupies exactly 32 bytes;
    consequently [Create] applied to an empty input set produces an archive
    with [entryCount = 0], [centralDirOffset = 32], a zero-length central
    directory and [centralDirCRC32 = 0], the CRC32 of the empty byte
    string. *)
Theorem Create_empty :
  (forall h, length (ACFHeader_bytes h) = 32%nat) /\
  exists archive,
    Create host zstd basePath internalBasePath [] = Ok archive /\
    entryCount (header_of archive) = 0 /\
    centralDirOffset (header_of archive) = 32 /\
    central_directory_of archive = [] /\
    centralDirCRC32 (header_of archive) = 0 /\
    Crc.crc32 [] = 0.
Proof.
  split; [exact length_ACFHeader_bytes|].
  eexists. split; [vm_compute; reflexivity|]. by_evaluation.
Qed.

End HeaderPatch.

(** ** The order of paths *)

Section PathOrder.

Lemma ascii_compare_refl a : Ascii.compare a a = Eq.
Proof. apply N.compare_refl. Qed.

Lemma ascii_compare_lt_trans a b c :
  Ascii.compare a b = Lt -> Ascii.compare b c = Lt -> Ascii.compare a c = Lt.
Proof.
  unfold Ascii.compare. rewrite !N.compare_lt_iff. apply N.lt_trans.
Qed.

Lemma string_compare_refl s : String.compare s s = Eq.
Proof.
  induction s as [|a s IH]; cbn [String.compare]; [reflexivity|].
  now rewrite ascii_compare_refl.
Qed.

Lemma string_compare_lt_trans s1 s2 s3 :
  String.compare s1 s2 = Lt -> String.compare s2 s3 = Lt -> String.compare s1 s3 = Lt.
Proof.
  revert s2 s3. induction s1 as [|a s1 IH]; intros [|b s2] [|c s3];
    cbn [String.compare]; try congruence.
  destruct (Ascii.compare a b) eqn:Hab; try discriminate.
  - apply Ascii.compare_eq_iff in Hab. subst b.
    destruct (Ascii.compare a c); try congruence. apply IH.
  - destruct (Ascii.compare b c) eqn:Hbc; try discriminate.
    + apply Ascii.compare_eq_iff in Hbc. subst c. now rewrite Hab.
    + now rewrite (ascii_compare_lt_trans _ _ _ Hab Hbc).
Qed.

Lemma path_compare_refl p : path_compare p p = Eq.
Proof.
  induction p as [|a p IH]; cbn [path_compare]; [reflexivity|].
  now rewrite string_compare_refl.
Qed.

Lemma path_compare_antisym p q : path_compare p q = CompOpp (path_compare q p).
Proof.
  revert q. induction p as [|a p IH]; intros [|b q]; cbn [path_compare]; try reflexivity.
  rewrite String.compare_antisym.
  destruct (String.compare b a); cbn [CompOpp]; auto.
Qed.

Lemma path_compare_eq p q : path_compare p q = Eq -> p = q.
Proof.
  revert q. induction p as [|a p IH]; intros [|b q]; cbn [path_compare];
    try congruence.
  destruct (String.compare a b) eqn:Hab; try discriminate.
  apply String.compare_eq_iff in Hab. intros H. f_equal; [exact Hab|now apply IH].
Qed.

Lemma path_compare_lt_trans p q r :
  path_compare p q = Lt -> path_compare q r = Lt -> path_compare p r = Lt.
Proof.
  revert q r. induction p as [|a p IH]; intros [|b q] [|c r];
    cbn [path_compare]; try congruence.
  destruct (String.compare a b) eqn:Hab; try discriminate.
  - apply String.compare_eq_iff in Hab. subst b.
    destruct (String.compare a c); try congruence. apply IH.
  - destruct (String.compare b c) eqn:Hbc; try discriminate.
    + apply String.compare_eq_iff in Hbc. subst c. now rewrite Hab.
    + now rewrite (string_compare_lt_trans _ _ _ Hab Hbc).
Qed.

Global Instance path_le_total : Total path_le.
Proof.
  intros p q. unfold path_le. rewrite (path_compare_antisym q p).
  destruct (path_compare p q); cbn [CompOpp]; [left|left|right]; congruence.
Qed.

Global Instance path_le_transitive : Transitive path_le.
Proof.
  intros p q r. unfold path_le.
  destruct (path_compare p q) eqn:Hpq; try congruence; intros _.
  - apply path_compare_eq in Hpq. now subst q.
  - destruct (path_compare q r) eqn:Hqr; try congruence; intros _.
    + apply path_compare_eq in Hqr. subst r. rewrite Hpq. discriminate.
    + rewrite (path_compare_lt_trans _ _ _ Hpq Hqr). discriminate.
Qed.

Global Instance path_le_antisymm : AntiSymm (=) path_le.
Proof.
  intros p q. unfold path_le. rewrite (path_compare_antisym q p).
  destruct (path_compare p q) eqn:Hpq; cbn [CompOpp]; try congruence.
  intros _ _. now apply path_compare_eq.
Qed.

(** [std::sort] yields a sorted arrangement of its input, and there is
    only one. *)
Lemma std_sort_sorted l : StronglySorted path_le (std_sort l).
Proof. apply StronglySorted_merge_sort; apply _. Qed.

Lemma std_sort_perm l : std_sort l ≡ₚ l.
Proof. apply merge_sort_Permutation. Qed.

Lemma std_sort_unique l l' :
  StronglySorted path_le l' -> l' ≡ₚ l -> l' = std_sort l.
Proof.
  intros Hs Hp. apply (StronglySorted_unique path_le); [exact Hs|apply std_sort_sorted|].
  now rewrite Hp, std_sort_perm.
Qed.

Lemma StronglySorted_filter {A} (R : relation A) (P : A -> Prop)
    `{!forall x, Decision (P x)} (l : list A) :
  StronglySorted R l -> StronglySorted R (filter P l).
Proof.
  induction 1 as [|x l Hs IH Hall]; [constructor|].
  rewrite filter_cons. destruct (decide (P x)); [|exact IH].
  constructor; [exact IH|].
  rewrite Forall_forall in Hall |- *. intros y Hy.
  apply Hall. now apply list_elem_of_filter in Hy as [_ Hy].
Qed.

End PathOrder.

(** ** C6 and C7: the records [Create] builds *)

Section Records.

Import Demo.

Variable host : Host.
Variable zstd : Zstd.
Variable basePath : fspath.
Variable internalBasePath : string.

Local Abbreviation opens := (fun p => is_Some (fs_ifstream host p)).

Lemma Create_entries_spec inputPaths :
  Create_entries host zstd basePath internalBasePath inputPaths =
    match stored_files host zstd basePath internalBasePath
            (std_sort (filesToProcess (gather host inputPaths))) sizeof_ACFHeader with
    | Some (body, records) =>
      Ok ({| written := ACFHeader_bytes ACFHeader_default ++ body;
             ppos := length (ACFHeader_bytes ACFHeader_default ++ body) |},
          map (dir_entry host basePath internalBasePath)
              (std_sort (dirsToProcess (gather host inputPaths))) ++ records)
    | None => Throw CompressorError
    end.
Proof.
  unfold Create_entries.
  rewrite file_entries_spec by (apply at_end_write; reflexivity).
  rewrite written_write by reflexivity. cbn [written ofstream_open app].
  now rewrite length_ACFHeader_bytes.
Qed.

Lemma stored_files_records files start body records :
  stored_files host zstd basePath internalBasePath files start = Some (body, records) ->
  Forall (fun r => type r.1 = EntryType_value File /\
                   pathLength r.1 = Z.of_nat (String.length r.2) mod 2 ^ 16) records /\
  map snd records =
    map (internalPath_of host basePath internalBasePath) (filter opens files).
Proof.
  revert start body records.
  induction files as [|p files IH]; intros start body records H; cbn [stored_files] in H.
  - apply Some_inj in H. injection H as <- <-. split; [constructor|reflexivity].
  - rewrite filter_cons.
    destruct (fs_ifstream host p) as [bytes|] eqn:Hopen.
    + destruct (frame_of zstd bytes) as [frame|]; [|discriminate].
      destruct (stored_files _ _ _ _ files _) as [[body' records']|] eqn:Hrest;
        [|discriminate].
      apply Some_inj in H. injection H as <- <-.
      destruct (IH _ _ _ Hrest) as [Hall Hpaths].
      destruct (decide (is_Some (Some bytes))) as [_|Hn];
        [|exfalso; apply Hn; eauto].
      split.
      * constructor; [|exact Hall]. split; reflexivity.
      * cbn [map]. now rewrite Hpaths.
    + destruct (decide (is_Some (@None (list byte)))) as [Hs|_];
        [now apply is_Some_None in Hs|].
      eapply IH, H.
Qed.

Lemma dir_entry_record dirPath :
  let r := dir_entry host basePath internalBasePath dirPath in
  type r.1 = EntryType_value Directory /\
  r.2 = dir_internalPath host basePath internalBasePath dirPath /\
  pathLength r.1 = Z.of_nat (String.length r.2) mod 2 ^ 16.
Proof. repeat split. Qed.

(** C6, as stated, fails: in the sample the file [b] of the directory [a]
    is stored before the file [a.txt], as [std::sort] orders their
    source paths element by element; the stored strings [root\a\b] and
    [root\a.txt] are then not ascending in byte order. *)
Lemma Create_order_counterexample :
  exists af cd,
    Create_entries sample_host stored [] "" [["root"%string]] = Ok (af, cd) /\
    map snd (records_of_type File cd) = ["root\a\b"; "root\a.txt"]%string /\
    ~ byte_ascending (map snd (records_of_type File cd)).
Proof.
  eexists _, _. split; [vm_compute; reflexivity|].
  split; [reflexivity|].
  intros H. change (byte_ascending ["root\a\b"; "root\a.txt"]%string) in H.
  unfold byte_ascending in H.
  apply Sorted_inv in H as [_ H]. apply HdRel_inv in H.
  vm_compute in H. discriminate.
Qed.

(** C6, amended: in the central directory of every archive produced by
    [Create], all [Directory] records precede all [File] records; the
    directory records follow the ascending order of their source paths
    under the element-wise comparison of [fs::path], and so do the file
    records, one for each source file that opened. *)
Theorem Create_entries_order (inputPaths : list fspath) (af : ofstream)
    (cd : list (ACFEntryData * string)) :
  Create_entries host zstd basePath internalBasePath inputPaths = Ok (af, cd) ->
  exists dirs files records,
    cd = map (dir_entry host basePath internalBasePath) dirs ++ records /\
    Forall (fun r => type r.1 = EntryType_value Directory)
           (map (dir_entry host basePath internalBasePath) dirs) /\
    Forall (fun r => type r.1 = EntryType_value File) records /\
    map snd records = map (internalPath_of host basePath internalBasePath) files /\
    StronglySorted path_le dirs /\
    dirs ≡ₚ dirsToProcess (gather host inputPaths) /\
    StronglySorted path_le files /\
    files = filter opens (std_sort (filesToProcess (gather host inputPaths))).
Proof.
  intros H. rewrite Create_entries_spec in H.
  destruct (stored_files _ _ _ _ _ _) as [[body records]|] eqn:Hfiles; [|discriminate].
  apply Ok_inj in H. injection H as _ <-.
  destruct (stored_files_records _ _ _ _ Hfiles) as [Hall Hpaths].
  exists (std_sort (dirsToProcess (gather host inputPaths))),
         (filter opens (std_sort (filesToProcess (gather host inputPaths)))),
         records.
  split; [reflexivity|]. split.
  { apply Forall_fmap, Forall_true. intros p. reflexivity. }
  split.
  { eapply Forall_impl; [exact Hall|]. now intros r [Ht _]. }
  split; [exact Hpaths|]. split; [apply std_sort_sorted|].
  split; [apply std_sort_perm|]. split; [|reflexivity].
  apply StronglySorted_filter, std_sort_sorted.
Qed.

(** With an internal base path of 65534 bytes the file [f] gets an
    internal path of 65536 bytes; [Create] does not reject it but returns
    normally, having stored the record with [pathLength = 0]. *)
Lemma Create_long_path_counterexample :
  match Create_entries long_host stored [] long_base [["f"%string]] with
  | Ok (_, [(e, p)]) => Z.of_nat (String.length p) = 65536 /\ pathLength e = 0
  | _ => False
  end /\
  match Create long_host stored [] long_base [["f"%string]] with
  | Ok _ => True
  | _ => False
  end.
Proof.
  split; vm_compute; auto.
Qed.

(** Within the range of [pathLength]: every gathered directory, and every
    gathered file that opens, whose stored path is at most 65535 bytes long
    (65535 included) is accepted by [Create]: the central directory holds
    its record, and in every record with such a path the stored
    [pathLength] is the exact byte length of the stored path string. *)
Lemma Create_entries_pathLength (inputPaths : list fspath) (af : ofstream)
    (cd : list (ACFEntryData * string)) :
  Create_entries host zstd basePath internalBasePath inputPaths = Ok (af, cd) ->
  (forall r, r ∈ cd -> Z.of_nat (String.length r.2) <= 65535 ->
             pathLength r.1 = Z.of_nat (String.length r.2)) /\
  (forall p, p ∈ dirsToProcess (gather host inputPaths) ->
             Z.of_nat (String.length (dir_internalPath host basePath internalBasePath p)) <= 65535 ->
             exists e, (e, dir_internalPath host basePath internalBasePath p) ∈ cd) /\
  (forall p, p ∈ filesToProcess (gather host inputPaths) ->
             is_Some (fs_ifstream host p) ->
             Z.of_nat (String.length (internalPath_of host basePath internalBasePath p)) <= 65535 ->
             exists e, (e, internalPath_of host basePath internalBasePath p) ∈ cd).
Proof.
  intros H. rewrite Create_entries_spec in H.
  destruct (stored_files _ _ _ _ _ _) as [[body records]|] eqn:Hfiles; [|discriminate].
  apply Ok_inj in H. injection H as _ <-.
  destruct (stored_files_records _ _ _ _ Hfiles) as [Hall Hpaths].
  split; [|split].
  - intros r Hr Hlen. apply elem_of_app in Hr as [Hr|Hr].
    + apply list_elem_of_fmap in Hr as (p & -> & _).
      destruct (dir_entry_record p) as (_ & _ & ->).
      apply Z.mod_small. lia.
    + rewrite Forall_forall in Hall. destruct (Hall r Hr) as [_ ->].
      apply Z.mod_small. lia.
  - intros p Hp _.
    exists (dir_entry host basePath internalBasePath p).1.
    apply elem_of_app. left. apply list_elem_of_fmap. exists p.
    split; [reflexivity|]. now rewrite std_sort_perm.
  - intros p Hp Hopen _.
    assert (Hin : internalPath_of host basePath internalBasePath p ∈ map snd records).
    { rewrite Hpaths. apply list_elem_of_fmap. exists p. split; [reflexivity|].
      apply list_elem_of_filter. split; [exact Hopen|]. now rewrite std_sort_perm. }
    apply list_elem_of_fmap in Hin as ([e path] & Heq & Hr). cbn [snd] in Heq. subst path.
    exists e. apply elem_of_app. now right.
Qed.

End Records.

Lemma Create_entries_order_witness :
  exists dirs files records,
    Demo.sample_cd =
      map (dir_entry Demo.sample_host [] "") dirs ++ records /\
    Forall (fun r => type r.1 = EntryType_value Directory)
           (map (dir_entry Demo.sample_host [] "") dirs) /\
    Forall (fun r => type r.1 = EntryType_value File) records /\
    map snd records = map (internalPath_of Demo.sample_host [] "") files /\
    StronglySorted path_le dirs /\
    dirs ≡ₚ dirsToProcess (gather Demo.sample_host [["root"%string]]) /\
    StronglySorted path_le files /\
    files = filter (fun p => is_Some (fs_ifstream Demo.sample_host p))
              (std_sort (filesToProcess (gather Demo.sample_host [["root"%string]]))).
Proof.
  apply (Create_entries_order Demo.sample_host Demo.stored [] "" [["root"%string]]
           Demo.sample_stream Demo.sample_cd).
  vm_compute. reflexivity.
Defined.

Lemma Create_entries_pathLength_witness :
  (forall r, r ∈ Demo.sample_cd -> Z.of_nat (String.length r.2) <= 65535 ->
             pathLength r.1 = Z.of_nat (String.length r.2)) /\
  (forall p, p ∈ dirsToProcess (gather Demo.sample_host [["root"%string]]) ->
             Z.of_nat (String.length (dir_internalPath Demo.sample_host [] "" p)) <= 65535 ->
             exists e, (e, dir_internalPath Demo.sample_host [] "" p) ∈ Demo.sample_cd) /\
  (forall p, p ∈ filesToProcess (gather Demo.sample_host [["root"%string]]) ->
             is_Some (fs_ifstream Demo.sample_host p) ->
             Z.of_nat (String.length (internalPath_of Demo.sample_host [] "" p)) <= 65535 ->
             exists e, (e, internalPath_of Demo.sample_host [] "" p) ∈ Demo.sample_cd).
Proof.
  apply (Create_entries_pathLength Demo.sample_host Demo.stored [] "" [["root"%string]]
           Demo.sample_stream Demo.sample_cd).
  vm_compute. reflexivity.
Defined.

(** ** Reading back what was written *)

Section ReadBack.

Variable zstd : Zstd.

(** A central directory made of well-formed records parses to them. *)
Lemma parse_records_bytes cd :
  Forall record_wf cd ->
  parse_records (length cd) (central_directory_bytes cd) = Some cd.
Proof.
  induction 1 as [|[e path] cd [Hwf Hlen] _ IH]; [reflexivity|].
  cbn [fst snd] in *. cbn [length]. rewrite parse_records_S.
  unfold central_directory_bytes. rewrite map_cons, concat_cons.
  fold (central_directory_bytes cd). unfold record_bytes. cbn [fst snd].
  rewrite <- app_assoc.
  destruct (Nat.ltb_spec (length (ACFEntryData_bytes e ++ list_byte_of_string path
                                  ++ central_directory_bytes cd)) sizeof_ACFEntryData)
    as [Hshort|_].
  { rewrite length_app, length_ACFEntryData_bytes in Hshort. lia. }
  cbv zeta.
  rewrite take_app_length', drop_app_length' by (now rewrite length_ACFEntryData_bytes).
  rewrite ACFEntryData_of_bytes_bytes by exact Hwf.
  rewrite Hlen, Nat2Z.id.
  destruct (Nat.ltb_spec (length (list_byte_of_string path ++ central_directory_bytes cd))
                         (String.length path)) as [Hshort|_].
  { rewrite length_app, length_list_byte_of_string in Hshort. lia. }
  rewrite take_app_length', drop_app_length' by (now rewrite length_list_byte_of_string).
  rewrite string_of_list_byte_of_string, IH. reflexivity.
Qed.

Lemma decompress_blocks_cons ds b bs :
  decompress_blocks zstd ds (b :: bs) =
    match ZSTD_decompressStream zstd ds b with
    | None => None
    | Some (ds1, out1) => app out1 <$> decompress_blocks zstd ds1 bs
    end.
Proof. reflexivity. Qed.

(** The decompression loop over a stream that still holds the rest of the
    frame: it feeds the blocks of that rest, and never runs out of fuel. *)
Lemma ExtractData_loop_spec fuel ds inBuff s totalRead csize out rest tail :
  remaining s = rest ++ tail ->
  totalRead + Z.of_nat (length rest) = csize ->
  (length rest <= fuel)%nat ->
  length inBuff = Pos.to_nat (ZSTD_DStreamInSize zstd) ->
  ExtractData_loop zstd fuel ds inBuff s totalRead csize out =
    match decompress_blocks zstd ds (blocks (ZSTD_DStreamInSize zstd) rest) with
    | Some o => Ok (out ++ o)
    | None => Throw CompressorError
    end.
Proof.
  set (n := Pos.to_nat (ZSTD_DStreamInSize zstd)).
  assert (Hn : (0 < n)%nat) by (unfold n; lia).
  revert ds inBuff s totalRead out rest.
  induction fuel as [|fuel IH]; intros ds inBuff s totalRead out rest Hrem Htot Hfuel HinBuff.
  - destruct rest; [|simpl in Hfuel; lia].
    rewrite ExtractData_loop_O. simpl in Htot.
    destruct (Z.ltb_spec totalRead csize); [lia|].
    rewrite blocks_nil. cbn [decompress_blocks]. now rewrite app_nil_r.
  - rewrite ExtractData_loop_S.
    destruct rest as [|b rest].
    + simpl in Htot. destruct (Z.ltb_spec totalRead csize); [lia|].
      rewrite blocks_nil. cbn [decompress_blocks]. now rewrite app_nil_r.
    + destruct (Z.ltb_spec totalRead csize) as [_|Hge];
        [|rewrite <- Htot in Hge; simpl in Hge; lia].
      cbv zeta. rewrite read_fst, Hrem, HinBuff. fold n.
      set (toRead := Z.to_nat (Z.min (Z.of_nat n) (csize - totalRead))).
      assert (HtoRead : toRead = Nat.min n (length (b :: rest))).
      { unfold toRead. rewrite <- Htot. lia. }
      assert (Hblock : take toRead ((b :: rest) ++ tail) = take n (b :: rest)).
      { rewrite take_app_le by lia.
        rewrite HtoRead. rewrite <- (take_take (b :: rest) n (length (b :: rest))).
        now rewrite firstn_all. }
      rewrite Hblock.
      assert (Hlenblock : length (take n (b :: rest)) = toRead).
      { rewrite length_take. lia. }
      assert (Hover : take toRead (Bytes.overlay (take n (b :: rest)) inBuff)
                      = take n (b :: rest)).
      { unfold Bytes.overlay. now rewrite take_app_length'. }
      rewrite Hover, blocks_cons. fold n. rewrite decompress_blocks_cons.
      destruct (ZSTD_decompressStream zstd ds (take n (b :: rest))) as [[ds' o]|];
        [|reflexivity].
      rewrite (IH ds' _ _ _ _ (drop n (b :: rest))).
      * destruct (decompress_blocks zstd ds' _) as [o'|]; cbn [fmap option_fmap option_map];
          [|reflexivity].
        now rewrite app_assoc.
      * rewrite read_remaining, Hrem.
        rewrite drop_app_le by lia. f_equal.
        rewrite HtoRead.
        destruct (Nat.le_ge_cases n (length (b :: rest))) as [Hle|Hge'].
        -- now rewrite Nat.min_l by exact Hle.
        -- rewrite Nat.min_r by exact Hge'.
           rewrite drop_all. symmetry. now apply drop_ge.
      * rewrite length_drop. rewrite <- Htot. lia.
      * rewrite length_drop. simpl in Hfuel |- *. lia.
      * rewrite BytesFacts.length_overlay; [exact HinBuff|]. rewrite HinBuff. lia.
Qed.

(** Extracting a record whose frame sits at its offset and decodes to
    bytes with the recorded CRC yields those bytes. *)
Lemma ExtractData_entry_frame e before frame after bytes :
  decode_frame zstd frame = Some bytes ->
  type e = EntryType_value File ->
  dataOffset e = Z.of_nat (length before) ->
  Z.of_nat (length before) < 2 ^ 63 ->
  compressedSize e = Z.of_nat (length frame) ->
  originalSize e <= PTRDIFF_MAX ->
  crc32 e = Crc.crc32 bytes ->
  ExtractData_entry zstd e (ifstream_open (before ++ frame ++ after)) = Ok bytes.
Proof.
  intros Hdec Htype Hoff Hlt Hcsize Hosize Hcrc.
  unfold ExtractData_entry. rewrite Htype, Z.eqb_refl. cbn [negb].
  destruct (Z.ltb_spec PTRDIFF_MAX (originalSize e)); [lia|].
  rewrite (ExtractData_loop_spec _ _ _ _ _ _ _ frame after).
  - unfold decode_frame in Hdec. rewrite Hdec. cbn [app].
    now rewrite Hcrc, Z.eqb_refl.
  - rewrite remaining_seekg by (reflexivity || lia).
    cbn [contents ifstream_open]. rewrite Hoff, Nat2Z.id.
    now rewrite drop_app_length.
  - lia.
  - lia.
  - apply BytesFacts.length_zeros.
Qed.

(** The loop of [ExtractAll] when every file record extracts: it runs to
    the end, and it writes exactly the files of the file records, each
    with the bytes [ExtractData] returns for its path. *)
Lemma ExtractAll_loop_ok f entries :
  (forall e path, (e, path) ∈ entries -> type e = EntryType_value File ->
                  exists data, ExtractData zstd f path = Ok data) ->
  exists acts,
    ExtractAll_loop zstd f entries = (acts, Ok tt) /\
    forall path data,
      write_file path data ∈ acts <->
      exists e, (e, path) ∈ entries /\ type e = EntryType_value File /\
                ExtractData zstd f path = Ok data.
Proof.
  induction entries as [|[e path] entries IH]; intros Hall.
  - exists []. split; [reflexivity|]. intros path data. split.
    + intros H. inversion H.
    + intros (e & H & _). inversion H.
  - destruct IH as (more & Hmore & Hwrites).
    { intros e' path' Hin. apply Hall. now right. }
    cbn [ExtractAll_loop]. rewrite Hmore.
    destruct (Z.eqb_spec (type e) (EntryType_value Directory)) as [Hdir|Hndir].
    + eexists. split; [reflexivity|]. intros path' data. split.
      * intros Hin. apply elem_of_app in Hin as [Hin|Hin];
          [apply list_elem_of_singleton in Hin; discriminate|].
        apply elem_of_cons in Hin as [Hin|Hin]; [discriminate|].
        apply elem_of_cons in Hin as [Hin|Hin]; [discriminate|].
        apply Hwrites in Hin as (e' & Hin & Ht & Hd).
        exists e'. split; [now right|auto].
      * intros (e' & Hin & Ht & Hd).
        apply elem_of_cons in Hin as [Heq|Hin].
        -- injection Heq as -> ->. rewrite Hdir in Ht. discriminate.
        -- apply elem_of_app. right. do 2 right.
           apply Hwrites. eauto.
    + destruct (Z.eqb_spec (type e) (EntryType_value File)) as [Hfile|Hnfile].
      * destruct (Hall e path ltac:(left) Hfile) as (d & Hd). rewrite Hd.
        eexists. split; [reflexivity|]. intros path' data. split.
        -- intros Hin. apply elem_of_app in Hin as [Hin|Hin].
           ++ apply elem_of_cons in Hin as [Hin|Hin]; [discriminate|].
              apply list_elem_of_singleton in Hin. injection Hin as -> ->.
              exists e. split; [left|auto].
           ++ apply elem_of_cons in Hin as [Hin|Hin]; [discriminate|].
              apply elem_of_cons in Hin as [Hin|Hin]; [discriminate|].
              apply Hwrites in Hin as (e' & Hin & Ht & Hd').
              exists e'. split; [now right|auto].
        -- intros (e' & Hin & Ht & Hd').
           apply elem_of_cons in Hin as [Heq|Hin].
           ++ injection Heq as -> ->. apply elem_of_app. left. right.
              apply list_elem_of_singleton. congruence.
           ++ apply elem_of_app. right. do 2 right. apply Hwrites. eauto.
      * eexists. split; [reflexivity|]. intros path' data. split.
        -- intros Hin. cbn [app] in Hin.
           apply elem_of_cons in Hin as [Hin|Hin]; [discriminate|].
           apply elem_of_cons in Hin as [Hin|Hin]; [discriminate|].
           apply Hwrites in Hin as (e' & Hin & Ht & Hd').
           exists e'. split; [now right|auto].
        -- intros (e' & Hin & Ht & Hd').
           apply elem_of_cons in Hin as [Heq|Hin].
           ++ injection Heq as -> ->. contradiction.
           ++ cbn [app]. do 2 right. apply Hwrites. eauto.
Qed.

(** A file written at least once, always with the same bytes, holds those
    bytes in the end. *)
Lemma output_files_lookup acts path data :
  write_file path data ∈ acts ->
  (forall data', write_file path data' ∈ acts -> data' = data) ->
  output_files acts !! path = Some data.
Proof.
  unfold output_files.
  assert (Hgen : forall (m : gmap string (list byte)),
    (m !! path = Some data \/ write_file path data ∈ acts) ->
    (forall data', write_file path data' ∈ acts -> data' = data) ->
    fold_left (fun m a => match a with write_file p d => <[p := d]> m | _ => m end)
              acts m !! path = Some data).
  { induction acts as [|a acts IH]; intros m Hm Hsame.
    - destruct Hm as [Hm|Hm]; [exact Hm|inversion Hm].
    - cbn [fold_left]. apply IH.
      + destruct Hm as [Hm|Hm].
        * left. destruct a; try exact Hm.
          destruct (decide (p = path)) as [->|Hne].
          -- rewrite lookup_insert_eq. f_equal. apply Hsame. left.
          -- now rewrite lookup_insert_ne.
        * apply elem_of_cons in Hm as [<-|Hm]; [|now right].
          left. apply lookup_insert_eq.
      + intros data' H'. apply Hsame. now right. }
  intros Hin Hsame. apply Hgen; [now right|exact Hsame].
Qed.

End ReadBack.

(** ** C1: the round trip *)

Section RoundTrip.

Variable host : Host.
Variable zstd : Zstd.
Variable basePath : fspath.
Variable internalBasePath : string.

Lemma u32_lor a b : Crc.u32 a -> Crc.u32 b -> Crc.u32 (Z.lor a b).
Proof.
  rewrite !CrcFacts.u32_shiftr_iff. intros [Ha Ha'] [Hb Hb']. split.
  - apply Z.lor_nonneg. lia.
  - rewrite Z.shiftr_lor, Ha', Hb'. reflexivity.
Qed.

Lemma FileTimeToDosDateTime_range ft : 0 <= FileTimeToDosDateTime host ft < 2 ^ 32.
Proof.
  unfold FileTimeToDosDateTime.
  destruct (FileTimeToDosDateTime_words host ft) as [dosDate dosTime].
  apply u32_lor.
  - apply Z.mod_pos_bound. lia.
  - pose proof (Z.mod_pos_bound dosTime (2 ^ 16) ltac:(lia)). unfold Crc.u32. lia.
Qed.

Lemma dir_entry_wf dirPath :
  Z.of_nat (String.length (dir_internalPath host basePath internalBasePath dirPath)) <= 65535 ->
  record_wf (dir_entry host basePath internalBasePath dirPath).
Proof.
  intros Hlen. unfold record_wf, entry_wf, dir_entry. cbn -[Z.pow FileTimeToDosDateTime].
  pose proof (FileTimeToDosDateTime_range
    {| dwLowDateTime := (fs_last_write_time host dirPath mod 2 ^ 64) mod 2 ^ 32;
       dwHighDateTime := (fs_last_write_time host dirPath mod 2 ^ 64) / 2 ^ 32 |}).
  pose proof (Z.mod_pos_bound (GetFileAttributesW host dirPath) (2 ^ 8) ltac:(lia)).
  rewrite (Z.mod_small (Z.of_nat (String.length _)) (2 ^ 16)) by lia.
  repeat split; try lia.
Qed.

Lemma file_record_wf filePath offset bytes csize :
  Z.of_nat (String.length (internalPath_of host basePath internalBasePath filePath)) <= 65535 ->
  record_wf (file_record host basePath internalBasePath filePath offset
               (Crc.crc32 bytes) (csize mod 2 ^ 64)).
Proof.
  intros Hlen. unfold record_wf, entry_wf, file_record. cbn -[Z.pow FileTimeToDosDateTime].
  match goal with |- context [FileTimeToDosDateTime host ?ft] =>
    pose proof (FileTimeToDosDateTime_range ft) end.
  pose proof (Z.mod_pos_bound (GetFileAttributesW host filePath) (2 ^ 8) ltac:(lia)).
  pose proof (Z.mod_pos_bound (fs_file_size host filePath) (2 ^ 64) ltac:(lia)).
  pose proof (Z.mod_pos_bound csize (2 ^ 64) ltac:(lia)).
  pose proof (Z.mod_pos_bound offset (2 ^ 64) ltac:(lia)).
  pose proof (CrcFacts.crc32_u32 bytes) as Hcrc. unfold Crc.u32 in Hcrc.
  rewrite (Z.mod_small (Z.of_nat (String.length _)) (2 ^ 16)) by lia.
  repeat split; try lia.
Qed.

(** Where the loop over the files puts each frame, and what it records. *)
Lemma stored_files_layout files start body records e path :
  stored_files host zstd basePath internalBasePath files start = Some (body, records) ->
  (e, path) ∈ records ->
  exists p bytes frame before after,
    p ∈ files /\ fs_ifstream host p = Some bytes /\ frame_of zstd bytes = Some frame /\
    (e, path) = file_record host basePath internalBasePath p
                  (Z.of_nat (start + length before)) (Crc.crc32 bytes)
                  (Z.of_nat (length frame) mod 2 ^ 64) /\
    body = before ++ frame ++ after.
Proof.
  revert start body records.
  induction files as [|p files IH]; intros start body records H Hin; cbn [stored_files] in H.
  - apply Some_inj in H. injection H as <- <-. inversion Hin.
  - destruct (fs_ifstream host p) as [bytes|] eqn:Hopen.
    + destruct (frame_of zstd bytes) as [frame|] eqn:Hframe; [|discriminate].
      destruct (stored_files _ _ _ _ files _) as [[body' records']|] eqn:Hrest;
        [|discriminate].
      apply Some_inj in H. injection H as <- <-.
      apply elem_of_cons in Hin as [Heq|Hin].
      * exists p, bytes, frame, [], body'. rewrite Nat.add_0_r.
        split; [left|]. repeat split; auto.
      * destruct (IH _ _ _ Hrest Hin) as (q & bytes' & frame' & before & after & Hq & Ho & Hf & Hr & Hb).
        exists q, bytes', frame', (frame ++ before), after.
        split; [now right|]. split; [exact Ho|]. split; [exact Hf|]. split.
        -- rewrite Hr. do 2 f_equal. rewrite length_app. lia.
        -- rewrite Hb. now rewrite <- app_assoc.
    + destruct (IH _ _ _ H Hin) as (q & bytes' & frame' & before & after & Hq & Hrest).
      exists q, bytes', frame', before, after. split; [now right|exact Hrest].
Qed.

Lemma first_match_Some name cd e :
  first_match name cd = Some e -> (e, name) ∈ cd.
Proof.
  unfold first_match. induction cd as [|[e' p] cd IH]; cbn [List.find snd]; [discriminate|].
  destruct (String.eqb_spec p name) as [->|_].
  - cbn. intros [= ->]. left.
  - intros H. right. now apply IH.
Qed.

(** The round trip over what [Create] gathered: for inputs that the format
    can hold and tell apart, with a codec that decodes what it encoded,
    [ExtractAll] on the archive (shorter than [2^62] bytes) runs to the end
    and yields, for every gathered file that opened with bytes [C], an
    output file written at its stored path whose contents are [C]. *)
Lemma Create_ExtractAll_gathered (inputPaths : list fspath) (archive : list byte) :
  codec_round_trip zstd ->
  storable host basePath internalBasePath inputPaths ->
  Create host zstd basePath internalBasePath inputPaths = Ok archive ->
  Z.of_nat (length archive) < 2 ^ 62 ->
  exists acts,
    ExtractAll zstd archive = (acts, Ok tt) /\
    forall p bytes,
      p ∈ filesToProcess (gather host inputPaths) ->
      fs_ifstream host p = Some bytes ->
      write_file (internalPath_of host basePath internalBasePath p) bytes ∈ acts /\
      output_files acts !! internalPath_of host basePath internalBasePath p = Some bytes.
Proof.
  intros Hcodec (Hdirs & Hfiles & Hsame & Hdistinct) Hcreate Hlen.
  rewrite Create_spec in Hcreate. cbv zeta in Hcreate.
  destruct (stored_files _ _ _ _ _ _) as [[body records]|] eqn:Hstored; [|discriminate].
  set (g := gather host inputPaths) in *.
  set (dirs := map (dir_entry host basePath internalBasePath) (std_sort (dirsToProcess g))) in *.
  set (cd := dirs ++ records) in *.
  set (h := {| magic := ACF_MAGIC; version := ACF_VERSION;
               centralDirOffset := Z.of_nat (sizeof_ACFHeader + length body) mod 2 ^ 64;
               entryCount := Z.of_nat (length cd) mod 2 ^ 64;
               centralDirCRC32 := Crc.crc32 (central_directory_bytes cd);
               reserved := 0 |}) in *.
  apply Ok_inj in Hcreate. subst archive.
  rewrite !length_app, length_ACFHeader_bytes in Hlen.
  pose proof (length_central_directory_bytes cd) as Hcdlen.
  unfold sizeof_ACFEntryData, sizeof_ACFHeader in *.
  destruct (stored_files_records _ _ _ _ _ _ _ _ Hstored) as [Htypes Hpaths].
  (* every file record comes from a gathered file that opened *)
  assert (Hrec : forall e path, (e, path) ∈ records ->
    exists p bytes frame before after,
      p ∈ filesToProcess g /\ fs_ifstream host p = Some bytes /\
      frame_of zstd bytes = Some frame /\
      (e, path) = file_record host basePath internalBasePath p
                    (Z.of_nat (32 + length before)) (Crc.crc32 bytes)
                    (Z.of_nat (length frame) mod 2 ^ 64) /\
      body = before ++ frame ++ after).
  { intros e path Hin.
    destruct (stored_files_layout _ _ _ _ _ _ Hstored Hin)
      as (p & bytes & frame & before & after & Hp & Hrest).
    exists p, bytes, frame, before, after. split; [|exact Hrest].
    now rewrite std_sort_perm in Hp. }
  (* the records are well formed *)
  assert (Hwf : Forall record_wf cd).
  { apply Forall_app. split.
    - apply Forall_fmap, Forall_forall. intros d Hd. apply dir_entry_wf, Hdirs.
      now rewrite std_sort_perm in Hd.
    - apply Forall_forall. intros [e path] Hin.
      destruct (Hrec e path Hin) as (p & bytes & frame & before & after & Hp & Ho & _ & -> & _).
      apply file_record_wf. apply Hfiles; [exact Hp|]. rewrite Ho. eauto. }
  (* the header read back is the one written *)
  assert (Hhdr : forall rest, header_of (ACFHeader_bytes h ++ rest) = h).
  { intros rest. apply header_of_written; try reflexivity;
      try (apply Z.mod_pos_bound; lia). apply CrcFacts.crc32_u32. }
  assert (Hoff : centralDirOffset h = Z.of_nat (32 + length body)).
  { unfold h. cbn [centralDirOffset]. apply Z.mod_small. lia. }
  assert (Hcount : entryCount h = Z.of_nat (length cd)).
  { unfold h. cbn [entryCount]. apply Z.mod_small. lia. }
  assert (Hmagic : magic h = ACF_MAGIC) by reflexivity.
  assert (Hcrc : centralDirCRC32 h = Crc.crc32 (central_directory_bytes cd))
    by reflexivity.
  clearbody h.
  set (archive := ACFHeader_bytes h ++ body ++ central_directory_bytes cd) in *.
  assert (Hcdof : central_directory_of archive = central_directory_bytes cd).
  { unfold central_directory_of, archive. rewrite Hhdr, Hoff, Nat2Z.id.
    rewrite app_assoc. apply drop_app_length'.
    now rewrite length_app, length_ACFHeader_bytes. }
  assert (Harchlen : length archive = (32 + length body + length (central_directory_bytes cd))%nat).
  { unfold archive. rewrite !length_app, length_ACFHeader_bytes.
    unfold sizeof_ACFHeader. lia. }
  assert (Hh : header_of archive = h) by apply Hhdr.
  assert (Hcdis : central_directory_is archive cd).
  { unfold central_directory_is. rewrite Hcdof, Hh, Harchlen, Hoff, Hcount, Nat2Z.id.
    unfold sizeof_ACFHeader.
    split; [lia|]. split; [lia|]. split; [exact Hmagic|]. split; [lia|].
    now apply parse_records_bytes. }
  assert (HList : List archive = Ok cd).
  { destruct Hcdis as (H1 & H2 & H3 & H4 & H5).
    rewrite List_inside by assumption.
    rewrite H3, Z.eqb_refl. cbn [negb].
    rewrite Hcdof, Hh in *.
    rewrite Hcrc, Z.eqb_refl. cbn [negb]. rewrite Hcount in *.
    destruct (Z.ltb_spec PTRDIFF_MAX (Z.of_nat (length cd) * sizeof_list_item)) as [Hbig|_].
    { unfold PTRDIFF_MAX, sizeof_list_item in Hbig. lia. }
    f_equal. now apply List_loop_parse. }
  (* extracting the path of a gathered file that opened yields its bytes *)
  assert (Hextract : forall p bytes,
    p ∈ filesToProcess g -> fs_ifstream host p = Some bytes ->
    (exists e, (e, internalPath_of host basePath internalBasePath p) ∈ records) /\
    ExtractData zstd archive (internalPath_of host basePath internalBasePath p) = Ok bytes).
  { intros p bytes Hp Hopen.
    set (path := internalPath_of host basePath internalBasePath p).
    assert (Hin : exists e, (e, path) ∈ records).
    { assert (Hpin : path ∈ map snd records).
      { rewrite Hpaths. apply list_elem_of_fmap. exists p. split; [reflexivity|].
        apply list_elem_of_filter. split; [rewrite Hopen; eauto|].
        now rewrite std_sort_perm. }
      apply list_elem_of_fmap in Hpin as ([e path'] & Heq & Hr).
      cbn [snd] in Heq. subst path'. eauto. }
    split; [exact Hin|]. destruct Hin as (e0 & Hin0).
    rewrite (ExtractData_spec zstd archive cd path Hcdis).
    destruct (first_match path cd) as [e1|] eqn:Hfirst.
    2:{ exfalso. rewrite first_match_None in Hfirst.
        apply (Hfirst (e0, path)); [|reflexivity]. apply elem_of_app. now right. }
    apply first_match_Some in Hfirst. apply elem_of_app in Hfirst as [Hd|Hr].
    { exfalso. apply list_elem_of_fmap in Hd as (d & Heq & Hd).
      apply (Hdistinct d p); [now rewrite std_sort_perm in Hd|exact Hp|rewrite Hopen; eauto|].
      unfold dir_entry in Heq. now injection Heq as _ <-. }
    destruct (Hrec e1 path Hr) as (q & bytes' & frame & before & after & Hq & Hoq & Hframe & Heq & Hbody).
    assert (Hpq : internalPath_of host basePath internalBasePath q = path).
    { unfold file_record in Heq. now injection Heq as _ <-. }
    assert (bytes' = bytes).
    { pose proof (Hsame q p Hq Hp ltac:(rewrite Hoq; eauto) ltac:(rewrite Hopen; eauto) Hpq) as E.
      rewrite Hoq, Hopen in E. now injection E. }
    subst bytes'.
    assert (He1 : e1 = (file_record host basePath internalBasePath q
                          (Z.of_nat (32 + length before)) (Crc.crc32 bytes)
                          (Z.of_nat (length frame) mod 2 ^ 64)).1)
      by (now rewrite <- Heq).
    unfold archive. rewrite Hbody.
    replace (ACFHeader_bytes h ++ (before ++ frame ++ after) ++ central_directory_bytes cd)
      with ((ACFHeader_bytes h ++ before) ++ frame ++ (after ++ central_directory_bytes cd))
      by (now rewrite <- !app_assoc).
    assert (Hlenb : length body = (length before + length frame + length after)%nat)
      by (rewrite Hbody, !length_app; lia).
    destruct (Hfiles q Hq ltac:(rewrite Hoq; eauto)) as [_ Hsize].
    apply ExtractData_entry_frame.
    - now apply Hcodec.
    - now rewrite He1.
    - rewrite He1. unfold file_record. cbn [fst dataOffset].
      rewrite length_app, length_ACFHeader_bytes. unfold sizeof_ACFHeader.
      apply Z.mod_small. lia.
    - rewrite length_app, length_ACFHeader_bytes. unfold sizeof_ACFHeader. lia.
    - rewrite He1. unfold file_record. cbn [fst compressedSize].
      apply Z.mod_small. lia.
    - rewrite He1. unfold file_record. cbn [fst originalSize].
      rewrite Z.mod_small by (unfold PTRDIFF_MAX in Hsize; lia). lia.
    - rewrite He1. reflexivity. }
  (* the loop of ExtractAll *)
  destruct (ExtractAll_loop_ok zstd archive cd) as (acts & Hloop & Hwrites).
  { intros e path Hin Htype. apply elem_of_app in Hin as [Hd|Hr].
    - exfalso. apply list_elem_of_fmap in Hd as (d & Heq & _).
      unfold dir_entry in Heq. injection Heq as -> _. discriminate.
    - destruct (Hrec e path Hr) as (q & bytes' & frame & before & after & Hq & Hoq & _ & Heq & _).
      exists bytes'. replace path with (internalPath_of host basePath internalBasePath q).
      + now apply Hextract.
      + unfold file_record in Heq. now injection Heq as _ <-. }
  exists acts. split; [unfold ExtractAll; now rewrite HList|].
  intros p bytes Hp Hopen.
  destruct (Hextract p bytes Hp Hopen) as [(e0 & Hin0) Hdata].
  assert (Hwritten : write_file (internalPath_of host basePath internalBasePath p) bytes ∈ acts).
  { apply Hwrites. exists e0. split; [apply elem_of_app; now right|]. split; [|exact Hdata].
    rewrite Forall_forall in Htypes. now destruct (Htypes _ Hin0) as [Ht _]. }
  split; [exact Hwritten|].
  apply output_files_lookup; [exact Hwritten|].
  intros data' Hin'. apply Hwrites in Hin' as (_ & _ & _ & Hd').
  rewrite Hdata in Hd'. now injection Hd'.
Qed.

End RoundTrip.

(** The stand-in codec decodes what it encoded, and the sample inputs are
    storable. *)
Section RoundTripSample.

Import Demo.

Lemma compress_blocks_stored cs bs : compress_blocks stored cs bs = (tt, concat bs).
Proof.
  revert cs. induction bs as [|b bs IH]; intros cs; [now destruct cs|].
  cbn [compress_blocks]. cbn [ZSTD_compressStream stored]. now rewrite IH.
Qed.

Lemma decompress_blocks_stored ds bs : decompress_blocks stored ds bs = Some (concat bs).
Proof.
  revert ds. induction bs as [|b bs IH]; intros ds; [reflexivity|].
  cbn [decompress_blocks]. cbn [ZSTD_decompressStream stored]. now rewrite IH.
Qed.

Lemma stored_round_trip : codec_round_trip stored.
Proof.
  intros bytes frame. unfold frame_of, decode_frame.
  rewrite compress_blocks_stored, decompress_blocks_stored, !concat_blocks.
  cbn [ZSTD_endStream stored]. rewrite app_nil_r. congruence.
Qed.

Lemma sample_gathered :
  dirsToProcess (gather sample_host [["root"%string]]) =
    [["root"]; ["root"; "a"]]%string /\
  filesToProcess (gather sample_host [["root"%string]]) =
    [["root"; "a"; "b"]; ["root"; "a.txt"]]%string.
Proof. split; vm_compute; reflexivity. Qed.

Lemma sample_storable : storable sample_host [] "" [["root"%string]].
Proof.
  destruct sample_gathered as [Hd Hf].
  unfold storable. cbv zeta. rewrite Hd, Hf.
  split; [|split; [|split]].
  - intros d Hin. repeat (apply elem_of_cons in Hin as [->|Hin]; [vm_compute; congruence|]).
    inversion Hin.
  - intros p Hin _.
    repeat (apply elem_of_cons in Hin as [->|Hin];
            [split; [|split]; vm_compute; congruence|]).
    inversion Hin.
  - intros p q Hp Hq _ _.
    repeat (apply elem_of_cons in Hp as [->|Hp]);
      try (inversion Hp; fail);
      repeat (apply elem_of_cons in Hq as [->|Hq]);
      try (inversion Hq; fail);
      vm_compute; congruence.
  - intros d p Hd' Hp _.
    repeat (apply elem_of_cons in Hd' as [->|Hd']);
      try (inversion Hd'; fail);
      repeat (apply elem_of_cons in Hp as [->|Hp]);
      try (inversion Hp; fail);
      vm_compute; congruence.
Qed.

End RoundTripSample.

Example ExtractAll_sample_output :
  output_files (ExtractAll Demo.stored Demo.sample_archive).1 !! "root\a.txt"%string
    = Some (list_byte_of_string "hello").
Proof. vm_compute. reflexivity. Qed.

(** ** The decompression loop always reaches its exit *)

Section Fuel.

Variable zstd : Zstd.

(** With a non-empty input buffer every turn of the loop reads at least
    one byte, so [Z.to_nat (compressedSize - totalRead)] turns suffice:
    more fuel does not change the outcome. *)
Lemma ExtractData_loop_fuel fuel fuel' ds inBuff s totalRead csize out :
  (0 < length inBuff)%nat ->
  (Z.to_nat (csize - totalRead) <= fuel)%nat ->
  (Z.to_nat (csize - totalRead) <= fuel')%nat ->
  ExtractData_loop zstd fuel ds inBuff s totalRead csize out =
  ExtractData_loop zstd fuel' ds inBuff s totalRead csize out.
Proof.
  revert fuel' ds inBuff s totalRead out.
  induction fuel as [|fuel IH]; intros fuel' ds inBuff s totalRead out Hbuf Hf Hf'.
  - rewrite ExtractData_loop_O.
    destruct (Z.ltb_spec totalRead csize) as [Hlt|Hge]; [lia|].
    destruct fuel'; [rewrite ExtractData_loop_O|rewrite ExtractData_loop_S];
      destruct (Z.ltb_spec totalRead csize); try lia; reflexivity.
  - rewrite ExtractData_loop_S.
    destruct fuel' as [|fuel'].
    + rewrite ExtractData_loop_O.
      destruct (Z.ltb_spec totalRead csize); [lia|reflexivity].
    + rewrite ExtractData_loop_S.
      destruct (Z.ltb_spec totalRead csize) as [Hlt|Hge]; [|reflexivity].
      cbv zeta.
      set (toRead := Z.to_nat (Z.min (Z.of_nat (length inBuff)) (csize - totalRead))).
      assert (HtoRead : (0 < toRead <= length inBuff)%nat) by (unfold toRead; lia).
      destruct (ZSTD_decompressStream zstd ds _) as [[ds' o]|]; [|reflexivity].
      apply IH.
      * rewrite BytesFacts.length_overlay; [lia|].
        rewrite read_fst, length_take. lia.
      * lia.
      * lia.
Qed.

End Fuel.

(** * Further properties of the engine *)

(** ** A created archive, read back *)

Section CreatedArchive.

Variable host : Host.
Variable zstd : Zstd.
Variable basePath : fspath.
Variable internalBasePath : string.

Lemma Create_central_directory_spec inputPaths :
  Create_central_directory host zstd basePath internalBasePath inputPaths =
    match stored_files host zstd basePath internalBasePath
            (std_sort (filesToProcess (gather host inputPaths))) sizeof_ACFHeader with
    | Some (_, records) =>
      Some (map (dir_entry host basePath internalBasePath)
                (std_sort (dirsToProcess (gather host inputPaths))) ++ records)
    | None => None
    end.
Proof.
  unfold Create_central_directory. rewrite Create_entries_spec.
  now destruct (stored_files _ _ _ _ _ _) as [[body records]|].
Qed.

(** The shape of the archive [Create] returns, and what a reader finds in
    it when the stored paths fit. *)
Lemma Create_readback inputPaths archive :
  Create host zstd basePath internalBasePath inputPaths = Ok archive ->
  paths_fit host basePath internalBasePath inputPaths ->
  Z.of_nat (length archive) < 2 ^ 62 ->
  exists body records,
    let cd := map (dir_entry host basePath internalBasePath)
                  (std_sort (dirsToProcess (gather host inputPaths))) ++ records in
    stored_files host zstd basePath internalBasePath
      (std_sort (filesToProcess (gather host inputPaths))) sizeof_ACFHeader
      = Some (body, records) /\
    archive = ACFHeader_bytes (header_of archive) ++ body ++ central_directory_bytes cd /\
    centralDirOffset (header_of archive) = Z.of_nat (32 + length body) /\
    central_directory_is archive cd /\
    List archive = Ok cd.
Proof.
  intros Hcreate [Hdirs Hfiles] Hlen.
  rewrite Create_spec in Hcreate. cbv zeta in Hcreate.
  destruct (stored_files _ _ _ _ _ _) as [[body records]|] eqn:Hstored; [|discriminate].
  exists body, records. cbv zeta.
  set (g := gather host inputPaths) in *.
  set (cd := map (dir_entry host basePath internalBasePath) (std_sort (dirsToProcess g))
             ++ records) in *.
  set (h := {| magic := ACF_MAGIC; version := ACF_VERSION;
               centralDirOffset := Z.of_nat (sizeof_ACFHeader + length body) mod 2 ^ 64;
               entryCount := Z.of_nat (length cd) mod 2 ^ 64;
               centralDirCRC32 := Crc.crc32 (central_directory_bytes cd);
               reserved := 0 |}) in *.
  apply Ok_inj in Hcreate. subst archive.
  rewrite !length_app, length_ACFHeader_bytes in Hlen.
  pose proof (length_central_directory_bytes cd) as Hcdlen.
  unfold sizeof_ACFEntryData, sizeof_ACFHeader in *.
  assert (Hwf : Forall record_wf cd).
  { apply Forall_app. split.
    - apply Forall_fmap, Forall_forall. intros d Hd. apply dir_entry_wf, Hdirs.
      now rewrite std_sort_perm in Hd.
    - apply Forall_forall. intros [e path] Hin.
      destruct (stored_files_layout _ _ _ _ _ _ _ _ _ _ Hstored Hin)
        as (p & bytes & frame & before & after & Hp & Ho & _ & -> & _).
      apply file_record_wf. apply Hfiles; [now rewrite std_sort_perm in Hp|].
      rewrite Ho. eauto. }
  assert (Hhdr : forall rest, header_of (ACFHeader_bytes h ++ rest) = h).
  { intros rest. apply header_of_written; try reflexivity;
      try (apply Z.mod_pos_bound; lia). apply CrcFacts.crc32_u32. }
  assert (Hoff : centralDirOffset h = Z.of_nat (32 + length body)).
  { unfold h. cbn [centralDirOffset]. apply Z.mod_small. lia. }
  assert (Hcount : entryCount h = Z.of_nat (length cd)).
  { unfold h. cbn [entryCount]. apply Z.mod_small. lia. }
  assert (Hmagic : magic h = ACF_MAGIC) by reflexivity.
  assert (Hcrc : centralDirCRC32 h = Crc.crc32 (central_directory_bytes cd))
    by reflexivity.
  clearbody h.
  set (archive := ACFHeader_bytes h ++ body ++ central_directory_bytes cd) in *.
  assert (Hh : header_of archive = h) by apply Hhdr.
  assert (Hcdof : central_directory_of archive = central_directory_bytes cd).
  { unfold central_directory_of. rewrite Hh, Hoff, Nat2Z.id. unfold archive.
    rewrite app_assoc. apply drop_app_length'.
    now rewrite length_app, length_ACFHeader_bytes. }
  assert (Harchlen : length archive
                     = (32 + length body + length (central_directory_bytes cd))%nat).
  { unfold archive. rewrite !length_app, length_ACFHeader_bytes.
    unfold sizeof_ACFHeader. lia. }
  assert (Hcdis : central_directory_is archive cd).
  { unfold central_directory_is. rewrite Hcdof, Hh, Harchlen, Hoff, Hcount, Nat2Z.id.
    unfold sizeof_ACFHeader.
    split; [lia|]. split; [lia|]. split; [exact Hmagic|]. split; [lia|].
    now apply parse_records_bytes. }
  split; [reflexivity|]. split; [now rewrite Hh|]. split; [now rewrite Hh|].
  split; [exact Hcdis|].
  destruct Hcdis as (H1 & H2 & H3 & H4 & H5).
  rewrite List_inside by assumption.
  rewrite H3, Z.eqb_refl. cbn [negb].
  rewrite Hcdof, Hh in *.
  rewrite Hcrc, Z.eqb_refl. cbn [negb]. rewrite Hcount in *.
  destruct (Z.ltb_spec PTRDIFF_MAX (Z.of_nat (length cd) * sizeof_list_item)) as [Hbig|_].
  { unfold PTRDIFF_MAX, sizeof_list_item in Hbig. lia. }
  f_equal. now apply List_loop_parse.
Qed.

End CreatedArchive.

Section CreatedArchiveLookup.

Variable host : Host.
Variable zstd : Zstd.
Variable basePath : fspath.
Variable internalBasePath : string.

Lemma storable_paths_fit inputPaths :
  storable host basePath internalBasePath inputPaths ->
  paths_fit host basePath internalBasePath inputPaths.
Proof.
  intros (Hd & Hf & _ & _). split; [exact Hd|].
  intros p Hp Ho. now destruct (Hf p Hp Ho).
Qed.

Lemma first_match_app_l name l1 l2 e0 :
  (e0, name) ∈ l1 ->
  exists e, first_match name (l1 ++ l2) = Some e /\ (e, name) ∈ l1.
Proof.
  unfold first_match. induction l1 as [|[e p] l1 IH]; intros Hin; [inversion Hin|].
  cbn [app List.find snd]. destruct (String.eqb_spec p name) as [->|Hne].
  - exists e. split; [reflexivity|left].
  - apply elem_of_cons in Hin as [Heq|Hin]; [congruence|].
    destruct (IH Hin) as (e' & H1 & H2). exists e'. split; [exact H1|now right].
Qed.

(** X1. Listing a created archive returns exactly the central directory
    [Create] built, record for record and in the same order, provided the
    stored paths fit the 16-bit [pathLength] and the archive is shorter than
    [2^62] bytes. *)
Theorem List_Create (inputPaths : list fspath) (archive : list byte) :
  Create host zstd basePath internalBasePath inputPaths = Ok archive ->
  paths_fit host basePath internalBasePath inputPaths ->
  Z.of_nat (length archive) < 2 ^ 62 ->
  exists cd,
    Create_central_directory host zstd basePath internalBasePath inputPaths = Some cd /\
    List archive = Ok cd.
Proof.
  intros Hcreate Hfit Hlen.
  destruct (Create_readback _ _ _ _ _ _ Hcreate Hfit Hlen)
    as (body & records & Hstored & _ & _ & _ & HList).
  eexists. split; [|exact HList].
  rewrite Create_central_directory_spec. now rewrite Hstored.
Qed.

(** X2. Every file record of a created archive describes its source: the
    recorded CRC is the CRC-32 of the whole source file (accumulated block
    by block), the recorded compressed size is the length of the frame, and
    the frame occupies the byte range [[dataOffset, dataOffset +
    compressedSize)], which lies after the header and before the central
    directory. *)
Theorem Create_file_records (inputPaths : list fspath) (archive : list byte)
    (cd : list (ACFEntryData * string)) (e : ACFEntryData) (path : string) :
  Create host zstd basePath internalBasePath inputPaths = Ok archive ->
  Create_central_directory host zstd basePath internalBasePath inputPaths = Some cd ->
  Z.of_nat (length archive) < 2 ^ 64 ->
  (e, path) ∈ cd ->
  type e = EntryType_value File ->
  exists p bytes frame,
    p ∈ filesToProcess (gather host inputPaths) /\
    fs_ifstream host p = Some bytes /\
    path = internalPath_of host basePath internalBasePath p /\
    frame_of zstd bytes = Some frame /\
    crc32 e = Crc.crc32 bytes /\
    compressedSize e = Z.of_nat (length frame) /\
    Z.of_nat sizeof_ACFHeader <= dataOffset e /\
    dataOffset e + compressedSize e <= centralDirOffset (header_of archive) /\
    take (length frame) (drop (Z.to_nat (dataOffset e)) archive) = frame.
Proof.
  intros Hcreate Hcd Hlen Hin Htype.
  rewrite Create_spec in Hcreate. rewrite Create_central_directory_spec in Hcd.
  cbv zeta in Hcreate.
  destruct (stored_files _ _ _ _ _ _) as [[body records]|] eqn:Hstored; [|discriminate].
  apply Some_inj in Hcd. subst cd. apply Ok_inj in Hcreate. subst archive.
  rewrite !length_app, length_ACFHeader_bytes in Hlen.
  unfold sizeof_ACFHeader in *.
  apply elem_of_app in Hin as [Hd|Hr].
  { exfalso. apply list_elem_of_fmap in Hd as (d & Heq & _).
    unfold dir_entry in Heq. injection Heq as -> _. discriminate. }
  destruct (stored_files_layout _ _ _ _ _ _ _ _ _ _ Hstored Hr)
    as (p & bytes & frame & before & after & Hp & Ho & Hframe & Heq & Hbody).
  exists p, bytes, frame.
  assert (Hlenb : length body = (length before + length frame + length after)%nat)
    by (rewrite Hbody, !length_app; lia).
  assert (He : e = (file_record host basePath internalBasePath p
                      (Z.of_nat (32 + length before)) (Crc.crc32 bytes)
                      (Z.of_nat (length frame) mod 2 ^ 64)).1)
    by (now rewrite <- Heq).
  assert (Hpath : path = internalPath_of host basePath internalBasePath p)
    by (unfold file_record in Heq; now injection Heq).
  clear Heq Hr. subst e path.
  unfold file_record. cbn [fst crc32 compressedSize dataOffset].
  rewrite header_of_written; cbn [centralDirOffset entryCount magic version reserved
                                  centralDirCRC32];
    try reflexivity; try (apply Z.mod_pos_bound; lia); try apply CrcFacts.crc32_u32.
  rewrite !Z.mod_small by lia.
  split; [now rewrite std_sort_perm in Hp|]. split; [exact Ho|].
  split; [reflexivity|]. split; [exact Hframe|]. split; [reflexivity|].
  split; [reflexivity|]. split; [lia|]. split; [lia|].
  rewrite Nat2Z.id, Hbody, <- !app_assoc, <- drop_drop.
  rewrite drop_app_length' by (now rewrite length_ACFHeader_bytes).
  now rewrite drop_app_length, take_app_length.
Qed.

(** X3. [ExtractData] on a created archive returns, for the stored path of
    every gathered file that opened, the bytes of that file. *)
Theorem Create_ExtractData (inputPaths : list fspath) (archive : list byte)
    (p : fspath) (bytes : list byte) :
  codec_round_trip zstd ->
  storable host basePath internalBasePath inputPaths ->
  Create host zstd basePath internalBasePath inputPaths = Ok archive ->
  Z.of_nat (length archive) < 2 ^ 62 ->
  p ∈ filesToProcess (gather host inputPaths) ->
  fs_ifstream host p = Some bytes ->
  ExtractData zstd archive (internalPath_of host basePath internalBasePath p) = Ok bytes.
Proof.
  intros Hcodec Hstorable Hcreate Hlen Hp Hopen.
  pose proof (storable_paths_fit _ Hstorable) as Hfit.
  destruct Hstorable as (_ & Hfiles & Hsame & Hdistinct).
  destruct (Create_readback _ _ _ _ _ _ Hcreate Hfit Hlen)
    as (body & records & Hstored & Harch & Hoff & Hcdis & _).
  cbv zeta in *.
  set (g := gather host inputPaths) in *.
  set (cd := map (dir_entry host basePath internalBasePath) (std_sort (dirsToProcess g))
             ++ records) in *.
  set (path := internalPath_of host basePath internalBasePath p).
  destruct (stored_files_records _ _ _ _ _ _ _ _ Hstored) as [_ Hpaths].
  assert (Hin : exists e, (e, path) ∈ records).
  { assert (Hpin : path ∈ map snd records).
    { rewrite Hpaths. apply list_elem_of_fmap. exists p. split; [reflexivity|].
      apply list_elem_of_filter. split; [rewrite Hopen; eauto|].
      now rewrite std_sort_perm. }
    apply list_elem_of_fmap in Hpin as ([e path'] & Heq & Hr).
    cbn [snd] in Heq. subst path'. eauto. }
  destruct Hin as (e0 & Hin0).
  rewrite (ExtractData_spec zstd archive cd path Hcdis).
  destruct (first_match path cd) as [e1|] eqn:Hfirst.
  2:{ exfalso. rewrite first_match_None in Hfirst.
      apply (Hfirst (e0, path)); [|reflexivity]. apply elem_of_app. now right. }
  apply first_match_Some in Hfirst. apply elem_of_app in Hfirst as [Hd|Hr].
  { exfalso. apply list_elem_of_fmap in Hd as (d & Heq & Hd).
    apply (Hdistinct d p); [now rewrite std_sort_perm in Hd|exact Hp|rewrite Hopen; eauto|].
    unfold dir_entry in Heq. now injection Heq as _ <-. }
  destruct (stored_files_layout _ _ _ _ _ _ _ _ _ _ Hstored Hr)
    as (q & bytes' & frame & before & after & Hq & Hoq & Hframe & Heq & Hbody).
  rewrite std_sort_perm in Hq.
  assert (Hpq : internalPath_of host basePath internalBasePath q = path).
  { unfold file_record in Heq. now injection Heq as _ <-. }
  assert (bytes' = bytes).
  { pose proof (Hsame q p Hq Hp ltac:(rewrite Hoq; eauto) ltac:(rewrite Hopen; eauto) Hpq) as E.
    rewrite Hoq, Hopen in E. now injection E. }
  subst bytes'.
  assert (He1 : e1 = (file_record host basePath internalBasePath q
                        (Z.of_nat (sizeof_ACFHeader + length before)) (Crc.crc32 bytes)
                        (Z.of_nat (length frame) mod 2 ^ 64)).1)
    by (now rewrite <- Heq).
  assert (Hlenb : length body = (length before + length frame + length after)%nat)
    by (rewrite Hbody, !length_app; lia).
  assert (Hlen' : Z.of_nat (32 + length body) < 2 ^ 62).
  { rewrite Harch in Hlen. rewrite !length_app, length_ACFHeader_bytes in Hlen.
    unfold sizeof_ACFHeader in Hlen. lia. }
  destruct (Hfiles q Hq ltac:(rewrite Hoq; eauto)) as [_ Hsize].
  rewrite Harch, Hbody.
  replace (ACFHeader_bytes (header_of archive) ++ (before ++ frame ++ after)
           ++ central_directory_bytes cd)
    with ((ACFHeader_bytes (header_of archive) ++ before) ++ frame
          ++ (after ++ central_directory_bytes cd))
    by (now rewrite <- !app_assoc).
  unfold sizeof_ACFHeader in *.
  apply ExtractData_entry_frame.
  - now apply Hcodec.
  - now rewrite He1.
  - rewrite He1. unfold file_record. cbn [fst dataOffset].
    rewrite length_app, length_ACFHeader_bytes. unfold sizeof_ACFHeader.
    apply Z.mod_small. lia.
  - rewrite length_app, length_ACFHeader_bytes. unfold sizeof_ACFHeader. lia.
  - rewrite He1. unfold file_record. cbn [fst compressedSize].
    apply Z.mod_small. lia.
  - rewrite He1. unfold file_record. cbn [fst originalSize].
    rewrite Z.mod_small by (unfold PTRDIFF_MAX in Hsize; lia). lia.
  - rewrite He1. reflexivity.
Qed.

(** X4. [ExtractData] on a created archive fails with [InvalidOperation]
    for the stored path of every gathered directory: the directory records
    come first, so the first match is a directory. *)
Theorem Create_ExtractData_directory (inputPaths : list fspath) (archive : list byte)
    (d : fspath) :
  Create host zstd basePath internalBasePath inputPaths = Ok archive ->
  paths_fit host basePath internalBasePath inputPaths ->
  Z.of_nat (length archive) < 2 ^ 62 ->
  d ∈ dirsToProcess (gather host inputPaths) ->
  ExtractData zstd archive (dir_internalPath host basePath internalBasePath d)
    = Throw InvalidOperation.
Proof.
  intros Hcreate Hfit Hlen Hd.
  destruct (Create_readback _ _ _ _ _ _ Hcreate Hfit Hlen)
    as (body & records & _ & _ & _ & Hcdis & _).
  cbv zeta in Hcdis.
  rewrite (ExtractData_spec zstd archive _ _ Hcdis).
  destruct (first_match_app_l (dir_internalPath host basePath internalBasePath d)
              (map (dir_entry host basePath internalBasePath)
                 (std_sort (dirsToProcess (gather host inputPaths))))
              records (dir_entry host basePath internalBasePath d).1)
    as (e & -> & Hin).
  { apply list_elem_of_fmap. exists d. split; [reflexivity|]. now rewrite std_sort_perm. }
  apply list_elem_of_fmap in Hin as (d' & Heq & _).
  unfold dir_entry in Heq. injection Heq as -> _. reflexivity.
Qed.

End CreatedArchiveLookup.

Lemma List_Create_witness :
  exists cd,
    Create_central_directory Demo.sample_host Demo.stored [] "" [["root"%string]] = Some cd /\
    List Demo.sample_archive = Ok cd.
Proof.
  apply (List_Create Demo.sample_host Demo.stored [] "" [["root"%string]]
           Demo.sample_archive).
  - vm_compute. reflexivity.
  - apply storable_paths_fit. exact sample_storable.
  - vm_compute. reflexivity.
Defined.

Lemma Create_file_records_witness :
  exists p bytes frame,
    p ∈ filesToProcess (gather Demo.sample_host [["root"%string]]) /\
    fs_ifstream Demo.sample_host p = Some bytes /\
    "root\a.txt"%string = internalPath_of Demo.sample_host [] "" p /\
    frame_of Demo.stored bytes = Some frame /\
    crc32 (Demo.stored_entry 36 (list_byte_of_string "hello") "root\a.txt") =
      Crc.crc32 bytes /\
    compressedSize (Demo.stored_entry 36 (list_byte_of_string "hello") "root\a.txt") =
      Z.of_nat (length frame) /\
    Z.of_nat sizeof_ACFHeader <=
      dataOffset (Demo.stored_entry 36 (list_byte_of_string "hello") "root\a.txt") /\
    dataOffset (Demo.stored_entry 36 (list_byte_of_string "hello") "root\a.txt") +
      compressedSize (Demo.stored_entry 36 (list_byte_of_string "hello") "root\a.txt") <=
      centralDirOffset (header_of Demo.sample_archive) /\
    take (length frame)
      (drop (Z.to_nat (dataOffset
               (Demo.stored_entry 36 (list_byte_of_string "hello") "root\a.txt")))
         Demo.sample_archive) = frame.
Proof.
  apply (Create_file_records Demo.sample_host Demo.stored [] "" [["root"%string]]
           Demo.sample_archive Demo.sample_cd).
  - vm_compute. reflexivity.
  - vm_compute. reflexivity.
  - vm_compute. reflexivity.
  - apply (list_elem_of_lookup_2 _ 3%nat). vm_compute. reflexivity.
  - reflexivity.
Defined.

Lemma Create_ExtractData_witness :
  ExtractData Demo.stored Demo.sample_archive
    (internalPath_of Demo.sample_host [] "" ["root"; "a.txt"]%string)
    = Ok (list_byte_of_string "hello").
Proof.
  apply (Create_ExtractData Demo.sample_host Demo.stored [] "" [["root"%string]]).
  - exact stored_round_trip.
  - exact sample_storable.
  - vm_compute. reflexivity.
  - vm_compute. reflexivity.
  - apply (list_elem_of_lookup_2 _ 1%nat). vm_compute. reflexivity.
  - vm_compute. reflexivity.
Defined.

Lemma Create_ExtractData_directory_witness :
  ExtractData Demo.stored Demo.sample_archive
    (dir_internalPath Demo.sample_host [] "" ["root"; "a"]%string)
    = Throw InvalidOperation.
Proof.
  apply (Create_ExtractData_directory Demo.sample_host Demo.stored [] ""
           [["root"%string]]).
  - vm_compute. reflexivity.
  - apply storable_paths_fit. exact sample_storable.
  - vm_compute. reflexivity.
  - apply (list_elem_of_lookup_2 _ 1%nat). vm_compute. reflexivity.
Defined.

(** ** What [Create] gathers and stores *)

Section CreateFacts.

Variable host : Host.
Variable zstd : Zstd.
Variable basePath : fspath.
Variable internalBasePath : string.

Ltac in_processed :=
  apply elem_of_union; first [now right | left; now apply elem_of_singleton].

Lemma gathered_ok_add_dir g p :
  gathered_ok host g -> p ∉ processedPaths g -> fs_is_directory host p = true ->
  gathered_ok host {| processedPaths := {[p]} ∪ processedPaths g;
                 dirsToProcess := dirsToProcess g ++ [p];
                 filesToProcess := filesToProcess g |}.
Proof.
  intros (Hd & Hf & Hdirs & Hfiles) Hnew Hdir. unfold gathered_ok. cbn.
  split; [|split; [exact Hf|split]].
  - apply NoDup_app. split; [exact Hd|]. split; [|apply NoDup_singleton].
    intros x Hx Hx'. apply list_elem_of_singleton in Hx'. subst x.
    apply Hnew. now apply Hdirs.
  - intros d Hin. apply elem_of_app in Hin as [Hin|Hin].
    + destruct (Hdirs d Hin). split; [in_processed|assumption].
    + apply list_elem_of_singleton in Hin. subst d. split; [in_processed|assumption].
  - intros q Hin. destruct (Hfiles q Hin) as (? & ? & ?). repeat split; [in_processed|..]; assumption.
Qed.

Lemma gathered_ok_add_file g p :
  gathered_ok host g -> p ∉ processedPaths g ->
  fs_is_directory host p = false -> fs_is_regular_file host p = true ->
  gathered_ok host {| processedPaths := {[p]} ∪ processedPaths g;
                 dirsToProcess := dirsToProcess g;
                 filesToProcess := filesToProcess g ++ [p] |}.
Proof.
  intros (Hd & Hf & Hdirs & Hfiles) Hnew Hdir Hreg. unfold gathered_ok. cbn.
  split; [exact Hd|split; [|split]].
  - apply NoDup_app. split; [exact Hf|]. split; [|apply NoDup_singleton].
    intros x Hx Hx'. apply list_elem_of_singleton in Hx'. subst x.
    apply Hnew. now apply Hfiles.
  - intros d Hin. destruct (Hdirs d Hin). split; [in_processed|assumption].
  - intros q Hin. apply elem_of_app in Hin as [Hin|Hin].
    + destruct (Hfiles q Hin) as (? & ? & ?). repeat split; [in_processed|..]; assumption.
    + apply list_elem_of_singleton in Hin. subst q. repeat split; [in_processed|..]; assumption.
Qed.

Lemma gathered_ok_add_other g p :
  gathered_ok host g ->
  gathered_ok host {| processedPaths := {[p]} ∪ processedPaths g;
                 dirsToProcess := dirsToProcess g;
                 filesToProcess := filesToProcess g |}.
Proof.
  intros (Hd & Hf & Hdirs & Hfiles). unfold gathered_ok. cbn.
  split; [exact Hd|split; [exact Hf|split]].
  - intros d Hin. destruct (Hdirs d Hin). split; [in_processed|assumption].
  - intros q Hin. destruct (Hfiles q Hin) as (? & ? & ?). repeat split; [in_processed|..]; assumption.
Qed.

Lemma gather_dir_entry_ok g p : gathered_ok host g -> gathered_ok host (gather_dir_entry host g p).
Proof.
  intros Hg. unfold gather_dir_entry.
  destruct (bool_decide_reflect (p ∈ processedPaths g)) as [|Hnew]; [exact Hg|].
  destruct (fs_is_directory host p) eqn:Hdir.
  - now apply gathered_ok_add_dir.
  - destruct (fs_is_regular_file host p) eqn:Hreg.
    + now apply gathered_ok_add_file.
    + now apply gathered_ok_add_other.
Qed.

Lemma fold_gather_dir_entry_ok l g :
  gathered_ok host g -> gathered_ok host (fold_left (gather_dir_entry host) l g).
Proof.
  revert g. induction l as [|p l IH]; intros g Hg; [exact Hg|].
  cbn [fold_left]. apply IH. now apply gather_dir_entry_ok.
Qed.

Lemma gather_input_ok g p : gathered_ok host g -> gathered_ok host (gather_input host g p).
Proof.
  intros Hg. unfold gather_input.
  destruct (negb (fs_exists host p)); [exact Hg|]. cbn [orb].
  destruct (bool_decide_reflect (p ∈ processedPaths g)) as [|Hnew]; [exact Hg|].
  destruct (fs_is_directory host p) eqn:Hdir.
  - apply fold_gather_dir_entry_ok. now apply gathered_ok_add_dir.
  - destruct (fs_is_regular_file host p) eqn:Hreg; [|exact Hg].
    now apply gathered_ok_add_file.
Qed.

Lemma gather_ok inputPaths : gathered_ok host (gather host inputPaths).
Proof.
  unfold gather.
  assert (H0 : gathered_ok host {| processedPaths := ∅; dirsToProcess := [];
                              filesToProcess := [] |}).
  { unfold gathered_ok. cbn.
    split; [apply NoDup_nil_2|]. split; [apply NoDup_nil_2|].
    split; intros x Hx; inversion Hx. }
  revert H0. generalize {| processedPaths := ∅; dirsToProcess := []; filesToProcess := [] |}.
  induction inputPaths as [|p l IH]; intros g Hg; [exact Hg|].
  cbn [fold_left]. apply IH. now apply gather_input_ok.
Qed.

(** X5. The enumeration of [Create] gathers no path twice, gathers as
    directories only paths that are directories and as files only paths that
    are regular files and not directories; no path is gathered as both. *)
Theorem gather_invariants (inputPaths : list fspath) :
  let g := gather host inputPaths in
  NoDup (dirsToProcess g) /\ NoDup (filesToProcess g) /\
  (forall d, d ∈ dirsToProcess g -> fs_is_directory host d = true) /\
  (forall p, p ∈ filesToProcess g ->
     fs_is_directory host p = false /\ fs_is_regular_file host p = true) /\
  (forall p, p ∈ dirsToProcess g -> p ∉ filesToProcess g).
Proof.
  cbv zeta. destruct (gather_ok inputPaths) as (Hd & Hf & Hdirs & Hfiles).
  split; [exact Hd|]. split; [exact Hf|]. split; [|split].
  - intros d Hin. now destruct (Hdirs d Hin).
  - intros p Hin. now destruct (Hfiles p Hin) as (_ & ? & ?).
  - intros p Hin Hin'. destruct (Hdirs p Hin) as [_ H1].
    destruct (Hfiles p Hin') as (_ & H2 & _). congruence.
Qed.

Lemma stored_files_None files start :
  stored_files host zstd basePath internalBasePath files start = None <->
  exists p bytes, p ∈ files /\ fs_ifstream host p = Some bytes /\ frame_of zstd bytes = None.
Proof.
  revert start. induction files as [|f files IH]; intros start; cbn [stored_files].
  - split; [discriminate|]. intros (p & ? & Hin & _). inversion Hin.
  - destruct (fs_ifstream host f) as [bytes|] eqn:Hopen.
    + destruct (frame_of zstd bytes) as [frame|] eqn:Hframe.
      * destruct (stored_files _ _ _ _ files (start + length frame)) as [[b r]|] eqn:E.
        -- split; [discriminate|]. intros (p & bs & Hin & Ho & Hf).
           apply elem_of_cons in Hin as [->|Hin]; [congruence|].
           assert (H : stored_files host zstd basePath internalBasePath files
                         (start + length frame) = None) by (apply IH; eauto).
           congruence.
        -- split; [intros _|reflexivity]. apply IH in E as (p & bs & Hin & Ho & Hf).
           exists p, bs. split; [now right|]. now split.
      * split; [intros _|reflexivity]. exists f, bytes. split; [left|]. now split.
    + rewrite IH. split; intros (p & bs & Hin & Ho & Hf).
      * exists p, bs. split; [now right|]. now split.
      * apply elem_of_cons in Hin as [->|Hin]; [congruence|]. eauto.
Qed.

(** With the archive file open and every call on the host returning, the
    one failure left to [Create] is the compressor error of
    [ZSTD_endStream], raised exactly when the frame of some gathered file
    that opens cannot be finished; files that do not open never make it
    fail. *)
Lemma Create_fails_iff (inputPaths : list fspath) :
  (forall e, Create host zstd basePath internalBasePath inputPaths = Throw e ->
             e = CompressorError) /\
  Create host zstd basePath internalBasePath inputPaths <> Indeterminate /\
  (Create host zstd basePath internalBasePath inputPaths = Throw CompressorError <->
   exists p bytes, p ∈ filesToProcess (gather host inputPaths) /\
                   fs_ifstream host p = Some bytes /\ frame_of zstd bytes = None).
Proof.
  rewrite Create_spec. cbv zeta.
  destruct (stored_files _ _ _ _ _ _) as [[body records]|] eqn:Hstored.
  - split; [discriminate|]. split; [discriminate|]. split; [discriminate|].
    intros (p & bytes & Hin & Ho & Hf). exfalso.
    assert (H : stored_files host zstd basePath internalBasePath
                  (std_sort (filesToProcess (gather host inputPaths))) sizeof_ACFHeader = None).
    { apply stored_files_None. exists p, bytes. now rewrite std_sort_perm. }
    congruence.
  - split; [now intros e [= <-]|]. split; [discriminate|].
    split; [intros _|reflexivity].
    apply stored_files_None in Hstored as (p & bytes & Hin & Ho & Hf).
    exists p, bytes. now rewrite std_sort_perm in Hin.
Qed.

(** X7. The header of a created archive counts one entry for every
    gathered directory and one for every gathered file that opens; files
    that do not open are left out without an error. *)
Theorem Create_entry_count (inputPaths : list fspath) (archive : list byte) :
  Create host zstd basePath internalBasePath inputPaths = Ok archive ->
  Z.of_nat (length archive) < 2 ^ 64 ->
  entryCount (header_of archive) =
    Z.of_nat (length (dirsToProcess (gather host inputPaths)) +
              length (opened_files host inputPaths)).
Proof.
  intros Hcreate Hlen. rewrite Create_spec in Hcreate. cbv zeta in Hcreate.
  destruct (stored_files _ _ _ _ _ _) as [[body records]|] eqn:Hstored; [|discriminate].
  apply Ok_inj in Hcreate. subst archive.
  destruct (stored_files_records _ _ _ _ _ _ _ _ Hstored) as [_ Hpaths].
  apply (f_equal length) in Hpaths. rewrite !length_map in Hpaths.
  rewrite !length_app, length_ACFHeader_bytes in Hlen.
  pose proof (length_central_directory_bytes
                (map (dir_entry host basePath internalBasePath)
                   (std_sort (dirsToProcess (gather host inputPaths))) ++ records)) as Hcd.
  unfold sizeof_ACFHeader, sizeof_ACFEntryData in *.
  rewrite header_of_written; cbn [centralDirOffset entryCount magic version reserved
                                  centralDirCRC32];
    try reflexivity; try (apply Z.mod_pos_bound; lia); try apply CrcFacts.crc32_u32.
  rewrite Z.mod_small by lia.
  rewrite length_app, length_map, Hpaths. unfold opened_files.
  now rewrite !std_sort_perm.
Qed.

Lemma string_of_list_ascii_app l1 l2 :
  string_of_list_ascii (l1 ++ l2) =
    (string_of_list_ascii l1 ++ string_of_list_ascii l2)%string.
Proof. induction l1 as [|c l1 IH]; [reflexivity|]. cbn. now rewrite IH. Qed.

Lemma dir_internalPath_shape d :
  dir_internalPath host basePath internalBasePath d = ""%string \/
  exists s, dir_internalPath host basePath internalBasePath d = (s ++ "\")%string.
Proof.
  unfold dir_internalPath. cbv zeta.
  set (ip := internalPath_of host basePath internalBasePath d).
  destruct (last (list_ascii_of_string ip)) as [c|] eqn:Hlast.
  - right. destruct (Ascii.eqb_spec c "\"%char) as [->|_]; [|eauto].
    apply last_Some in Hlast as [l' Hl].
    exists (string_of_list_ascii l').
    rewrite <- (string_of_list_ascii_of_string ip), Hl.
    now rewrite string_of_list_ascii_app.
  - left. apply last_None in Hlast.
    rewrite <- (string_of_list_ascii_of_string ip), Hlast. reflexivity.
Qed.

(** X8. Every directory record of the central directory [Create] builds
    belongs to a gathered directory, has zero sizes, zero data offset and
    zero CRC, and a stored path that is empty or ends with a backslash. *)
Theorem Create_directory_records (inputPaths : list fspath)
    (cd : list (ACFEntryData * string)) (e : ACFEntryData) (path : string) :
  Create_central_directory host zstd basePath internalBasePath inputPaths = Some cd ->
  (e, path) ∈ cd ->
  type e = EntryType_value Directory ->
  originalSize e = 0 /\ compressedSize e = 0 /\ dataOffset e = 0 /\ crc32 e = 0 /\
  (path = ""%string \/ exists s, path = (s ++ "\")%string) /\
  exists d, d ∈ dirsToProcess (gather host inputPaths) /\
            path = dir_internalPath host basePath internalBasePath d.
Proof.
  intros Hcd Hin Htype. rewrite Create_central_directory_spec in Hcd.
  destruct (stored_files _ _ _ _ _ _) as [[body records]|] eqn:Hstored; [|discriminate].
  apply Some_inj in Hcd. subst cd.
  apply elem_of_app in Hin as [Hd|Hr].
  - apply list_elem_of_fmap in Hd as (d & Heq & Hd).
    rewrite std_sort_perm in Hd.
    assert (He : e = (dir_entry host basePath internalBasePath d).1) by now rewrite <- Heq.
    assert (Hp : path = (dir_entry host basePath internalBasePath d).2) by now rewrite <- Heq.
    subst e path. cbn [dir_entry fst snd originalSize compressedSize dataOffset crc32].
    repeat split; [apply dir_internalPath_shape|eauto].
  - exfalso. destruct (stored_files_records _ _ _ _ _ _ _ _ Hstored) as [Hall _].
    rewrite Forall_forall in Hall. destruct (Hall _ Hr) as [Hfile _].
    cbn [fst] in Hfile. rewrite Hfile in Htype. discriminate.
Qed.

Lemma stored_files_packed files start body records :
  stored_files host zstd basePath internalBasePath files start = Some (body, records) ->
  Z.of_nat (start + length body) < 2 ^ 64 ->
  compressed_total records = Z.of_nat (length body) /\
  forall l1 e path l2, records = l1 ++ (e, path) :: l2 ->
    dataOffset e = Z.of_nat start + compressed_total l1.
Proof.
  revert start body records.
  induction files as [|f files IH]; intros start body records H Hlen; cbn [stored_files] in H.
  - apply Some_inj in H. apply pair_equal_spec in H as [<- <-].
    split; [reflexivity|]. intros [|? ?] ? ? ? ?; discriminate.
  - destruct (fs_ifstream host f) as [bytes|] eqn:Hopen; [|now apply IH].
    destruct (frame_of zstd bytes) as [frame|] eqn:Hframe; [|discriminate].
    destruct (stored_files _ _ _ _ files (start + length frame)) as [[b r]|] eqn:E;
      [|discriminate].
    apply Some_inj in H. apply pair_equal_spec in H as [<- <-].
    rewrite length_app in Hlen.
    destruct (IH _ _ _ E ltac:(lia)) as [Ht Hoff].
    remember (file_record host basePath internalBasePath f (Z.of_nat start)
                (Crc.crc32 bytes) (Z.of_nat (length frame) mod 2 ^ 64)) as r0 eqn:Hr0.
    assert (Hc : compressedSize r0.1 = Z.of_nat (length frame)).
    { subst r0. unfold file_record. cbn [fst compressedSize]. apply Z.mod_small. lia. }
    assert (Ho : dataOffset r0.1 = Z.of_nat start).
    { subst r0. unfold file_record. cbn [fst dataOffset]. apply Z.mod_small. lia. }
    clear Hr0. split.
    + cbn [compressed_total foldr]. fold (compressed_total r).
      rewrite Hc, Ht, length_app. lia.
    + intros [|r1 l1] e path l2 Heq; cbn [app] in Heq.
      * injection Heq as Hh _. subst r0. cbn [fst] in Ho.
        cbn [compressed_total foldr]. lia.
      * injection Heq as <- Hr. cbn [compressed_total foldr]. fold (compressed_total l1).
        rewrite (Hoff _ _ _ _ Hr), Hc. lia.
Qed.

Lemma compressed_total_app l1 l2 :
  compressed_total (l1 ++ l2) = compressed_total l1 + compressed_total l2.
Proof.
  induction l1 as [|r l1 IH]; [reflexivity|].
  cbn [app compressed_total foldr]. fold (compressed_total (l1 ++ l2)).
  fold (compressed_total l1). lia.
Qed.

Lemma compressed_total_dirs dirs :
  compressed_total (map (dir_entry host basePath internalBasePath) dirs) = 0.
Proof.
  induction dirs as [|d dirs IH]; [reflexivity|].
  cbn [map compressed_total foldr]. fold (compressed_total (map (dir_entry host basePath
    internalBasePath) dirs)). rewrite IH. reflexivity.
Qed.

(** X9. The data area of a created archive is tightly packed: the frame of
    each file record starts where the 32-byte header and the frames of the
    records before it end, and the central directory starts where the last
    frame ends. *)
Theorem Create_tightly_packed (inputPaths : list fspath) (archive : list byte)
    (cd : list (ACFEntryData * string)) :
  Create host zstd basePath internalBasePath inputPaths = Ok archive ->
  Create_central_directory host zstd basePath internalBasePath inputPaths = Some cd ->
  Z.of_nat (length archive) < 2 ^ 64 ->
  (forall l1 e path l2, cd = l1 ++ (e, path) :: l2 -> type e = EntryType_value File ->
     dataOffset e = Z.of_nat sizeof_ACFHeader + compressed_total l1) /\
  centralDirOffset (header_of archive) = Z.of_nat sizeof_ACFHeader + compressed_total cd.
Proof.
  intros Hcreate Hcd Hlen.
  rewrite Create_spec in Hcreate. rewrite Create_central_directory_spec in Hcd.
  cbv zeta in Hcreate.
  destruct (stored_files _ _ _ _ _ _) as [[body records]|] eqn:Hstored; [|discriminate].
  apply Some_inj in Hcd. subst cd. apply Ok_inj in Hcreate. subst archive.
  rewrite !length_app, length_ACFHeader_bytes in Hlen.
  destruct (stored_files_packed _ _ _ _ Hstored ltac:(lia)) as [Ht Hoff].
  set (dirs := std_sort (dirsToProcess (gather host inputPaths))) in *.
  split.
  - intros l1 e path l2 Heq Htype.
    apply app_eq_app in Heq as [k [[H1 H2]|[H1 H2]]].
    + (* the record would lie among the directories *)
      destruct k as [|r k]; cbn [app] in H2.
      * rewrite app_nil_r in H1. rewrite <- H1, compressed_total_dirs.
        symmetry in H2. rewrite (Hoff [] _ _ _ H2). reflexivity.
      * exfalso. injection H2 as <- _.
        assert (Hin : (e, path) ∈ map (dir_entry host basePath internalBasePath) dirs).
        { rewrite H1. apply elem_of_app. right. left. }
        apply list_elem_of_fmap in Hin as (d & Heq & _).
        assert (He : e = (dir_entry host basePath internalBasePath d).1) by now rewrite <- Heq.
        subst e. discriminate.
    + (* the record lies among the files *)
      rewrite H1, compressed_total_app, compressed_total_dirs.
      rewrite (Hoff _ _ _ _ H2). lia.
  - rewrite header_of_written; cbn [centralDirOffset entryCount magic version reserved
                                    centralDirCRC32];
      try reflexivity; try (apply Z.mod_pos_bound; lia); try apply CrcFacts.crc32_u32.
    rewrite compressed_total_app, compressed_total_dirs, Ht.
    unfold sizeof_ACFHeader in *. rewrite Z.mod_small by lia. lia.
Qed.

End CreateFacts.

Lemma Create_entry_count_witness :
  entryCount (header_of Demo.sample_archive) =
    Z.of_nat (length (dirsToProcess (gather Demo.sample_host [["root"%string]])) +
              length (opened_files Demo.sample_host [["root"%string]])).
Proof.
  apply (Create_entry_count Demo.sample_host Demo.stored [] "" [["root"%string]]).
  - vm_compute. reflexivity.
  - vm_compute. reflexivity.
Defined.

Lemma Create_directory_records_witness :
  originalSize sample_root_entry = 0 /\ compressedSize sample_root_entry = 0 /\
  dataOffset sample_root_entry = 0 /\ crc32 sample_root_entry = 0 /\
  ("root\"%string = ""%string \/ exists s, "root\"%string = (s ++ "\")%string) /\
  exists d, d ∈ dirsToProcess (gather Demo.sample_host [["root"%string]]) /\
            "root\"%string = dir_internalPath Demo.sample_host [] "" d.
Proof.
  apply (Create_directory_records Demo.sample_host Demo.stored [] "" [["root"%string]]
           Demo.sample_cd).
  - vm_compute. reflexivity.
  - apply (list_elem_of_lookup_2 _ 0%nat). vm_compute. reflexivity.
  - reflexivity.
Defined.

Lemma Create_tightly_packed_witness :
  (forall l1 e path l2, Demo.sample_cd = l1 ++ (e, path) :: l2 ->
     type e = EntryType_value File ->
     dataOffset e = Z.of_nat sizeof_ACFHeader + compressed_total l1) /\
  centralDirOffset (header_of Demo.sample_archive) =
    Z.of_nat sizeof_ACFHeader + compressed_total Demo.sample_cd.
Proof.
  apply (Create_tightly_packed Demo.sample_host Demo.stored [] "" [["root"%string]]).
  - vm_compute. reflexivity.
  - vm_compute. reflexivity.
  - vm_compute. reflexivity.
Defined.

(** ** Files that are no archives, and entries that fail *)

Section ReaderFacts.

Variable zstd : Zstd.

Lemma field_overlay_old off len got old :
  (length got <= off)%nat ->
  field off len (Bytes.overlay got old) = field off len old.
Proof.
  intros H. unfold field, Bytes.overlay.
  rewrite drop_app_ge by exact H. rewrite drop_drop.
  now replace (length got + (off - length got))%nat with off by lia.
Qed.

Lemma header_of_overlay f :
  header_of f =
    ACFHeader_of_bytes
      (Bytes.overlay (take sizeof_ACFHeader f) (ACFHeader_bytes ACFHeader_default)).
Proof.
  unfold header_of, read_header. rewrite read_eq, remaining_open. reflexivity.
Qed.

Lemma magic_header_of f :
  (4 <= length f)%nat -> magic (header_of f) = Bytes.value (take 4 f).
Proof.
  intros H. rewrite header_of_overlay.
  unfold ACFHeader_of_bytes. cbn [magic]. unfold field, Bytes.overlay.
  rewrite drop_0.
  rewrite take_app_le by (rewrite length_take; unfold sizeof_ACFHeader; lia).
  rewrite take_take. reflexivity.
Qed.

Lemma List_magic f : magic (header_of f) <> ACF_MAGIC -> List f = Throw UnknownFormat.
Proof.
  intros H. unfold List. unfold header_of in H.
  destruct (read_header (ifstream_open f)) as [header s1]. cbn [fst] in H.
  apply Z.eqb_neq in H. now rewrite H.
Qed.

Lemma ExtractData_magic f name :
  magic (header_of f) <> ACF_MAGIC -> ExtractData zstd f name = Throw UnknownFormat.
Proof.
  intros H. unfold ExtractData. unfold header_of in H.
  destruct (read_header (ifstream_open f)) as [header s1]. cbn [fst] in H.
  apply Z.eqb_neq in H. now rewrite H.
Qed.

(** X10. A file of at least four bytes that does not start with the bytes
    [41 43 46 39] of the magic number is refused by every reader with
    "Not a valid ACF archive", before anything is done on the output
    directory. *)
Theorem wrong_magic_UnknownFormat (f : list byte) :
  (4 <= length f)%nat ->
  take 4 f <> [x41; x43; x46; x39] ->
  List f = Throw UnknownFormat /\
  (forall name, ExtractData zstd f name = Throw UnknownFormat) /\
  ExtractAll zstd f = ([], Throw UnknownFormat) /\
  (forall names, Extract zstd f names = ([], Throw UnknownFormat)).
Proof.
  intros Hlen Hne.
  assert (Hmagic : magic (header_of f) <> ACF_MAGIC).
  { rewrite magic_header_of by exact Hlen. intros Heq. apply Hne.
    rewrite <- (BytesFacts.le_value (take 4 f)), Heq.
    rewrite length_take. replace (4 `min` length f)%nat with 4%nat by lia.
    reflexivity. }
  pose proof (List_magic f Hmagic) as HList.
  split; [exact HList|]. split; [intros name; now apply ExtractData_magic|].
  unfold ExtractAll, Extract. rewrite HList. split; [reflexivity|]. intros _. reflexivity.
Qed.

Lemma read_header_short f :
  (length f < sizeof_ACFHeader)%nat ->
  failed (read_header (ifstream_open f)).2 = true.
Proof.
  intros H. unfold read_header. rewrite read_eq. cbn [snd].
  rewrite read_failed, remaining_open. cbn [failed ifstream_open orb].
  now apply Nat.ltb_lt.
Qed.

Lemma List_loop_nil n : List_loop n [] = [].
Proof. now destruct n. Qed.

Lemma seekg_failed pos s : failed s = true -> seekg pos s = s.
Proof. intros H. unfold seekg. now rewrite H. Qed.

Lemma read_failed_stream n s : failed s = true -> read n s = ([], s).
Proof. intros H. unfold read. now rewrite H. Qed.

Lemma List_short f :
  (length f < sizeof_ACFHeader)%nat ->
  List f =
    if negb (magic (header_of f) =? ACF_MAGIC) then Throw UnknownFormat
    else if negb (0 =? centralDirCRC32 (header_of f)) then Throw BadArchive
    else if PTRDIFF_MAX <? entryCount (header_of f) * sizeof_list_item
    then Throw AllocationFailure
    else Ok [].
Proof.
  intros H. pose proof (read_header_short f H) as Hf.
  unfold List, header_of.
  destruct (read_header (ifstream_open f)) as [header s1]. cbn [fst snd] in *.
  destruct (negb (magic header =? ACF_MAGIC)); [reflexivity|].
  rewrite (seekg_failed _ s1 Hf). unfold seekg_end. rewrite Hf.
  rewrite (seekg_failed _ s1 Hf).
  change (PTRDIFF_MAX <? 0) with false. cbv iota.
  rewrite (read_failed_stream _ s1 Hf).
  change (Bytes.overlay [] (Bytes.zeros (Z.to_nat 0))) with (@nil byte).
  change (Crc.crc32 []) with 0.
  destruct (negb (0 =? centralDirCRC32 header)); [reflexivity|].
  destruct (PTRDIFF_MAX <? entryCount header * sizeof_list_item); [reflexivity|].
  now rewrite List_loop_nil.
Qed.

Lemma ExtractData_short f name :
  (length f < sizeof_ACFHeader)%nat ->
  ExtractData zstd f name =
    if negb (magic (header_of f) =? ACF_MAGIC) then Throw UnknownFormat
    else if entryCount (header_of f) =? 0 then Throw NotFound
    else Indeterminate.
Proof.
  intros H. pose proof (read_header_short f H) as Hf.
  pose proof (entryCount_nonneg f) as Hcount.
  unfold ExtractData, header_of in *.
  destruct (read_header (ifstream_open f)) as [header s1]. cbn [fst snd] in *.
  destruct (negb (magic header =? ACF_MAGIC)); [reflexivity|].
  rewrite (seekg_failed _ s1 Hf).
  destruct (Z.eqb_spec (entryCount header) 0) as [->|Hne]; [reflexivity|].
  destruct (Z.to_nat (entryCount header)) as [|n] eqn:Hn; [lia|].
  cbn [ExtractData_scan]. rewrite (read_failed_stream _ s1 Hf). reflexivity.
Qed.

(** X11. From a file shorter than the 32-byte header no reader produces
    anything: [List] reports no entry; [ExtractData] refuses the file,
    reports the name as not found, or goes on to use a descriptor it never
    read; and [ExtractAll] and [Extract] do nothing on the output
    directory. *)
Theorem short_file_yields_nothing (f : list byte) :
  (length f < sizeof_ACFHeader)%nat ->
  (forall entries, List f = Ok entries -> entries = []) /\
  (forall name,
     ExtractData zstd f name = Throw UnknownFormat \/
     ExtractData zstd f name = Throw NotFound \/
     ExtractData zstd f name = Indeterminate) /\
  (ExtractAll zstd f).1 = [] /\
  (forall names, (Extract zstd f names).1 = []).
Proof.
  intros H. pose proof (List_short f H) as HList.
  assert (Hcases : List f = Ok [] \/ exists e, List f = Throw e).
  { rewrite HList.
    destruct (negb (magic (header_of f) =? ACF_MAGIC)); [right; eauto|].
    destruct (negb (0 =? centralDirCRC32 (header_of f))); [right; eauto|].
    destruct (PTRDIFF_MAX <? _); [right; eauto|]. now left. }
  split; [|split; [|split]].
  - intros entries Heq. destruct Hcases as [H0|[e He]]; congruence.
  - intros name. rewrite (ExtractData_short f name H).
    destruct (negb (magic (header_of f) =? ACF_MAGIC)); [now left|].
    destruct (entryCount (header_of f) =? 0); [right; now left|right; now right].
  - unfold ExtractAll. destruct Hcases as [->|[e ->]]; reflexivity.
  - intros names. unfold Extract. destruct Hcases as [->|[e ->]]; reflexivity.
Qed.

(** X12. A file of at most 16 bytes whose bytes agree with the magic number
    as far as they go is taken for an archive without entries: the fields it
    does not supply keep the defaults of [ACFHeader], so [List] returns the
    empty list, [ExtractAll] and [Extract] succeed without doing anything,
    and [ExtractData] reports the name as not found. The empty file is one
    such file. *)
Theorem short_file_is_empty_archive (f : list byte) :
  (length f <= 16)%nat ->
  magic (header_of f) = ACF_MAGIC ->
  List f = Ok [] /\
  ExtractAll zstd f = ([], Ok tt) /\
  (forall names, Extract zstd f names = ([], Ok tt)) /\
  (forall name, ExtractData zstd f name = Throw NotFound).
Proof.
  intros Hlen Hmagic.
  assert (Hshort : (length f < sizeof_ACFHeader)%nat) by (unfold sizeof_ACFHeader; lia).
  assert (Hgot : (length (take sizeof_ACFHeader f) <= 16)%nat) by (rewrite length_take; lia).
  assert (Hcount : entryCount (header_of f) = 0).
  { rewrite header_of_overlay. unfold ACFHeader_of_bytes. cbn [entryCount].
    now rewrite field_overlay_old by exact Hgot. }
  assert (Hcrc : centralDirCRC32 (header_of f) = 0).
  { rewrite header_of_overlay. unfold ACFHeader_of_bytes. cbn [centralDirCRC32].
    now rewrite field_overlay_old by lia. }
  assert (HList : List f = Ok []).
  { rewrite (List_short f Hshort), Hmagic, Hcount, Hcrc. reflexivity. }
  split; [exact HList|]. unfold ExtractAll, Extract. rewrite HList.
  split; [reflexivity|]. split; [reflexivity|].
  intros name. rewrite (ExtractData_short f name Hshort), Hmagic, Hcount. reflexivity.
Qed.

(** X13. Whatever [ExtractData] returns has passed the CRC check: on an
    archive with a complete central directory, returned data belong to the
    first record stored under the name, that record is a file record, and
    the CRC-32 of the data is the one the record carries. *)
Theorem ExtractData_crc_checked (f : list byte) (cd : list (ACFEntryData * string))
    (name : string) (data : list byte) :
  central_directory_is f cd ->
  ExtractData zstd f name = Ok data ->
  exists e, first_match name cd = Some e /\
            type e = EntryType_value File /\
            Crc.crc32 data = crc32 e.
Proof.
  intros Hcd Hdata. rewrite (ExtractData_spec zstd f cd name Hcd) in Hdata.
  destruct (first_match name cd) as [e|]; [|discriminate].
  exists e. split; [reflexivity|].
  unfold ExtractData_entry in Hdata.
  destruct (Z.eqb_spec (type e) (EntryType_value File)) as [Htype|]; [|discriminate].
  split; [exact Htype|]. cbn [negb] in Hdata.
  destruct (PTRDIFF_MAX <? originalSize e); [discriminate|].
  destruct (ExtractData_loop _ _ _ _ _ _ _ _) as [d| |]; try discriminate.
  destruct (Z.eqb_spec (Crc.crc32 d) (crc32 e)) as [Hcrc|]; [|discriminate].
  cbn [negb] in Hdata. apply Ok_inj in Hdata. now subst d.
Qed.

Lemma ExtractAll_loop_app f l1 l2 :
  ExtractAll_loop zstd f (l1 ++ l2) =
    match ExtractAll_loop zstd f l1 with
    | (acts1, Ok _) =>
      let '(acts2, r) := ExtractAll_loop zstd f l2 in (acts1 ++ acts2, r)
    | other => other
    end.
Proof.
  induction l1 as [|[e path] l1 IH]; cbn [app ExtractAll_loop].
  - now destruct (ExtractAll_loop zstd f l2).
  - rewrite IH. destruct (ExtractAll_loop zstd f l1) as [acts1 [[]| |]];
      destruct (ExtractAll_loop zstd f l2) as [acts2 r];
      destruct (type e =? EntryType_value Directory);
      [| destruct (type e =? EntryType_value File);
         [destruct (ExtractData zstd f path)|] | | destruct (type e =? EntryType_value File);
         [destruct (ExtractData zstd f path)|] | | destruct (type e =? EntryType_value File);
         [destruct (ExtractData zstd f path)|]];
      cbn [app]; rewrite <- ?app_assoc; reflexivity.
Qed.

(** X14. [ExtractAll] stops at the first file entry that [ExtractData]
    rejects and fails with its error: what was written for the entries
    before it stays, the parent directory of the rejected entry has been
    created, and no later entry is touched. *)
Theorem ExtractAll_stops_at_failure (f : list byte) (l1 l2 : list (ACFEntryData * string))
    (e : ACFEntryData) (path : string) (err : Error) (acts : list Action) :
  List f = Ok (l1 ++ (e, path) :: l2) ->
  type e = EntryType_value File ->
  ExtractData zstd f path = Throw err ->
  ExtractAll_loop zstd f l1 = (acts, Ok tt) ->
  ExtractAll zstd f = (acts ++ [create_parent_directories path], Throw err).
Proof.
  intros HList Htype Hdata Hbefore. unfold ExtractAll. rewrite HList.
  rewrite ExtractAll_loop_app, Hbefore. cbn [ExtractAll_loop].
  rewrite Htype, Hdata. reflexivity.
Qed.

End ReaderFacts.

Lemma wrong_magic_UnknownFormat_witness :
  List (list_byte_of_string "PK34") = Throw UnknownFormat /\
  (forall name, ExtractData Demo.stored (list_byte_of_string "PK34") name
                = Throw UnknownFormat) /\
  ExtractAll Demo.stored (list_byte_of_string "PK34") = ([], Throw UnknownFormat) /\
  (forall names, Extract Demo.stored (list_byte_of_string "PK34") names
                 = ([], Throw UnknownFormat)).
Proof.
  apply (wrong_magic_UnknownFormat Demo.stored (list_byte_of_string "PK34")).
  - vm_compute. lia.
  - vm_compute. congruence.
Defined.

Lemma short_file_yields_nothing_witness :
  (forall entries, List (take 31 Demo.sample_archive) = Ok entries -> entries = []) /\
  (forall name,
     ExtractData Demo.stored (take 31 Demo.sample_archive) name = Throw UnknownFormat \/
     ExtractData Demo.stored (take 31 Demo.sample_archive) name = Throw NotFound \/
     ExtractData Demo.stored (take 31 Demo.sample_archive) name = Indeterminate) /\
  (ExtractAll Demo.stored (take 31 Demo.sample_archive)).1 = [] /\
  (forall names, (Extract Demo.stored (take 31 Demo.sample_archive) names).1 = []).
Proof.
  apply (short_file_yields_nothing Demo.stored (take 31 Demo.sample_archive)).
  vm_compute. lia.
Defined.

Lemma short_file_is_empty_archive_witness :
  List [] = Ok [] /\
  ExtractAll Demo.stored [] = ([], Ok tt) /\
  (forall names, Extract Demo.stored [] names = ([], Ok tt)) /\
  (forall name, ExtractData Demo.stored [] name = Throw NotFound).
Proof.
  apply (short_file_is_empty_archive Demo.stored []).
  - vm_compute. lia.
  - vm_compute. reflexivity.
Defined.

Lemma ExtractData_crc_checked_witness :
  exists e, first_match "root\a.txt" Demo.sample_cd = Some e /\
            type e = EntryType_value File /\
            Crc.crc32 (list_byte_of_string "hello") = crc32 e.
Proof.
  apply (ExtractData_crc_checked Demo.stored Demo.sample_archive Demo.sample_cd
           "root\a.txt" (list_byte_of_string "hello")).
  - unfold central_directory_is. by_evaluation.
  - vm_compute. reflexivity.
Defined.

Lemma ExtractAll_stops_at_failure_witness :
  ExtractAll Demo.stored damaged_archive =
    ([create_parent_directories "x"; write_file "x" (list_byte_of_string "AB");
      last_write_time "x" 0x5B5E6000; SetFileAttributesW "x" 0x20]
     ++ [create_parent_directories "y"], Throw CRCMismatch).
Proof.
  apply (ExtractAll_stops_at_failure Demo.stored damaged_archive
           [(Demo.stored_entry 32 (list_byte_of_string "AB") "x", "x"%string)] []
           {| type := EntryType_value File; originalSize := 2; compressedSize := 2;
              dataOffset := 34; crc32 := Crc.crc32 (list_byte_of_string "XX");
              filedatetime := 0x5B5E6000; fileattribute := 0x20; pathLength := 1 |}
           "y" CRCMismatch).
  - vm_compute. reflexivity.
  - reflexivity.
  - vm_compute. reflexivity.
  - vm_compute. reflexivity.
Defined.

(** ** Extraction by name *)

Section ExtractFacts.

Variable zstd : Zstd.

Lemma filter_all {A} (P : A -> Prop) `{!forall x, Decision (P x)} (l : list A) :
  (forall x, x ∈ l -> P x) -> filter P l = l.
Proof.
  induction l as [|x l IH]; intros Hall; [reflexivity|].
  rewrite filter_cons_True by (apply Hall; left). f_equal.
  apply IH. intros y Hy. apply Hall. now right.
Qed.

Lemma filter_none {A} (P : A -> Prop) `{!forall x, Decision (P x)} (l : list A) :
  (forall x, x ∈ l -> ~ P x) -> filter P l = [].
Proof.
  induction l as [|x l IH]; intros Hnone; [reflexivity|].
  rewrite filter_cons_False by (apply Hnone; left).
  apply IH. intros y Hy. apply Hnone. now right.
Qed.

Lemma elem_of_written_paths p acts :
  p ∈ written_paths acts <-> exists d, write_file p d ∈ acts.
Proof.
  unfold written_paths. rewrite list_elem_of_omap. split.
  - intros (a & Hin & Ha). destruct a; try discriminate. injection Ha as ->. eauto.
  - intros (d & Hin). exists (write_file p d). split; [exact Hin|reflexivity].
Qed.

Ltac elem_cases H :=
  lazymatch type of H with
  | _ ∈ _ ++ _ =>
    let H1 := fresh H in
    apply elem_of_app in H; destruct H as [H1|H1]; elem_cases H1
  | _ ∈ _ :: _ =>
    let H1 := fresh H in
    apply elem_of_cons in H; destruct H as [H1|H1];
    [try discriminate H1|elem_cases H1]
  | _ ∈ [] => inversion H
  | _ => idtac
  end.

Lemma ExtractAll_loop_writes f l p d :
  write_file p d ∈ (ExtractAll_loop zstd f l).1 ->
  exists e, (e, p) ∈ l /\ type e = EntryType_value File /\ ExtractData zstd f p = Ok d.
Proof.
  induction l as [|[e path] l IH]; cbn [ExtractAll_loop]; [intros H; inversion H|].
  destruct (ExtractAll_loop zstd f l) as [more r]. cbn [fst] in IH.
  intros H.
  assert (Hmore : write_file p d ∈ more ->
            exists e0, (e0, p) ∈ (e, path) :: l /\ type e0 = EntryType_value File /\
                       ExtractData zstd f p = Ok d).
  { intros Hm. destruct (IH Hm) as (e0 & ? & ? & ?). exists e0. split; [now right|]. now split. }
  destruct (type e =? EntryType_value Directory).
  - cbn [fst] in H. elem_cases H. now apply Hmore.
  - destruct (Z.eqb_spec (type e) (EntryType_value File)) as [Htype|].
    + destruct (ExtractData zstd f path) as [data|err|] eqn:Hdata; cbn [fst] in H.
      * elem_cases H; [|now apply Hmore].
        match goal with Heq : write_file _ _ = write_file _ _ |- _ =>
          injection Heq as -> -> end.
        exists e. split; [left|]. now split.
      * elem_cases H.
      * elem_cases H.
    + cbn [fst] in H. elem_cases H. now apply Hmore.
Qed.

(** X15. [Extract] writes a file only at a path that was asked for and that
    a file record of the listing carries. *)
Theorem Extract_writes_only_requested (f : list byte) (names : list string) (p : string) :
  p ∈ written_paths (Extract zstd f names).1 ->
  p ∈ names /\
  exists entries e, List f = Ok entries /\ (e, p) ∈ entries /\
                    type e = EntryType_value File.
Proof.
  intros H. apply elem_of_written_paths in H as [d H]. unfold Extract in H.
  destruct (List f) as [entries| |]; try (inversion H; fail).
  cbv zeta in H. apply ExtractAll_loop_writes in H as (e & Hin & Htype & _).
  apply list_elem_of_filter in Hin as [Hp Hin]. cbn [snd] in Hp.
  apply elem_of_list_to_set in Hp. split; [exact Hp|]. eauto.
Qed.

(** X16. Names that no listed entry carries are passed over in silence:
    when none of the requested names is stored, [Extract] succeeds and does
    nothing on the output directory. *)
Theorem Extract_unknown_names (f : list byte) (entries : list (ACFEntryData * string))
    (names : list string) :
  List f = Ok entries ->
  (forall n, n ∈ names -> n ∉ map snd entries) ->
  Extract zstd f names = ([], Ok tt).
Proof.
  intros HList Hnone. unfold Extract. rewrite HList. cbv zeta.
  rewrite filter_none; [reflexivity|].
  intros [e path] Hin Hp. cbn [snd] in Hp. apply elem_of_list_to_set in Hp.
  apply (Hnone path Hp). apply list_elem_of_fmap. now exists (e, path).
Qed.

(** Asked for every stored path, [Extract] does exactly what [ExtractAll]
    does. *)
Lemma Extract_all_names (f : list byte) (entries : list (ACFEntryData * string))
    (names : list string) :
  List f = Ok entries ->
  (forall r, r ∈ entries -> r.2 ∈ names) ->
  Extract zstd f names = ExtractAll zstd f.
Proof.
  intros HList Hall. unfold Extract, ExtractAll. rewrite HList. cbv zeta.
  rewrite filter_all; [reflexivity|].
  intros r Hin. apply elem_of_list_to_set. now apply Hall.
Qed.

(** [Extract] depends on the requested names as a set only: neither
    their order nor their repetition changes what is extracted, which always
    follows the order of the central directory. *)
Lemma Extract_names_as_set (f : list byte) (names1 names2 : list string) :
  (forall n, n ∈ names1 <-> n ∈ names2) ->
  Extract zstd f names1 = Extract zstd f names2.
Proof.
  intros Hsame.
  assert (Hset : (list_to_set names1 : gset string) = list_to_set names2).
  { apply set_eq. intros n. rewrite !elem_of_list_to_set. apply Hsame. }
  unfold Extract. now rewrite Hset.
Qed.

End ExtractFacts.

Section ExtractCreated.

Variable host : Host.
Variable zstd : Zstd.
Variable basePath : fspath.
Variable internalBasePath : string.

Lemma Create_record_extracts inputPaths archive cd e path :
  codec_round_trip zstd ->
  storable host basePath internalBasePath inputPaths ->
  Create host zstd basePath internalBasePath inputPaths = Ok archive ->
  Z.of_nat (length archive) < 2 ^ 62 ->
  Create_central_directory host zstd basePath internalBasePath inputPaths = Some cd ->
  (e, path) ∈ cd ->
  type e = EntryType_value File ->
  exists q bytes,
    q ∈ filesToProcess (gather host inputPaths) /\
    fs_ifstream host q = Some bytes /\
    path = internalPath_of host basePath internalBasePath q /\
    ExtractData zstd archive path = Ok bytes.
Proof.
  intros Hcodec Hstorable Hcreate Hlen Hcd Hin Htype.
  pose proof (storable_paths_fit _ _ _ _ Hstorable) as Hfit.
  destruct Hstorable as (_ & Hfiles & Hsame & Hdistinct).
  destruct (Create_readback _ _ _ _ _ _ Hcreate Hfit Hlen)
    as (body & records & Hstored & Harch & Hoff & Hcdis & _).
  rewrite Create_central_directory_spec, Hstored in Hcd. apply Some_inj in Hcd.
  cbv zeta in *.
  set (g := gather host inputPaths) in *.
  assert (Hrec : (e, path) ∈ records).
  { rewrite <- Hcd in Hin. apply elem_of_app in Hin as [Hd|Hr]; [|exact Hr].
    exfalso. apply list_elem_of_fmap in Hd as (d & Heq & _).
    assert (He : e = (dir_entry host basePath internalBasePath d).1) by now rewrite <- Heq.
    subst e. discriminate. }
  destruct (stored_files_layout _ _ _ _ _ _ _ _ _ _ Hstored Hrec)
    as (p0 & bytes0 & frame0 & before0 & after0 & Hp0 & Ho0 & _ & Heq0 & _).
  rewrite std_sort_perm in Hp0.
  assert (Hpath0 : internalPath_of host basePath internalBasePath p0 = path).
  { unfold file_record in Heq0. now injection Heq0 as _ <-. }
  rewrite Hcd in Hcdis, Harch.
  rewrite (ExtractData_spec zstd archive cd path Hcdis).
  destruct (first_match path cd) as [e1|] eqn:Hfirst.
  2:{ exfalso. rewrite first_match_None in Hfirst. now apply (Hfirst (e, path)). }
  apply first_match_Some in Hfirst. rewrite <- Hcd in Hfirst.
  apply elem_of_app in Hfirst as [Hd|Hr].
  { exfalso. apply list_elem_of_fmap in Hd as (d & Heq & Hd).
    apply (Hdistinct d p0); [now rewrite std_sort_perm in Hd|exact Hp0|rewrite Ho0; eauto|].
    rewrite Hpath0. unfold dir_entry in Heq. now injection Heq as _ <-. }
  destruct (stored_files_layout _ _ _ _ _ _ _ _ _ _ Hstored Hr)
    as (q & bytes & frame & before & after & Hq & Hoq & Hframe & Heq & Hbody).
  rewrite std_sort_perm in Hq.
  assert (Hpq : internalPath_of host basePath internalBasePath q = path).
  { unfold file_record in Heq. now injection Heq as _ <-. }
  exists q, bytes. split; [exact Hq|]. split; [exact Hoq|]. split; [now rewrite Hpq|].
  assert (He1 : e1 = (file_record host basePath internalBasePath q
                        (Z.of_nat (sizeof_ACFHeader + length before)) (Crc.crc32 bytes)
                        (Z.of_nat (length frame) mod 2 ^ 64)).1)
    by (now rewrite <- Heq).
  assert (Hlenb : length body = (length before + length frame + length after)%nat)
    by (rewrite Hbody, !length_app; lia).
  assert (Hlen' : Z.of_nat (32 + length body) < 2 ^ 62).
  { rewrite Harch in Hlen. rewrite !length_app, length_ACFHeader_bytes in Hlen.
    unfold sizeof_ACFHeader in Hlen. lia. }
  destruct (Hfiles q Hq ltac:(rewrite Hoq; eauto)) as [_ Hsize].
  rewrite Harch, Hbody.
  replace (ACFHeader_bytes (header_of archive) ++ (before ++ frame ++ after)
           ++ central_directory_bytes cd)
    with ((ACFHeader_bytes (header_of archive) ++ before) ++ frame
          ++ (after ++ central_directory_bytes cd))
    by (now rewrite <- !app_assoc).
  unfold sizeof_ACFHeader in *.
  apply ExtractData_entry_frame.
  - now apply Hcodec.
  - now rewrite He1.
  - rewrite He1. unfold file_record. cbn [fst dataOffset].
    rewrite length_app, length_ACFHeader_bytes. unfold sizeof_ACFHeader.
    apply Z.mod_small. lia.
  - rewrite length_app, length_ACFHeader_bytes. unfold sizeof_ACFHeader. lia.
  - rewrite He1. unfold file_record. cbn [fst compressedSize].
    apply Z.mod_small. lia.
  - rewrite He1. unfold file_record. cbn [fst originalSize].
    rewrite Z.mod_small by (unfold PTRDIFF_MAX in Hsize; lia). lia.
  - rewrite He1. reflexivity.
Qed.

(** X17. [Extract] on a created archive succeeds and brings back the bytes
    of every gathered file that opened and whose stored path was asked for;
    it writes at no path that was not asked for. *)
Theorem Extract_Create (inputPaths : list fspath) (archive : list byte)
    (names : list string) (p : fspath) (bytes : list byte) :
  codec_round_trip zstd ->
  storable host basePath internalBasePath inputPaths ->
  Create host zstd basePath internalBasePath inputPaths = Ok archive ->
  Z.of_nat (length archive) < 2 ^ 62 ->
  p ∈ filesToProcess (gather host inputPaths) ->
  fs_ifstream host p = Some bytes ->
  internalPath_of host basePath internalBasePath p ∈ names ->
  exists acts,
    Extract zstd archive names = (acts, Ok tt) /\
    write_file (internalPath_of host basePath internalBasePath p) bytes ∈ acts /\
    output_files acts !! internalPath_of host basePath internalBasePath p = Some bytes /\
    (forall q, q ∈ written_paths acts -> q ∈ names).
Proof.
  intros Hcodec Hstorable Hcreate Hlen Hp Hopen Hname.
  pose proof (storable_paths_fit _ _ _ _ Hstorable) as Hfit.
  destruct (Create_readback _ _ _ _ _ _ Hcreate Hfit Hlen)
    as (body & records & Hstored & _ & _ & _ & HList).
  cbv zeta in HList.
  set (cd := map (dir_entry host basePath internalBasePath)
               (std_sort (dirsToProcess (gather host inputPaths))) ++ records) in *.
  assert (Hcd : Create_central_directory host zstd basePath internalBasePath inputPaths
                = Some cd).
  { rewrite Create_central_directory_spec. now rewrite Hstored. }
  set (path := internalPath_of host basePath internalBasePath p) in *.
  pose proof (fun e q H1 H2 =>
                Create_record_extracts inputPaths archive cd e q Hcodec Hstorable
                  Hcreate Hlen Hcd H1 H2) as Hextract.
  assert (Hdata : ExtractData zstd archive path = Ok bytes /\
                  exists e, (e, path) ∈ cd /\ type e = EntryType_value File).
  { destruct (stored_files_records _ _ _ _ _ _ _ _ Hstored) as [Hall Hpaths].
    assert (Hpin : path ∈ map snd records).
    { rewrite Hpaths. apply list_elem_of_fmap. exists p. split; [reflexivity|].
      apply list_elem_of_filter. split; [rewrite Hopen; eauto|].
      now rewrite std_sort_perm. }
    apply list_elem_of_fmap in Hpin as ([e path'] & Heq & Hr).
    cbn [snd] in Heq. subst path'.
    rewrite Forall_forall in Hall. destruct (Hall _ Hr) as [Htype _]. cbn [fst] in Htype.
    assert (Hin : (e, path) ∈ cd) by (apply elem_of_app; now right).
    destruct (Hextract e path Hin Htype) as (q & bytes' & Hq & Hoq & Hpq & Hd).
    destruct Hstorable as (_ & _ & Hsame & _).
    pose proof (Hsame p q Hp Hq ltac:(rewrite Hopen; eauto) ltac:(rewrite Hoq; eauto) Hpq)
      as E.
    rewrite Hopen, Hoq in E. apply Some_inj in E. subst bytes'. split; [exact Hd|eauto]. }
  destruct Hdata as [Hdata (e & Hin & Htype)].
  unfold Extract. rewrite HList. cbv zeta.
  destruct (ExtractAll_loop_ok zstd archive
              (filter (fun pair => pair.2 ∈ (list_to_set names : gset string)) cd))
    as (acts & Hrun & Hacts).
  { intros e' q Hin' Htype'. apply list_elem_of_filter in Hin' as [_ Hin'].
    destruct (Hextract e' q Hin' Htype') as (? & data & _ & _ & _ & ?). eauto. }
  exists acts. split; [exact Hrun|].
  assert (Hw : write_file path bytes ∈ acts).
  { apply Hacts. exists e. split; [|now split].
    apply list_elem_of_filter. split; [|exact Hin]. cbn [snd].
    now apply elem_of_list_to_set. }
  split; [exact Hw|]. split.
  - apply output_files_lookup; [exact Hw|].
    intros data' Hw'. apply Hacts in Hw' as (_ & _ & _ & Hd'). congruence.
  - intros q Hq. apply elem_of_written_paths in Hq as [d Hq].
    apply Hacts in Hq as (e' & Hin' & _).
    apply list_elem_of_filter in Hin' as [Hq _]. cbn [snd] in Hq.
    now apply elem_of_list_to_set in Hq.
Qed.

End ExtractCreated.

Lemma Extract_writes_only_requested_witness :
  "root\a.txt"%string ∈ ["nowhere"; "root\a.txt"]%string /\
  exists entries e, List Demo.sample_archive = Ok entries /\
                    (e, "root\a.txt"%string) ∈ entries /\
                    type e = EntryType_value File.
Proof.
  apply (Extract_writes_only_requested Demo.stored Demo.sample_archive
           ["nowhere"; "root\a.txt"]%string "root\a.txt").
  apply (list_elem_of_lookup_2 _ 0%nat). vm_compute. reflexivity.
Defined.

Lemma Extract_unknown_names_witness :
  Extract Demo.stored Demo.sample_archive ["nowhere"; "root\a"]%string = ([], Ok tt).
Proof.
  apply (Extract_unknown_names Demo.stored Demo.sample_archive Demo.sample_cd).
  - vm_compute. reflexivity.
  - intros n Hn.
    repeat (apply elem_of_cons in Hn as [->|Hn]; [vm_compute; intros H;
      repeat (apply elem_of_cons in H as [H|H]; [discriminate|]); inversion H|]).
    inversion Hn.
Defined.

Lemma Extract_Create_witness :
  exists acts,
    Extract Demo.stored Demo.sample_archive ["root\a.txt"%string] = (acts, Ok tt) /\
    write_file (internalPath_of Demo.sample_host [] "" ["root"; "a.txt"]%string)
      (list_byte_of_string "hello") ∈ acts /\
    output_files acts !! internalPath_of Demo.sample_host [] "" ["root"; "a.txt"]%string
      = Some (list_byte_of_string "hello") /\
    (forall q, q ∈ written_paths acts -> q ∈ ["root\a.txt"%string]).
Proof.
  apply (Extract_Create Demo.sample_host Demo.stored [] "" [["root"%string]]).
  - exact stored_round_trip.
  - exact sample_storable.
  - vm_compute. reflexivity.
  - vm_compute. reflexivity.
  - apply (list_elem_of_lookup_2 _ 1%nat). vm_compute. reflexivity.
  - vm_compute. reflexivity.
  - apply (list_elem_of_lookup_2 _ 0%nat). vm_compute. reflexivity.
Defined.

(** ** Archives laid out by hand *)

Section LayoutFacts.

Lemma layout_readback h body cd :
  magic h = ACF_MAGIC ->
  0 <= version h < 2 ^ 32 -> 0 <= reserved h < 2 ^ 32 ->
  centralDirOffset h = Z.of_nat (sizeof_ACFHeader + length body) ->
  entryCount h = Z.of_nat (length cd) ->
  centralDirCRC32 h = Crc.crc32 (central_directory_bytes cd) ->
  Forall record_wf cd ->
  Z.of_nat (length (ACFHeader_bytes h ++ body ++ central_directory_bytes cd)) < 2 ^ 62 ->
  header_of (ACFHeader_bytes h ++ body ++ central_directory_bytes cd) = h /\
  central_directory_is (ACFHeader_bytes h ++ body ++ central_directory_bytes cd) cd /\
  List (ACFHeader_bytes h ++ body ++ central_directory_bytes cd) = Ok cd.
Proof.
  intros Hmagic Hver Hres Hoff Hcount Hcrc Hwf Hlen.
  rewrite !length_app, length_ACFHeader_bytes in Hlen.
  pose proof (length_central_directory_bytes cd) as Hcdlen.
  unfold sizeof_ACFEntryData, sizeof_ACFHeader in *.
  assert (Hhdr : forall rest, header_of (ACFHeader_bytes h ++ rest) = h).
  { intros rest. rewrite header_of_app. apply ACFHeader_of_bytes_bytes; try assumption.
    - rewrite Hmagic. unfold ACF_MAGIC. lia.
    - rewrite Hoff. lia.
    - rewrite Hcount. lia.
    - rewrite Hcrc. apply CrcFacts.crc32_u32. }
  set (archive := ACFHeader_bytes h ++ body ++ central_directory_bytes cd) in *.
  assert (Hh : header_of archive = h) by apply Hhdr.
  assert (Hcdof : central_directory_of archive = central_directory_bytes cd).
  { unfold central_directory_of. rewrite Hh, Hoff, Nat2Z.id. unfold archive.
    rewrite app_assoc. apply drop_app_length'.
    now rewrite length_app, length_ACFHeader_bytes. }
  assert (Harchlen : length archive
                     = (32 + length body + length (central_directory_bytes cd))%nat).
  { unfold archive. rewrite !length_app, length_ACFHeader_bytes.
    unfold sizeof_ACFHeader. lia. }
  assert (Hcdis : central_directory_is archive cd).
  { unfold central_directory_is. rewrite Hcdof, Hh, Harchlen, Hoff, Hcount, Nat2Z.id.
    unfold sizeof_ACFHeader.
    split; [lia|]. split; [lia|]. split; [exact Hmagic|]. split; [lia|].
    now apply parse_records_bytes. }
  split; [exact Hh|]. split; [exact Hcdis|].
  destruct Hcdis as (H1 & H2 & H3 & H4 & H5).
  rewrite List_inside by assumption.
  rewrite H3, Z.eqb_refl. cbn [negb].
  rewrite Hcdof, Hh in *.
  rewrite Hcrc, Z.eqb_refl. cbn [negb]. rewrite Hcount in *.
  destruct (Z.ltb_spec PTRDIFF_MAX (Z.of_nat (length cd) * sizeof_list_item)) as [Hbig|_].
  { unfold PTRDIFF_MAX, sizeof_list_item in Hbig. lia. }
  f_equal. now apply List_loop_parse.
Qed.

(** X18. [List] reads back any file laid out as the format prescribes: a
    header with the magic number, the offset and count of the central
    directory and its CRC-32, then a body, then records whose [pathLength] is
    the length of their path. The version and the reserved field of the
    header are never looked at. *)
Theorem List_reads_layout (h : ACFHeader) (body : list byte)
    (cd : list (ACFEntryData * string)) :
  magic h = ACF_MAGIC ->
  0 <= version h < 2 ^ 32 -> 0 <= reserved h < 2 ^ 32 ->
  centralDirOffset h = Z.of_nat (sizeof_ACFHeader + length body) ->
  entryCount h = Z.of_nat (length cd) ->
  centralDirCRC32 h = Crc.crc32 (central_directory_bytes cd) ->
  Forall record_wf cd ->
  Z.of_nat (length (ACFHeader_bytes h ++ body ++ central_directory_bytes cd)) < 2 ^ 62 ->
  List (ACFHeader_bytes h ++ body ++ central_directory_bytes cd) = Ok cd.
Proof.
  intros Hmagic Hver Hres Hoff Hcount Hcrc Hwf Hlen.
  now destruct (layout_readback h body cd Hmagic Hver Hres Hoff Hcount Hcrc Hwf Hlen)
    as (_ & _ & HList).
Qed.

End LayoutFacts.

(** ** [CreateData] *)

Section DataWriterFacts.

Variable host : Host.
Variable zstd : Zstd.
Variable sys : DataHost zstd.

Lemma CreateData_spec internalPath data :
  CreateData host zstd sys internalPath data =
    if CStream_setup_fails sys then Throw CompressorError
    else
      match CreateData_frame zstd sys data with
      | None => Throw CompressorError
      | Some frame =>
        let r := (CreateData_entry host zstd sys internalPath data 32
                    (Z.of_nat (length frame) mod 2 ^ 64), internalPath) in
        Ok (ACFHeader_bytes
              {| magic := ACF_MAGIC; version := ACF_VERSION;
                 centralDirOffset := Z.of_nat (sizeof_ACFHeader + length frame) mod 2 ^ 64;
                 entryCount := 1;
                 centralDirCRC32 := Crc.crc32 (central_directory_bytes [r]);
                 reserved := 0 |}
            ++ frame ++ central_directory_bytes [r])
      end.
Proof.
  unfold CreateData, CreateData_frame. cbv zeta.
  destruct (CStream_setup_fails sys); [reflexivity|].
  destruct (CreateData_compress zstd sys data) as [[cstream out]|]; [|reflexivity].
  destruct (ZSTD_endStream zstd cstream) as [tail|]; [|reflexivity].
  f_equal.
  assert (Hend0 : at_end (write (ACFHeader_bytes ACFHeader_default) ofstream_open))
    by (apply at_end_write; reflexivity).
  set (af0 := write (ACFHeader_bytes ACFHeader_default) ofstream_open) in *.
  assert (Hw0 : written af0 = ACFHeader_bytes ACFHeader_default) by reflexivity.
  assert (Hoff0 : tellp af0 mod 2 ^ 64 = 32) by reflexivity.
  rewrite Hoff0. clearbody af0.
  assert (Hend1 : at_end (write out af0)) by now apply at_end_write.
  assert (Hend2 : at_end (write tail (write out af0))) by now apply at_end_write.
  assert (Hw2 : written (write tail (write out af0))
                = ACFHeader_bytes ACFHeader_default ++ out ++ tail).
  { rewrite !written_write by assumption. now rewrite Hw0, <- app_assoc. }
  assert (Htell : tellp (write tail (write out af0))
                  = Z.of_nat (sizeof_ACFHeader + length (out ++ tail))).
  { unfold tellp. rewrite Hend2, Hw2, length_app, length_ACFHeader_bytes. reflexivity. }
  rewrite Htell.
  replace ((Z.of_nat (length out) mod 2 ^ 64 + Z.of_nat (length tail)) mod 2 ^ 64)
    with (Z.of_nat (length (out ++ tail)) mod 2 ^ 64)
    by (rewrite Z.add_mod_idemp_l, length_app, Nat2Z.inj_add by lia; reflexivity).
  set (af2 := write tail (write out af0)) in *. clearbody af2.
  unfold central_directory_bytes, record_bytes. cbn [map concat fst snd].
  rewrite app_nil_r.
  set (cdbuf := ACFEntryData_bytes _ ++ list_byte_of_string internalPath).
  set (hd := {| magic := ACF_MAGIC; version := ACF_VERSION;
                centralDirOffset := _; entryCount := 1; centralDirCRC32 := _;
                reserved := 0 |}).
  rewrite (write_at_end cdbuf af2) by exact Hend2.
  unfold seekp, write. cbn [written ppos]. rewrite take_0, Nat.add_0_l, app_nil_l.
  rewrite Hw2, <- !app_assoc.
  rewrite drop_app_length' by (now rewrite !length_ACFHeader_bytes).
  reflexivity.
Qed.

Lemma CreateData_entry_wf internalPath data offset csize :
  Z.of_nat (String.length internalPath) <= 65535 ->
  0 <= offset < 2 ^ 64 ->
  record_wf (CreateData_entry host zstd sys internalPath data offset (csize mod 2 ^ 64),
             internalPath).
Proof.
  intros Hlen Hoff. unfold record_wf, entry_wf, CreateData_entry.
  cbn [fst snd type originalSize compressedSize dataOffset crc32 filedatetime
       fileattribute pathLength].
  pose proof (FileTimeToDosDateTime_range host (GetSystemTimeAsFileTime sys)).
  pose proof (CrcFacts.crc32_u32 data) as Hc. unfold Crc.u32 in Hc.
  pose proof (Z.mod_pos_bound (Z.of_nat (length data)) (2 ^ 64) ltac:(lia)).
  pose proof (Z.mod_pos_bound csize (2 ^ 64) ltac:(lia)).
  rewrite (Z.mod_small (Z.of_nat (String.length internalPath)) (2 ^ 16)) by lia.
  unfold EntryType_value, FILE_ATTRIBUTE_ARCHIVE.
  change (32 mod 2 ^ 8) with 32.
  repeat split; lia.
Qed.

Lemma CreateData_readback internalPath data archive :
  CreateData host zstd sys internalPath data = Ok archive ->
  Z.of_nat (String.length internalPath) <= 65535 ->
  Z.of_nat (length archive) < 2 ^ 62 ->
  exists frame,
    let e := CreateData_entry host zstd sys internalPath data 32
               (Z.of_nat (length frame) mod 2 ^ 64) in
    CreateData_frame zstd sys data = Some frame /\
    Z.of_nat (length frame) < 2 ^ 62 /\
    archive = ACFHeader_bytes (header_of archive) ++ frame
              ++ central_directory_bytes [(e, internalPath)] /\
    central_directory_is archive [(e, internalPath)] /\
    List archive = Ok [(e, internalPath)].
Proof.
  intros Hcreate Hpath Hlen. rewrite CreateData_spec in Hcreate.
  destruct (CStream_setup_fails sys); [discriminate|].
  destruct (CreateData_frame zstd sys data) as [frame|] eqn:Hframe; [|discriminate].
  cbv zeta in Hcreate. apply Ok_inj in Hcreate. subst archive.
  exists frame. cbv zeta.
  set (e := CreateData_entry host zstd sys internalPath data 32
              (Z.of_nat (length frame) mod 2 ^ 64)) in *.
  assert (Hlen' := Hlen). rewrite !length_app, length_ACFHeader_bytes in Hlen'.
  unfold sizeof_ACFHeader in *.
  match type of Hlen with context [ACFHeader_bytes ?h0] => set (h := h0) in * end.
  destruct (layout_readback h frame [(e, internalPath)]) as (Hh & Hcdis & HList);
    try reflexivity; try exact Hlen.
  - cbn [version h]. unfold ACF_VERSION. lia.
  - cbn [reserved h]. lia.
  - cbn [centralDirOffset h]. apply Z.mod_small. unfold sizeof_ACFHeader. lia.
  - constructor; [|constructor]. apply CreateData_entry_wf; lia.
  - split; [reflexivity|]. split; [lia|]. split; [now rewrite Hh|]. now split.
Qed.

(** X19. Listing an archive that [CreateData] produced returns one file
    record under the given path: the sizes are those of the data and of its
    frame, the frame starts right after the 32-byte header, the CRC-32 is
    that of the data and the attribute is [FILE_ATTRIBUTE_ARCHIVE]. *)
Theorem List_CreateData (internalPath : string) (data archive : list byte) :
  CreateData host zstd sys internalPath data = Ok archive ->
  Z.of_nat (String.length internalPath) <= 65535 ->
  Z.of_nat (length data) <= PTRDIFF_MAX ->
  Z.of_nat (length archive) < 2 ^ 62 ->
  exists e frame,
    List archive = Ok [(e, internalPath)] /\
    CreateData_frame zstd sys data = Some frame /\
    type e = EntryType_value File /\
    originalSize e = Z.of_nat (length data) /\
    compressedSize e = Z.of_nat (length frame) /\
    dataOffset e = Z.of_nat sizeof_ACFHeader /\
    crc32 e = Crc.crc32 data /\
    fileattribute e = FILE_ATTRIBUTE_ARCHIVE /\
    take (length frame) (drop sizeof_ACFHeader archive) = frame.
Proof.
  intros Hcreate Hpath Hdata Hlen.
  destruct (CreateData_readback _ _ _ Hcreate Hpath Hlen)
    as (frame & Hframe & Hflen & Harch & _ & HList).
  cbv zeta in *. eexists _, frame. split; [exact HList|]. split; [exact Hframe|].
  unfold CreateData_entry.
  cbn [type originalSize compressedSize dataOffset crc32 fileattribute].
  split; [reflexivity|].
  split; [apply Z.mod_small; unfold PTRDIFF_MAX in Hdata; lia|].
  split; [apply Z.mod_small; lia|].
  split; [reflexivity|]. split; [reflexivity|]. split; [reflexivity|].
  rewrite Harch.
  rewrite drop_app_length' by (now rewrite length_ACFHeader_bytes).
  now rewrite take_app_length.
Qed.

(** X20. [ExtractData] brings back what [CreateData] archived, under the
    path it was given, whenever the stored frame decodes to the data; under
    any other name it reports the file as not found. *)
Theorem ExtractData_CreateData (internalPath : string) (data archive : list byte) :
  CreateData host zstd sys internalPath data = Ok archive ->
  (forall frame, CreateData_frame zstd sys data = Some frame ->
                 decode_frame zstd frame = Some data) ->
  Z.of_nat (String.length internalPath) <= 65535 ->
  Z.of_nat (length data) <= PTRDIFF_MAX ->
  Z.of_nat (length archive) < 2 ^ 62 ->
  ExtractData zstd archive internalPath = Ok data /\
  (forall name, name <> internalPath -> ExtractData zstd archive name = Throw NotFound).
Proof.
  intros Hcreate Hcodec Hpath Hdata Hlen.
  destruct (CreateData_readback _ _ _ Hcreate Hpath Hlen)
    as (frame & Hframe & Hflen & Harch & Hcdis & _).
  cbv zeta in *. split.
  - rewrite (ExtractData_spec zstd archive _ internalPath Hcdis).
    unfold first_match. cbn [List.find snd]. rewrite String.eqb_refl.
    cbn [fmap option_fmap option_map fst].
    rewrite Harch.
    apply ExtractData_entry_frame.
    + now apply Hcodec.
    + reflexivity.
    + now rewrite length_ACFHeader_bytes.
    + rewrite length_ACFHeader_bytes. unfold sizeof_ACFHeader. lia.
    + cbn [CreateData_entry compressedSize]. apply Z.mod_small. lia.
    + cbn [CreateData_entry originalSize].
      rewrite Z.mod_small by (unfold PTRDIFF_MAX in Hdata; lia). exact Hdata.
    + reflexivity.
  - intros name Hne.
    rewrite (ExtractData_spec zstd archive _ name Hcdis).
    unfold first_match. cbn [List.find snd].
    destruct (String.eqb_spec internalPath name) as [Heq|_]; [congruence|reflexivity].
Qed.

End DataWriterFacts.

Lemma List_reads_layout_witness :
  List (ACFHeader_bytes
          {| magic := ACF_MAGIC; version := 0;
             centralDirOffset := Z.of_nat (sizeof_ACFHeader
                                           + length (list_byte_of_string "ABCD"));
             entryCount := Z.of_nat (length Demo.duplicate_cd);
             centralDirCRC32 := Crc.crc32 (central_directory_bytes Demo.duplicate_cd);
             reserved := 7 |}
        ++ list_byte_of_string "ABCD" ++ central_directory_bytes Demo.duplicate_cd)
  = Ok Demo.duplicate_cd.
Proof.
  apply (List_reads_layout
           {| magic := ACF_MAGIC; version := 0;
              centralDirOffset := Z.of_nat (sizeof_ACFHeader
                                            + length (list_byte_of_string "ABCD"));
              entryCount := Z.of_nat (length Demo.duplicate_cd);
              centralDirCRC32 := Crc.crc32 (central_directory_bytes Demo.duplicate_cd);
              reserved := 7 |}
           (list_byte_of_string "ABCD") Demo.duplicate_cd).
  - reflexivity.
  - vm_compute. split; [congruence|reflexivity].
  - vm_compute. split; [congruence|reflexivity].
  - reflexivity.
  - reflexivity.
  - reflexivity.
  - repeat constructor; vm_compute; congruence.
  - vm_compute. reflexivity.
Defined.

Lemma List_CreateData_witness :
  exists e frame,
    List (Demo.archive_or_empty
            (CreateData Demo.sample_host Demo.stored sample_sys "memo.txt"
               (list_byte_of_string "hello")))
      = Ok [(e, "memo.txt"%string)] /\
    CreateData_frame Demo.stored sample_sys (list_byte_of_string "hello") = Some frame /\
    type e = EntryType_value File /\
    originalSize e = Z.of_nat (length (list_byte_of_string "hello")) /\
    compressedSize e = Z.of_nat (length frame) /\
    dataOffset e = Z.of_nat sizeof_ACFHeader /\
    crc32 e = Crc.crc32 (list_byte_of_string "hello") /\
    fileattribute e = FILE_ATTRIBUTE_ARCHIVE /\
    take (length frame)
      (drop sizeof_ACFHeader
         (Demo.archive_or_empty
            (CreateData Demo.sample_host Demo.stored sample_sys "memo.txt"
               (list_byte_of_string "hello")))) = frame.
Proof.
  apply (List_CreateData Demo.sample_host Demo.stored sample_sys "memo.txt"
           (list_byte_of_string "hello")).
  - vm_compute. reflexivity.
  - vm_compute. congruence.
  - vm_compute. congruence.
  - vm_compute. reflexivity.
Defined.

Lemma ExtractData_CreateData_witness :
  ExtractData Demo.stored
    (Demo.archive_or_empty
       (CreateData Demo.sample_host Demo.stored sample_sys "memo.txt"
          (list_byte_of_string "hello"))) "memo.txt"
    = Ok (list_byte_of_string "hello") /\
  (forall name, name <> "memo.txt"%string ->
     ExtractData Demo.stored
       (Demo.archive_or_empty
          (CreateData Demo.sample_host Demo.stored sample_sys "memo.txt"
             (list_byte_of_string "hello"))) name = Throw NotFound).
Proof.
  apply (ExtractData_CreateData Demo.sample_host Demo.stored sample_sys "memo.txt"
           (list_byte_of_string "hello")).
  - vm_compute. reflexivity.
  - intros frame Hframe. vm_compute in Hframe. apply Some_inj in Hframe. subst frame.
    vm_compute. reflexivity.
  - vm_compute. congruence.
  - vm_compute. congruence.
  - vm_compute. reflexivity.
Defined.

(** ** More on the CRC-32 *)

Section CrcMore.

(** X21. The CRC-32 of acf.cc tells apart any two buffers that differ in
    exactly one byte, wherever it is. *)
Theorem crc32_single_byte_change (k : nat) (l l' : list byte) :
  flipped_at k l l' -> Crc.crc32 l <> Crc.crc32 l'.
Proof.
  intros (b & b' & Hk & Hne & ->).
  rewrite <- (take_drop_middle l k b Hk) at 1.
  rewrite insert_take_drop by (now apply lookup_lt_Some in Hk).
  apply CrcFacts.crc32_detects_byte. congruence.
Qed.

(** X22. Running the CRC-32 on over the same bytes never merges two
    different checksums: two buffers followed by the same data have the same
    CRC-32 exactly when they had the same CRC-32 before. *)
Theorem crc32_suffix_cancel (a b d : list byte) :
  Crc.crc32 (a ++ d) = Crc.crc32 (b ++ d) <-> Crc.crc32 a = Crc.crc32 b.
Proof.
  unfold Crc.crc32. rewrite !CrcFacts.crc32_update_app. split; [|now intros ->].
  intros H. unfold Crc.crc32_update at 1 3 in H.
  apply CrcFacts.not32_inj, CrcFacts.fold_step_inj in H.
  - now apply CrcFacts.not32_inj in H.
  - apply CrcFacts.u32_not32, CrcFacts.crc32_u32.
  - apply CrcFacts.u32_not32, CrcFacts.crc32_u32.
Qed.

End CrcMore.

Lemma crc32_single_byte_change_witness :
  Crc.crc32 (list_byte_of_string "hello") <> Crc.crc32 (list_byte_of_string "hallo").
Proof.
  apply (crc32_single_byte_change 1 (list_byte_of_string "hello")
           (list_byte_of_string "hallo")).
  exists "e"%byte, "a"%byte. repeat split; vm_compute; congruence.
Defined.

(** ** The DOS date and time *)

Section DosDateTime.

Variable host : Host.
Variable w : WinTime.

Lemma div_pack q m r : 0 <= r < m -> (q * m + r) / m = q.
Proof. intros H. symmetry. apply (Z.div_unique _ _ q r); lia. Qed.

Lemma mod_pack q m r : 0 <= r < m -> (q * m + r) mod m = r.
Proof. intros H. symmetry. apply (Z.mod_unique _ _ q r); lia. Qed.

Lemma FileTimeToDosDateTime_words_back ft :
  let v := FileTimeToDosDateTime host ft in
  Z.shiftr v 16 mod 2 ^ 16 = (FileTimeToDosDateTime_words host ft).1 mod 2 ^ 16 /\
  Z.land v 0xFFFF mod 2 ^ 16 = (FileTimeToDosDateTime_words host ft).2 mod 2 ^ 16.
Proof.
  cbv zeta. unfold FileTimeToDosDateTime.
  destruct (FileTimeToDosDateTime_words host ft) as [dosDate dosTime]. cbn [fst snd].
  pose proof (Z.mod_pos_bound dosDate (2 ^ 16) ltac:(lia)) as Hd.
  pose proof (Z.mod_pos_bound dosTime (2 ^ 16) ltac:(lia)) as Ht.
  set (D := dosDate mod 2 ^ 16) in *. set (T := dosTime mod 2 ^ 16) in *.
  rewrite Z.shiftl_mul_pow2 by lia.
  rewrite (Z.mod_small (D * 2 ^ 16)) by lia.
  assert (Hland : Z.land (Z.shiftl D 16) T = 0).
  { apply Z.bits_inj'. intros n Hn. rewrite Z.land_spec, Z.bits_0.
    destruct (Z.ltb_spec n 16).
    - rewrite Z.shiftl_spec_low by lia. reflexivity.
    - destruct (Z.eq_dec T 0) as [->|]; [rewrite Z.bits_0; apply andb_false_r|].
      rewrite (Z.bits_above_log2 T n); [apply andb_false_r|lia|].
      apply Z.log2_lt_pow2; [lia|].
      apply Z.lt_le_trans with (2 ^ 16); [lia|apply Z.pow_le_mono_r; lia]. }
  assert (Hlor : Z.lor (D * 2 ^ 16) T = D * 2 ^ 16 + T).
  { rewrite <- Z.shiftl_mul_pow2 by lia.
    now rewrite <- (Z.lxor_lor _ _ Hland), <- (Z.add_nocarry_lxor _ _ Hland). }
  rewrite Hlor. change 0xFFFF with (Z.ones 16).
  rewrite Z.shiftr_div_pow2, Z.land_ones by lia.
  rewrite div_pack, mod_pack by lia.
  rewrite !Z.mod_small by lia. now split.
Qed.

(** X23. The two wrappers of acf.cc agree on the packing: the date word
    and the time word that [FileTimeToDosDateTime] packs into the 32-bit
    value are the words [DosDateTimeToFileTime] hands to the Windows call.
    The result of that call is then taken for a local time and converted,
    a conversion the packing side does not make. *)
Theorem DosDateTime_words_round_trip (ft : FILETIME) :
  DosDateTimeToFileTime w (FileTimeToDosDateTime host ft) =
    LocalFileTimeToFileTime w
      (Win_DosDateTimeToFileTime w
         ((FileTimeToDosDateTime_words host ft).1 mod 2 ^ 16)
         ((FileTimeToDosDateTime_words host ft).2 mod 2 ^ 16)).
Proof.
  unfold DosDateTimeToFileTime.
  destruct (FileTimeToDosDateTime_words_back ft) as [-> ->]. reflexivity.
Qed.

End DosDateTime.

(** ** The listing of the command line *)

Section CliFacts.

Import Cli.

Lemma length_append (a b : string) :
  String.length (a ++ b) = (String.length a + String.length b)%nat.
Proof.
  induction a as [|c a IH]; [reflexivity|].
  simpl. f_equal. exact IH.
Qed.

Lemma length_fill c n : String.length (fill c n) = n.
Proof. induction n as [|n IH]; [reflexivity|]. cbn. now rewrite IH. Qed.

Lemma length_decimal_upto fuel n k :
  (1 <= k)%nat -> n < 10 ^ Z.of_nat k -> (String.length (decimal_upto fuel n) <= k)%nat.
Proof.
  revert n k. induction fuel as [|fuel IH]; intros n k Hk Hn; cbn [decimal_upto].
  - cbn. lia.
  - destruct (Z.ltb_spec n 10) as [|Hge]; [cbn; lia|].
    rewrite length_append. cbn [String.length].
    destruct k as [|[|k]]; [lia|simpl in Hn; lia|].
    assert (H : (String.length (decimal_upto fuel (n / 10)) <= S k)%nat).
    { apply IH; [lia|]. apply Z.div_lt_upper_bound; [lia|].
      replace (Z.of_nat (S (S k))) with (1 + Z.of_nat (S k)) in Hn by lia.
      rewrite Z.pow_add_r in Hn by lia. lia. }
    lia.
Qed.

Lemma length_setw_0 (width : nat) n :
  (1 <= width)%nat -> n < 10 ^ Z.of_nat width -> String.length (setw_0 width n) = width.
Proof.
  intros Hw Hn. unfold setw_0. rewrite length_append, length_fill.
  pose proof (length_decimal_upto 10 n width Hw Hn). unfold decimal. lia.
Qed.

Lemma land_ones_range x n : 0 <= n -> 0 <= Z.land x (Z.ones n) < 2 ^ n.
Proof. intros Hn. rewrite Z.land_ones by lia. apply Z.mod_pos_bound. lia. Qed.

(** X24. [DosDateTimeToString] always renders nineteen characters in the
    shape [YYYY-MM-DD hh:mm:ss]: a field of four and five fields of two
    characters, separated by two dashes, a blank and two colons. *)
Theorem DosDateTimeToString_shape (dosDateTime : Z) :
  exists Y M D h m s,
    DosDateTimeToString dosDateTime =
      (Y ++ "-" ++ M ++ "-" ++ D ++ " " ++ h ++ ":" ++ m ++ ":" ++ s)%string /\
    String.length Y = 4%nat /\ String.length M = 2%nat /\ String.length D = 2%nat /\
    String.length h = 2%nat /\ String.length m = 2%nat /\ String.length s = 2%nat.
Proof.
  unfold DosDateTimeToString. destruct (dosDateTime =? 0).
  - exists "1980"%string, "01"%string, "01"%string, "00"%string, "00"%string, "00"%string.
    repeat split.
  - cbv zeta. eexists _, _, _, _, _, _. split; [reflexivity|].
    change 0x7F with (Z.ones 7). change 0x0F with (Z.ones 4).
    change 0x1F with (Z.ones 5). change 0x3F with (Z.ones 6).
    set (dosDate := Z.shiftr dosDateTime 16 mod 2 ^ 16).
    set (dosTime := Z.land dosDateTime 65535 mod 2 ^ 16).
    pose proof (land_ones_range (Z.shiftr dosDate 9) 7 ltac:(lia)).
    pose proof (land_ones_range (Z.shiftr dosDate 5) 4 ltac:(lia)).
    pose proof (land_ones_range dosDate 5 ltac:(lia)).
    pose proof (land_ones_range (Z.shiftr dosTime 11) 5 ltac:(lia)).
    pose proof (land_ones_range (Z.shiftr dosTime 5) 6 ltac:(lia)).
    pose proof (land_ones_range dosTime 5 ltac:(lia)).
    repeat split; apply length_setw_0; simpl; lia.
Qed.

(** X25. [DosDateTimeToString] decodes the MS-DOS layout: for a value,
    other than zero, whose date word holds [y], [mo] and [d] in its 7, 4 and
    5 bits and whose time word holds [h], [mi] and [s2] in its 5, 6 and 5
    bits, it renders the year [1980 + y], the month, the day, the hour, the
    minute and the second [2 * s2], each zero-filled to its width. *)
Theorem DosDateTimeToString_decodes (y mo d h mi s2 : Z) :
  0 <= y < 128 -> 0 <= mo < 16 -> 0 <= d < 32 ->
  0 <= h < 32 -> 0 <= mi < 64 -> 0 <= s2 < 32 ->
  dos_pack y mo d h mi s2 <> 0 ->
  DosDateTimeToString (dos_pack y mo d h mi s2) =
    (setw_0 4 (y + 1980) ++ "-" ++ setw_0 2 mo ++ "-" ++ setw_0 2 d ++ " " ++
     setw_0 2 h ++ ":" ++ setw_0 2 mi ++ ":" ++ setw_0 2 (s2 * 2))%string.
Proof.
  intros Hy Hmo Hd Hh Hmi Hs Hne. unfold DosDateTimeToString.
  destruct (Z.eqb_spec (dos_pack y mo d h mi s2) 0) as [|_]; [contradiction|].
  cbv zeta. unfold dos_pack.
  change 0xFFFF with (Z.ones 16). change 0x7F with (Z.ones 7).
  change 0x0F with (Z.ones 4). change 0x1F with (Z.ones 5). change 0x3F with (Z.ones 6).
  rewrite !Z.shiftr_div_pow2, !Z.land_ones by lia.
  change (2 ^ 16) with 65536. change (2 ^ 9) with 512. change (2 ^ 5) with 32.
  change (2 ^ 11) with 2048. change (2 ^ 7) with 128. change (2 ^ 4) with 16.
  change (2 ^ 6) with 64.
  rewrite (div_pack _ 65536) by lia. rewrite (mod_pack _ 65536) by lia.
  rewrite (Z.mod_small (y * 512 + mo * 32 + d) 65536) by lia.
  rewrite (Z.mod_small (h * 2048 + mi * 32 + s2) 65536) by lia.
  replace (y * 512 + mo * 32 + d) with (y * 512 + (mo * 32 + d)) by lia.
  rewrite (div_pack y 512) by lia.
  replace (y * 512 + (mo * 32 + d)) with ((y * 16 + mo) * 32 + d) by lia.
  rewrite (div_pack _ 32), (mod_pack _ 32) by lia.
  rewrite (mod_pack y 16) by lia.
  replace (h * 2048 + mi * 32 + s2) with (h * 2048 + (mi * 32 + s2)) by lia.
  rewrite (div_pack h 2048) by lia.
  replace (h * 2048 + (mi * 32 + s2)) with ((h * 64 + mi) * 32 + s2) by lia.
  rewrite (div_pack _ 32), (mod_pack _ 32) by lia.
  rewrite (mod_pack h 64) by lia.
  rewrite !Z.mod_small by lia. reflexivity.
Qed.

Lemma same_rendering_all :
  forallb (fun i => forallb (fun j => same_rendering (Z.of_nat i) (Z.of_nat j))
                            (seq 0 256)) (seq 0 256) = true.
Proof. vm_compute. reflexivity. Qed.

(** X26. [AttrToString] shows five bits of the attribute byte and nothing
    else: two attribute bytes render alike exactly when they agree on
    read-only, hidden, system, directory and archive (the mask [0x37]). *)
Theorem AttrToString_shows_five_bits (a b : Z) :
  0 <= a < 256 -> 0 <= b < 256 ->
  (AttrToString a = AttrToString b <-> Z.land a 0x37 = Z.land b 0x37).
Proof.
  intros Ha Hb.
  pose proof (CrcFacts.forallb_square same_rendering 256 same_rendering_all a b
                ltac:(lia) ltac:(lia)) as H.
  unfold same_rendering in H. apply Bool.eqb_prop in H.
  rewrite <- Z.eqb_eq, <- H. symmetry. apply bool_decide_eq_true.
Qed.

End CliFacts.

Lemma DosDateTimeToString_decodes_witness :
  Cli.DosDateTimeToString (Cli.dos_pack 45 10 30 7 5 21) =
    (Cli.setw_0 4 (45 + 1980) ++ "-" ++ Cli.setw_0 2 10 ++ "-" ++ Cli.setw_0 2 30 ++ " " ++
     Cli.setw_0 2 7 ++ ":" ++ Cli.setw_0 2 5 ++ ":" ++ Cli.setw_0 2 (21 * 2))%string.
Proof.
  apply (DosDateTimeToString_decodes 45 10 30 7 5 21); vm_compute; try congruence;
    split; congruence.
Defined.

Lemma AttrToString_shows_five_bits_witness :
  Cli.AttrToString 0x30 = Cli.AttrToString 0xF8 <-> Z.land 0x30 0x37 = Z.land 0xF8 0x37.
Proof.
  apply (AttrToString_shows_five_bits 0x30 0xF8); lia.
Defined.

(** ** The plugin *)

Section PluginFacts.

Import Wcx.

Variable zstd : Zstd.
Variable files : string -> option (list byte).
Variable alloc_what : string.
Variable output : Output.
Variable PK_SKIP : Z.
Variable PK_EXTRACT : Z.

(** X27. When [List] fails, [OpenArchiveW] returns [(HANDLE)-1] and leaves
    the globals as they were; the result it reports is read off the text of
    the exception. A wrong magic number gives [E_UNKNOWN_FORMAT] and a CRC
    mismatch of the central directory [E_BAD_ARCHIVE]; a file that does not
    open is classified by its own name, which the message quotes:
    [E_EOPEN], unless the name contains "Not a valid" or "corrupted". *)
Theorem OpenArchiveW_failure (ArcName : string) (g : Globals) (e : Error) :
  List_file files ArcName = Throw e ->
  exists code,
    OpenArchiveW files alloc_what (Some ArcName) g
      = Some (INVALID_HANDLE, Some code, g) /\
    (e = UnknownFormat -> code = E_UNKNOWN_FORMAT) /\
    (e = BadArchive -> code = E_BAD_ARCHIVE) /\
    (e = IoError -> code = classify ArcName).
Proof.
  intros HList. unfold OpenArchiveW. rewrite HList.
  eexists. split; [reflexivity|].
  split; [|split]; intros ->; reflexivity.
Qed.

Lemma to_int_small n : - 2 ^ 31 <= n < 2 ^ 31 -> to_int n = n.
Proof. intros H. unfold to_int. rewrite Z.mod_small by lia. lia. Qed.

Lemma ReadHeaderExW_next h g state current :
  g_OpenArchives g !! h = Some state ->
  0 <= currentEntryIndex state + 1 ->
  Z.of_nat (length (entries state)) < 2 ^ 31 ->
  entries state !! Z.to_nat (currentEntryIndex state + 1) = Some current ->
  ReadHeaderExW h g =
    Some (Success, Some (HeaderData_of current),
          {| g_OpenArchives :=
               <[h := {| entries := entries state;
                         currentEntryIndex := currentEntryIndex state + 1;
                         archivePath := archivePath state |}]> (g_OpenArchives g);
             g_NextHandle := g_NextHandle g |}).
Proof.
  intros Hh Hi Hlen Hcur. unfold ReadHeaderExW. rewrite Hh.
  pose proof (lookup_lt_Some _ _ _ Hcur) as Hlt.
  destruct (Z.eqb_spec (currentEntryIndex state) INT_MAX) as [Heq|_].
  { unfold INT_MAX in Heq. lia. }
  cbv zeta. rewrite to_int_small by lia.
  destruct (Z.leb_spec (Z.of_nat (length (entries state))) (currentEntryIndex state + 1));
    [lia|].
  destruct (Z.ltb_spec (currentEntryIndex state + 1) 0); [lia|].
  now rewrite Hcur.
Qed.

Lemma ReadHeaderExW_end h g state :
  g_OpenArchives g !! h = Some state ->
  Z.of_nat (length (entries state)) < 2 ^ 31 ->
  Z.of_nat (length (entries state)) <= currentEntryIndex state + 1 ->
  currentEntryIndex state <> INT_MAX ->
  ReadHeaderExW h g =
    Some (E_END_ARCHIVE, None,
          {| g_OpenArchives :=
               <[h := {| entries := entries state;
                         currentEntryIndex := currentEntryIndex state + 1;
                         archivePath := archivePath state |}]> (g_OpenArchives g);
             g_NextHandle := g_NextHandle g |}).
Proof.
  intros Hh Hlen Hi Hmax. unfold ReadHeaderExW. rewrite Hh.
  destruct (Z.eqb_spec (currentEntryIndex state) INT_MAX) as [|_]; [contradiction|].
  cbv zeta. rewrite to_int_small by lia.
  destruct (Z.leb_spec (Z.of_nat (length (entries state))) (currentEntryIndex state + 1));
    [reflexivity|lia].
Qed.

Lemma ReadHeaderExW_times_run post : forall pre h g path,
  g_OpenArchives g !! h =
    Some {| entries := pre ++ post; currentEntryIndex := Z.of_nat (length pre) - 1;
            archivePath := path |} ->
  Z.of_nat (length (pre ++ post)) < 2 ^ 31 ->
  ReadHeaderExW_times (length post) h g =
    Some (map (fun r => (Success, Some (HeaderData_of r))) post,
          {| g_OpenArchives :=
               <[h := {| entries := pre ++ post;
                         currentEntryIndex := Z.of_nat (length (pre ++ post)) - 1;
                         archivePath := path |}]> (g_OpenArchives g);
             g_NextHandle := g_NextHandle g |}).
Proof.
  induction post as [|r post IH]; intros pre h g path Hh Hlen.
  - cbn [length ReadHeaderExW_times map]. rewrite app_nil_r in *.
    rewrite insert_id by exact Hh. now destruct g.
  - cbn [length ReadHeaderExW_times].
    rewrite (ReadHeaderExW_next h g _ r Hh); cbn [entries currentEntryIndex archivePath];
      [|lia|lia|].
    2:{ replace (Z.to_nat (Z.of_nat (length pre) - 1 + 1)) with (length pre) by lia.
        now rewrite list_lookup_middle. }
    replace (pre ++ r :: post) with ((pre ++ [r]) ++ post) in * by now rewrite <- app_assoc.
    rewrite (IH (pre ++ [r]) h _ path).
    + cbn [map g_OpenArchives g_NextHandle]. now rewrite insert_insert_eq.
    + cbn [g_OpenArchives]. rewrite lookup_insert_eq. repeat f_equal.
      rewrite length_app. cbn [length]. lia.
    + exact Hlen.
Qed.

Lemma ReadHeaderExW_times_add n m h g :
  ReadHeaderExW_times (n + m) h g =
    match ReadHeaderExW_times n h g with
    | None => None
    | Some (l1, g1) =>
      match ReadHeaderExW_times m h g1 with
      | None => None
      | Some (l2, g2) => Some (l1 ++ l2, g2)
      end
    end.
Proof.
  revert m h g. induction n as [|n IHn]; intros m h g; cbn [Nat.add ReadHeaderExW_times].
  - now destruct (ReadHeaderExW_times m h g) as [[l2 g2]|].
  - destruct (ReadHeaderExW h g) as [[[code header] g1]|]; [|reflexivity].
    rewrite IHn. destruct (ReadHeaderExW_times n h g1) as [[l1 g2]|]; [|reflexivity].
    now destruct (ReadHeaderExW_times m h g2) as [[l2 g3]|].
Qed.

(** X28. After [OpenArchiveW], successive calls of [ReadHeaderExW] hand
    out the listed entries one by one, in the order of the central
    directory, and then report [E_END_ARCHIVE]; they change nothing but the
    index of the archive read. Holds for fewer than [2^31] entries. *)
Theorem ReadHeaderExW_enumerates (h : Z) (g : Globals) (state : ArchiveState) :
  g_OpenArchives g !! h = Some state ->
  currentEntryIndex state = -1 ->
  Z.of_nat (length (entries state)) < 2 ^ 31 ->
  ReadHeaderExW_times (S (length (entries state))) h g =
    Some (map (fun r => (Success, Some (HeaderData_of r))) (entries state)
            ++ [(E_END_ARCHIVE, None)],
          {| g_OpenArchives :=
               <[h := {| entries := entries state;
                         currentEntryIndex := Z.of_nat (length (entries state));
                         archivePath := archivePath state |}]> (g_OpenArchives g);
             g_NextHandle := g_NextHandle g |}).
Proof.
  intros Hh Hi Hlen. destruct state as [listed index path].
  cbn [entries currentEntryIndex archivePath] in *. subst index.
  replace (S (length listed)) with (length listed + 1)%nat by lia.
  rewrite ReadHeaderExW_times_add.
  rewrite (ReadHeaderExW_times_run listed [] h g path); cbn [app length]; try assumption.
  cbn [ReadHeaderExW_times].
  erewrite ReadHeaderExW_end;
    [|cbn [g_OpenArchives]; apply lookup_insert_eq
     |cbn [entries]; lia|cbn [entries currentEntryIndex]; lia
     |cbn [currentEntryIndex]; unfold INT_MAX; lia].
  cbn [entries currentEntryIndex archivePath g_OpenArchives g_NextHandle].
  rewrite insert_insert_eq. repeat f_equal. lia.
Qed.

(** X29. [ProcessFileW] needs a current entry: right after [OpenArchiveW],
    before any call of [ReadHeaderExW], and again once [ReadHeaderExW] has
    reported [E_END_ARCHIVE], it returns [E_BAD_ARCHIVE] whatever the
    operation and does nothing at the destination. *)
Theorem ProcessFileW_needs_current_entry (ArcName : string) (g g1 : Globals) (h : Z)
    (listed : list (ACFEntryData * string)) (Operation : Z) (DestPath : string)
    (DestName : option string) :
  List_file files ArcName = Ok listed ->
  Z.of_nat (length listed) < 2 ^ 31 ->
  OpenArchiveW files alloc_what (Some ArcName) g = Some (h, Some Success, g1) ->
  ProcessFileW zstd files output PK_SKIP PK_EXTRACT h Operation DestPath DestName g1
    = Some (E_BAD_ARCHIVE, []) /\
  exists results g2,
    ReadHeaderExW_times (S (length listed)) h g1 = Some (results, g2) /\
    ProcessFileW zstd files output PK_SKIP PK_EXTRACT h Operation DestPath DestName g2
      = Some (E_BAD_ARCHIVE, []).
Proof.
  intros HList Hlen Hopen. unfold OpenArchiveW in Hopen. rewrite HList in Hopen.
  cbv zeta in Hopen. apply Some_inj in Hopen.
  apply pair_equal_spec in Hopen as [Hopen <-].
  apply pair_equal_spec in Hopen as [<- _].
  set (h := to_int (g_NextHandle g + 1)).
  set (state := {| entries := listed; currentEntryIndex := -1; archivePath := ArcName |}).
  set (g1 := {| g_OpenArchives := <[h := state]> (g_OpenArchives g); g_NextHandle := h |}).
  assert (Hh : g_OpenArchives g1 !! h = Some state) by apply lookup_insert_eq.
  split.
  - unfold ProcessFileW. rewrite Hh. reflexivity.
  - replace (S (length listed)) with (length listed + 1)%nat by lia.
    rewrite ReadHeaderExW_times_add.
    rewrite (ReadHeaderExW_times_run listed [] h g1 ArcName); cbn [app length];
      [|exact Hh|exact Hlen].
    cbn [ReadHeaderExW_times].
    erewrite ReadHeaderExW_end;
      [|cbn [g_OpenArchives]; apply lookup_insert_eq
       |cbn [entries]; lia|cbn [entries currentEntryIndex]; lia
       |cbn [currentEntryIndex]; unfold INT_MAX; lia].
    eexists _, _. split; [reflexivity|].
    unfold ProcessFileW. cbn [g_OpenArchives]. rewrite lookup_insert_eq.
    cbn [entries currentEntryIndex]. rewrite to_int_small by lia.
    destruct (Z.leb_spec (Z.of_nat (length listed)) (Z.of_nat (length listed) - 1 + 1));
      [|lia].
    now rewrite orb_true_r.
Qed.

Lemma handles_ok_initial : handles_ok initial.
Proof.
  split; [cbn; lia|]. intros h state Hh. cbn in Hh. now rewrite lookup_empty in Hh.
Qed.

(** X30. As long as [g_NextHandle] has not reached [INT_MAX], the calls
    keep every open handle positive and no greater than [g_NextHandle].
    Hence a handle that [OpenArchiveW] hands out is the next integer, is not
    [(HANDLE)-1], was not open before, and the archives open before stay as
    they were; [ReadHeaderExW] and [CloseArchive] never touch
    [g_NextHandle], and [CloseArchive] forgets the handle it is given. *)
Theorem handles_stay_fresh (g : Globals) :
  handles_ok g ->
  g_NextHandle g < INT_MAX ->
  (forall ArchiveData handle result g',
     OpenArchiveW files alloc_what ArchiveData g = Some (handle, result, g') ->
     handles_ok g' /\
     (handle <> INVALID_HANDLE ->
      handle = g_NextHandle g + 1 /\
      g_OpenArchives g !! handle = None /\
      forall h, h <> handle -> g_OpenArchives g' !! h = g_OpenArchives g !! h)) /\
  (forall hArcData code header g',
     ReadHeaderExW hArcData g = Some (code, header, g') ->
     handles_ok g' /\ g_NextHandle g' = g_NextHandle g) /\
  (forall hArcData,
     handles_ok (CloseArchive hArcData g).2 /\
     g_NextHandle (CloseArchive hArcData g).2 = g_NextHandle g /\
     g_OpenArchives (CloseArchive hArcData g).2 !! hArcData = None).
Proof.
  intros [Hnext Hdom] Hmax. unfold INT_MAX in Hmax. split; [|split].
  - intros ArchiveData handle result g' Hopen. unfold OpenArchiveW in Hopen.
    destruct ArchiveData as [ArcName|].
    2:{ apply Some_inj in Hopen. apply pair_equal_spec in Hopen as [Hopen <-].
        apply pair_equal_spec in Hopen as [<- _]. split; [now split|]. congruence. }
    destruct (List_file files ArcName) as [listed|e|]; [| |discriminate].
    2:{ apply Some_inj in Hopen. apply pair_equal_spec in Hopen as [Hopen <-].
        apply pair_equal_spec in Hopen as [<- _]. split; [now split|]. congruence. }
    cbv zeta in Hopen. rewrite to_int_small in Hopen by lia.
    apply Some_inj in Hopen. apply pair_equal_spec in Hopen as [Hopen <-].
    apply pair_equal_spec in Hopen as [<- _].
    assert (Hfree : g_OpenArchives g !! (g_NextHandle g + 1) = None).
    { destruct (g_OpenArchives g !! (g_NextHandle g + 1)) as [state|] eqn:E; [|reflexivity].
      apply Hdom in E. lia. }
    split; [split|].
    + cbn [g_NextHandle]. lia.
    + intros h state Hh. cbn [g_OpenArchives g_NextHandle] in *.
      destruct (Z.eq_dec h (g_NextHandle g + 1)) as [->|Hne]; [lia|].
      rewrite lookup_insert_ne in Hh by congruence. apply Hdom in Hh. lia.
    + intros _. split; [reflexivity|]. split; [exact Hfree|].
      intros h Hne. cbn [g_OpenArchives]. now rewrite lookup_insert_ne by congruence.
  - intros hArcData code header g' Hread. unfold ReadHeaderExW in Hread.
    destruct (g_OpenArchives g !! hArcData) as [state|] eqn:Hh.
    2:{ apply Some_inj in Hread. apply pair_equal_spec in Hread as [_ <-].
        split; [now split|reflexivity]. }
    assert (Hkept : forall index,
              handles_ok
                {| g_OpenArchives :=
                     <[hArcData := {| entries := entries state; currentEntryIndex := index;
                                      archivePath := archivePath state |}]>
                       (g_OpenArchives g);
                   g_NextHandle := g_NextHandle g |}).
    { intros index. split; [exact Hnext|]. intros h st Hst.
      cbn [g_OpenArchives g_NextHandle] in *.
      destruct (Z.eq_dec h hArcData) as [->|Hne]; [now apply (Hdom _ _ Hh)|].
      rewrite lookup_insert_ne in Hst by congruence. now apply (Hdom _ _ Hst). }
    destruct (currentEntryIndex state =? INT_MAX); [discriminate|].
    cbv zeta in Hread.
    destruct (to_int _ <=? _).
    { apply Some_inj in Hread. apply pair_equal_spec in Hread as [_ <-].
      split; [apply Hkept|reflexivity]. }
    destruct (_ <? 0); [discriminate|].
    destruct (entries state !! _); [|discriminate].
    apply Some_inj in Hread. apply pair_equal_spec in Hread as [_ <-].
    split; [apply Hkept|reflexivity].
  - intros hArcData. unfold CloseArchive.
    destruct (g_OpenArchives g !! hArcData) as [state|] eqn:Hh; cbn [snd].
    + split; [split|split].
      * exact Hnext.
      * intros h st Hst. cbn [g_OpenArchives g_NextHandle] in *.
        apply lookup_delete_Some in Hst as [_ Hst]. now apply (Hdom _ _ Hst).
      * reflexivity.
      * cbn [g_OpenArchives]. apply lookup_delete_eq.
    + split; [now split|]. now split.
Qed.

End PluginFacts.

Lemma OpenArchiveW_failure_witness :
  exists code,
    Wcx.OpenArchiveW sample_files "" (Some "corrupted.acf"%string) Wcx.initial
      = Some (Wcx.INVALID_HANDLE, Some code, Wcx.initial) /\
    (IoError = UnknownFormat -> code = Wcx.E_UNKNOWN_FORMAT) /\
    (IoError = BadArchive -> code = Wcx.E_BAD_ARCHIVE) /\
    (IoError = IoError -> code = Wcx.classify "corrupted.acf").
Proof.
  apply (OpenArchiveW_failure sample_files "" "corrupted.acf" Wcx.initial IoError).
  vm_compute. reflexivity.
Defined.

Example OpenArchiveW_missing_file_named_corrupted :
  Wcx.OpenArchiveW sample_files "" (Some "corrupted.acf"%string) Wcx.initial
    = Some (Wcx.INVALID_HANDLE, Some Wcx.E_BAD_ARCHIVE, Wcx.initial).
Proof. vm_compute. reflexivity. Qed.

Lemma ReadHeaderExW_enumerates_witness :
  Wcx.ReadHeaderExW_times (S (length Demo.sample_cd)) 1
    {| Wcx.g_OpenArchives :=
         {[ 1 := {| Wcx.entries := Demo.sample_cd; Wcx.currentEntryIndex := -1;
                    Wcx.archivePath := "s.acf" |} ]};
       Wcx.g_NextHandle := 1 |} =
    Some (map (fun r => (Wcx.Success, Some (Wcx.HeaderData_of r))) Demo.sample_cd
            ++ [(Wcx.E_END_ARCHIVE, None)],
          {| Wcx.g_OpenArchives :=
               <[1 := {| Wcx.entries := Demo.sample_cd;
                         Wcx.currentEntryIndex := Z.of_nat (length Demo.sample_cd);
                         Wcx.archivePath := "s.acf" |}]>
                 {[ 1 := {| Wcx.entries := Demo.sample_cd; Wcx.currentEntryIndex := -1;
                            Wcx.archivePath := "s.acf" |} ]};
             Wcx.g_NextHandle := 1 |}).
Proof.
  refine (ReadHeaderExW_enumerates 1
           {| Wcx.g_OpenArchives :=
                {[ 1 := {| Wcx.entries := Demo.sample_cd; Wcx.currentEntryIndex := -1;
                           Wcx.archivePath := "s.acf" |} ]};
              Wcx.g_NextHandle := 1 |}
           {| Wcx.entries := Demo.sample_cd; Wcx.currentEntryIndex := -1;
              Wcx.archivePath := "s.acf" |} _ _ _).
  - vm_compute. reflexivity.
  - reflexivity.
  - vm_compute. reflexivity.
Defined.

Lemma ProcessFileW_needs_current_entry_witness :
  Wcx.ProcessFileW Demo.stored sample_files sample_output 0 2 1 2 "out" None
    {| Wcx.g_OpenArchives :=
         {[ 1 := {| Wcx.entries := Demo.sample_cd; Wcx.currentEntryIndex := -1;
                    Wcx.archivePath := "s.acf" |} ]};
       Wcx.g_NextHandle := 1 |}
    = Some (Wcx.E_BAD_ARCHIVE, []) /\
  exists results g2,
    Wcx.ReadHeaderExW_times (S (length Demo.sample_cd)) 1
      {| Wcx.g_OpenArchives :=
           {[ 1 := {| Wcx.entries := Demo.sample_cd; Wcx.currentEntryIndex := -1;
                      Wcx.archivePath := "s.acf" |} ]};
         Wcx.g_NextHandle := 1 |} = Some (results, g2) /\
    Wcx.ProcessFileW Demo.stored sample_files sample_output 0 2 1 2 "out" None g2
      = Some (Wcx.E_BAD_ARCHIVE, []).
Proof.
  apply (ProcessFileW_needs_current_entry Demo.stored sample_files "" sample_output 0 2
           "s.acf" Wcx.initial).
  - vm_compute. reflexivity.
  - vm_compute. reflexivity.
  - vm_compute. reflexivity.
Defined.

Lemma handles_stay_fresh_witness :
  (forall ArchiveData handle result g',
     Wcx.OpenArchiveW sample_files "" ArchiveData Wcx.initial = Some (handle, result, g') ->
     Wcx.handles_ok g' /\
     (handle <> Wcx.INVALID_HANDLE ->
      handle = Wcx.g_NextHandle Wcx.initial + 1 /\
      Wcx.g_OpenArchives Wcx.initial !! handle = None /\
      forall h, h <> handle ->
        Wcx.g_OpenArchives g' !! h = Wcx.g_OpenArchives Wcx.initial !! h)) /\
  (forall hArcData code header g',
     Wcx.ReadHeaderExW hArcData Wcx.initial = Some (code, header, g') ->
     Wcx.handles_ok g' /\ Wcx.g_NextHandle g' = Wcx.g_NextHandle Wcx.initial) /\
  (forall hArcData,
     Wcx.handles_ok (Wcx.CloseArchive hArcData Wcx.initial).2 /\
     Wcx.g_NextHandle (Wcx.CloseArchive hArcData Wcx.initial).2
       = Wcx.g_NextHandle Wcx.initial /\
     Wcx.g_OpenArchives (Wcx.CloseArchive hArcData Wcx.initial).2 !! hArcData = None).
Proof.
  apply (handles_stay_fresh sample_files "" Wcx.initial).
  - split; [vm_compute; congruence|]. intros h state Hh. cbn in Hh.
    now rewrite lookup_empty in Hh.
  - vm_compute. reflexivity.
Defined.

(** * The readers and the allocator *)

Section AllocFacts.

Variable alloc : Z -> bool.
Variable zstd : Zstd.

(** The first definitions are the ones with the allocator that refuses
    nothing up to [PTRDIFF_MAX]. *)
Lemma List_alloc_unlimited f : List_alloc alloc_unlimited f = List f.
Proof.
  unfold List_alloc, List, alloc_unlimited.
  destruct (read_header (ifstream_open f)) as [header s1].
  destruct (negb (magic header =? ACF_MAGIC)); [reflexivity|].
  destruct (seekg_end _) as [s3 ok]. cbv zeta.
  rewrite negb_involutive.
  destruct (PTRDIFF_MAX <? _); [reflexivity|].
  destruct (read _ _) as [got s5].
  destruct (negb (Crc.crc32 _ =? _)); [reflexivity|].
  now rewrite negb_involutive.
Qed.

Lemma ExtractData_alloc_unlimited f name :
  ExtractData_alloc alloc_unlimited zstd f name = ExtractData zstd f name.
Proof.
  unfold ExtractData_alloc, ExtractData.
  destruct (read_header (ifstream_open f)) as [header s1].
  destruct (negb (magic header =? ACF_MAGIC)); [reflexivity|].
  destruct (ExtractData_scan _ _ _) as [e s3| |]; try reflexivity.
  unfold ExtractData_entry_alloc, ExtractData_entry, alloc_unlimited.
  now rewrite negb_involutive.
Qed.



Lemma ExtractData_entry_alloc_eq e s :
  ExtractData_entry_alloc alloc zstd e s =
    if negb (type e =? EntryType_value File) then Throw InvalidOperation
    else if negb (alloc (originalSize e)) then Throw AllocationFailure
    else ExtractData_entry zstd
           {| type := type e; originalSize := 0; compressedSize := compressedSize e;
              dataOffset := dataOffset e; crc32 := crc32 e;
              filedatetime := filedatetime e; fileattribute := fileattribute e;
              pathLength := pathLength e |} s.
Proof.
  unfold ExtractData_entry_alloc, ExtractData_entry.
  cbn [type originalSize compressedSize dataOffset crc32].
  destruct (negb (type e =? EntryType_value File)); [reflexivity|].
  destruct (negb (alloc (originalSize e))); reflexivity.
Qed.

Lemma ExtractData_alloc_spec f cd name :
  central_directory_is f cd ->
  ExtractData_alloc alloc zstd f name =
    match first_match name cd with
    | Some e => ExtractData_entry_alloc alloc zstd e (ifstream_open f)
    | None => Throw NotFound
    end.
Proof.
  intros (Hlen & Hsize & Hmagic & Hoff & Hparse).
  pose proof (centralDirOffset_nonneg f) as Hoff0.
  unfold ExtractData_alloc, central_directory_of in *.
  rewrite header_of_eq in * by exact Hlen.
  rewrite read_header_open by exact Hlen.
  set (h := ACFHeader_of_bytes (take sizeof_ACFHeader f)) in *.
  rewrite Hmagic, Z.eqb_refl. cbn [negb].
  rewrite seekg_ok by (reflexivity || lia). cbn [contents].
  pose proof (ExtractData_scan_spec (Z.to_nat (entryCount h))
    {| contents := f; gpos := Z.to_nat (centralDirOffset h); failed := false |}
    name cd eq_refl Hparse) as Hscan.
  destruct (first_match name cd) as [e|].
  - destruct Hscan as (s' & -> & Hc & Hf).
    rewrite !ExtractData_entry_alloc_eq.
    destruct (negb (type e =? EntryType_value File)); [reflexivity|].
    destruct (negb (alloc (originalSize e))); [reflexivity|].
    apply ExtractData_entry_stream; [exact Hc|exact Hf|reflexivity].
  - now rewrite Hscan.
Qed.

Lemma ExtractData_entry_outcome e f :
  type e = EntryType_value File ->
  originalSize e <= PTRDIFF_MAX ->
  0 <= dataOffset e -> 0 <= compressedSize e ->
  dataOffset e + compressedSize e <= Z.of_nat (length f) ->
  Z.of_nat (length f) < 2 ^ 63 ->
  ExtractData_entry zstd e (ifstream_open f) =
    match decode_frame zstd (frame_at f e) with
    | None => Throw CompressorError
    | Some data =>
      if Crc.crc32 data =? crc32 e then Ok data else Throw CRCMismatch
    end.
Proof.
  intros Htype Hosize Hoff Hcsize Hin Hlen.
  unfold ExtractData_entry. rewrite Htype, Z.eqb_refl. cbn [negb].
  destruct (Z.ltb_spec PTRDIFF_MAX (originalSize e)); [lia|].
  rewrite (ExtractData_loop_spec _ _ _ _ _ _ _ _ (frame_at f e)
             (drop (Z.to_nat (compressedSize e)) (drop (Z.to_nat (dataOffset e)) f))).
  - unfold decode_frame.
    destruct (decompress_blocks _ _ _) as [data|]; [|reflexivity]. cbn [app].
    now destruct (Crc.crc32 data =? crc32 e).
  - rewrite remaining_seekg by (reflexivity || lia).
    cbn [contents ifstream_open]. unfold frame_at. now rewrite take_drop.
  - unfold frame_at. rewrite length_take, length_drop. lia.
  - unfold frame_at. rewrite length_take, length_drop. lia.
  - apply BytesFacts.length_zeros.
Qed.

(** C10. When the central directory holds several records under one path,
    [ExtractData] on that path works on the first of them in
    central-directory order, whatever records follow. It fails with
    [InvalidOperation] unless that record is a file record; it fails with
    the allocation error when the reservation for that record's
    [originalSize] is refused; otherwise it decodes the frame at that
    record's [dataOffset], [compressedSize] bytes long, fails with the
    decompressor's error if the frame does not decode, with [CRCMismatch] if
    the CRC-32 of the data is not that record's [crc32], and returns the
    data if it is. Stated for a frame that lies inside the file. *)
Theorem ExtractData_first_match (f : list byte)
    (l1 l2 : list (ACFEntryData * string)) (e : ACFEntryData) (name : string) :
  central_directory_is f (l1 ++ (e, name) :: l2) ->
  (forall r, r ∈ l1 -> r.2 <> name) ->
  dataOffset e + compressedSize e <= Z.of_nat (length f) ->
  ExtractData_alloc alloc zstd f name =
    if negb (type e =? EntryType_value File) then Throw InvalidOperation
    else if negb (alloc (originalSize e)) then Throw AllocationFailure
    else
      match decode_frame zstd (frame_at f e) with
      | None => Throw CompressorError
      | Some data =>
        if Crc.crc32 data =? crc32 e then Ok data else Throw CRCMismatch
      end.
Proof.
  intros Hcd Hfirst Hin.
  rewrite (ExtractData_alloc_spec f _ name Hcd), first_match_app by exact Hfirst.
  rewrite ExtractData_entry_alloc_eq.
  destruct (Z.eqb_spec (type e) (EntryType_value File)) as [Htype|]; [|reflexivity].
  cbn [negb]. destruct (alloc (originalSize e)); [|reflexivity]. cbn [negb].
  destruct Hcd as (_ & Hsize & _ & _ & Hparse).
  assert (Hwf : record_wf (e, name)).
  { pose proof (List_loop_records_wf
                  (Z.to_nat (entryCount (header_of f))) (central_directory_of f)) as Hall.
    rewrite (List_loop_parse _ _ _ Hparse) in Hall.
    rewrite Forall_forall in Hall. apply Hall. apply elem_of_app. right. left. }
  destruct Hwf as [(_ & _ & Hc & Ho & _) _]. cbn [fst] in Hc, Ho.
  rewrite ExtractData_entry_outcome;
    cbn [type originalSize dataOffset compressedSize crc32];
    try assumption; try lia; [|unfold PTRDIFF_MAX; lia].
  reflexivity.
Qed.

End AllocFacts.


Example List_alloc_truncated :
  List_alloc (fun n => Z.leb n 4096) Demo.truncated_archive
    = Ok [(Demo.sample_dir_entry, "d\"%string)] /\
  List_alloc (fun n => Z.leb n 100) Demo.truncated_archive = Throw AllocationFailure.
Proof. split; vm_compute; reflexivity. Qed.

Lemma ExtractData_first_match_witness :
  ExtractData_alloc (fun n => Z.leb n 4096) Demo.stored Demo.duplicate_archive "x" =
    if negb (type (Demo.stored_entry 32 (list_byte_of_string "AB") "x")
               =? EntryType_value File)
    then Throw InvalidOperation
    else if negb (Z.leb (originalSize (Demo.stored_entry 32 (list_byte_of_string "AB") "x"))
                        4096)
    then Throw AllocationFailure
    else
      match decode_frame Demo.stored
              (frame_at Demo.duplicate_archive
                 (Demo.stored_entry 32 (list_byte_of_string "AB") "x")) with
      | None => Throw CompressorError
      | Some data =>
        if Crc.crc32 data =? crc32 (Demo.stored_entry 32 (list_byte_of_string "AB") "x")
        then Ok data else Throw CRCMismatch
      end.
Proof.
  apply (ExtractData_first_match (fun n => Z.leb n 4096) Demo.stored Demo.duplicate_archive
           [] [(Demo.stored_entry 34 (list_byte_of_string "CD") "x", "x"%string)]).
  - unfold central_directory_is. by_evaluation.
  - intros r Hr. inversion Hr.
  - vm_compute. congruence.
Defined.

Example ExtractData_alloc_duplicate :
  ExtractData_alloc (fun n => Z.leb n 4096) Demo.stored Demo.duplicate_archive "x"
    = Ok (list_byte_of_string "AB").
Proof. vm_compute. reflexivity. Qed.

(** * The central directory of a created archive *)

Section CentralDirectory.

Variable host : Host.
Variable zstd : Zstd.
Variable basePath : fspath.
Variable internalBasePath : string.

(** C9. For every archive produced by [Create] (shorter than [2^64]
    bytes), the CRC32 of the byte range [[centralDirOffset, EOF)] equals the
    [centralDirCRC32] stored in the header, and the stored [entryCount] is
    the number of (descriptor, path) records in that central directory: the
    byte range is the concatenation of the records [Create] built, one for
    every gathered directory and one for every gathered file that opens,
    and [entryCount] is their number. When the stored paths fit the 16-bit
    [pathLength], walking the byte range record by record, as the readers
    do, yields exactly these records. *)
Theorem Create_central_directory_crc (inputPaths : list fspath) (archive : list byte) :
  Create host zstd basePath internalBasePath inputPaths = Ok archive ->
  Z.of_nat (length archive) < 2 ^ 64 ->
  Crc.crc32 (central_directory_of archive) = centralDirCRC32 (header_of archive) /\
  exists cd,
    Create_central_directory host zstd basePath internalBasePath inputPaths = Some cd /\
    central_directory_of archive = central_directory_bytes cd /\
    entryCount (header_of archive) = Z.of_nat (length cd) /\
    length cd = (length (dirsToProcess (gather host inputPaths)) +
                 length (opened_files host inputPaths))%nat /\
    (paths_fit host basePath internalBasePath inputPaths ->
     Forall record_wf cd /\
     parse_records (Z.to_nat (entryCount (header_of archive)))
                   (central_directory_of archive) = Some cd).
Proof.
  intros Hcreate Hlen. rewrite Create_spec in Hcreate. cbv zeta in Hcreate.
  rewrite Create_central_directory_spec.
  destruct (stored_files _ _ _ _ _ _) as [[body records]|] eqn:Hstored; [|discriminate].
  set (cd := map (dir_entry host basePath internalBasePath) _ ++ records) in *.
  apply Ok_inj in Hcreate. subst archive.
  rewrite !length_app, length_ACFHeader_bytes in Hlen.
  pose proof (length_central_directory_bytes cd) as Hcd.
  unfold sizeof_ACFEntryData, sizeof_ACFHeader in *.
  unfold central_directory_of.
  rewrite header_of_written; cbn [centralDirOffset entryCount magic version reserved
                                  centralDirCRC32];
    try reflexivity; try (apply Z.mod_pos_bound; lia); try apply CrcFacts.crc32_u32.
  rewrite !Z.mod_small by lia. rewrite Nat2Z.id.
  rewrite app_assoc, drop_app_length'
    by (rewrite length_app, length_ACFHeader_bytes; reflexivity).
  split; [reflexivity|]. exists cd.
  split; [reflexivity|]. split; [reflexivity|]. split; [reflexivity|]. split.
  - destruct (stored_files_records _ _ _ _ _ _ _ _ Hstored) as [_ Hpaths].
    apply (f_equal length) in Hpaths. rewrite !length_map in Hpaths.
    unfold cd, opened_files. rewrite length_app, length_map, Hpaths.
    now rewrite !std_sort_perm.
  - intros [Hdirs Hfiles].
    assert (Hwf : Forall record_wf cd).
    { apply Forall_app. split.
      - apply Forall_fmap, Forall_forall. intros d Hd. apply dir_entry_wf, Hdirs.
        now rewrite std_sort_perm in Hd.
      - apply Forall_forall. intros [e path] Hin.
        destruct (stored_files_layout _ _ _ _ _ _ _ _ _ _ Hstored Hin)
          as (p & bytes & frame & before & after & Hp & Ho & _ & -> & _).
        apply file_record_wf. apply Hfiles; [now rewrite std_sort_perm in Hp|].
        rewrite Ho. eauto. }
    split; [exact Hwf|]. rewrite Nat2Z.id. now apply parse_records_bytes.
Qed.

End CentralDirectory.

Lemma Create_central_directory_crc_witness :
  Crc.crc32 (central_directory_of Demo.sample_archive)
    = centralDirCRC32 (header_of Demo.sample_archive) /\
  exists cd,
    Create_central_directory Demo.sample_host Demo.stored [] "" [["root"%string]]
      = Some cd /\
    central_directory_of Demo.sample_archive = central_directory_bytes cd /\
    entryCount (header_of Demo.sample_archive) = Z.of_nat (length cd) /\
    length cd = (length (dirsToProcess (gather Demo.sample_host [["root"%string]])) +
                 length (opened_files Demo.sample_host [["root"%string]]))%nat /\
    (paths_fit Demo.sample_host [] "" [["root"%string]] ->
     Forall record_wf cd /\
     parse_records (Z.to_nat (entryCount (header_of Demo.sample_archive)))
                   (central_directory_of Demo.sample_archive) = Some cd).
Proof.
  apply (Create_central_directory_crc Demo.sample_host Demo.stored [] ""
           [["root"%string]] Demo.sample_archive).
  - vm_compute. reflexivity.
  - vm_compute. reflexivity.
Defined.

(** * What [Create] gathers of its inputs *)

Section Coverage.

Variable host : Host.

Lemma gather_dir_entry_processed g p x :
  x ∈ processedPaths (gather_dir_entry host g p) <-> x = p \/ x ∈ processedPaths g.
Proof.
  unfold gather_dir_entry.
  destruct (bool_decide_reflect (p ∈ processedPaths g)) as [Hin|Hnew].
  - split; [now right|]. now intros [->|H].
  - cbn [processedPaths]. rewrite elem_of_union, elem_of_singleton. tauto.
Qed.

Lemma gather_dir_entry_grows g p :
  (forall x, x ∈ dirsToProcess g -> x ∈ dirsToProcess (gather_dir_entry host g p)) /\
  (forall x, x ∈ filesToProcess g -> x ∈ filesToProcess (gather_dir_entry host g p)).
Proof.
  unfold gather_dir_entry.
  destruct (bool_decide (p ∈ processedPaths g)); [tauto|].
  cbn [dirsToProcess filesToProcess].
  destruct (fs_is_directory host p); [|destruct (fs_is_regular_file host p)];
    split; intros x Hx; try assumption; apply elem_of_app; now left.
Qed.

Lemma gather_dir_entry_by_kind g p :
  gathered_by_kind host g -> gathered_by_kind host (gather_dir_entry host g p).
Proof.
  intros HK x Hx. apply gather_dir_entry_processed in Hx.
  destruct (gather_dir_entry_grows g p) as [Hd Hf].
  destruct (decide (x ∈ processedPaths g)) as [Hold|Hnew].
  - destruct (HK x Hold) as [H1 H2].
    split; [intros H; apply Hd, H1, H|intros H H'; now apply Hf, H2].
  - destruct Hx as [->|Hx]; [|contradiction].
    unfold gather_dir_entry. rewrite bool_decide_eq_false_2 by exact Hnew.
    cbn [dirsToProcess filesToProcess]. split.
    + intros ->. apply elem_of_app. right. left.
    + intros -> ->. apply elem_of_app. right. left.
Qed.

Lemma fold_gather_dir_entry_processed l g x :
  x ∈ processedPaths (fold_left (gather_dir_entry host) l g) <->
  x ∈ processedPaths g \/ x ∈ l.
Proof.
  revert g. induction l as [|p l IH]; intros g; cbn [fold_left].
  - split; [now left|]. intros [H|H]; [exact H|inversion H].
  - rewrite IH, gather_dir_entry_processed, elem_of_cons. tauto.
Qed.

Lemma fold_gather_dir_entry_by_kind l g :
  gathered_by_kind host g ->
  gathered_by_kind host (fold_left (gather_dir_entry host) l g).
Proof.
  revert g. induction l as [|p l IH]; intros g HK; [exact HK|].
  cbn [fold_left]. apply IH. now apply gather_dir_entry_by_kind.
Qed.

Lemma by_kind_add_dir g i :
  gathered_by_kind host g -> fs_is_directory host i = true ->
  gathered_by_kind host
    {| processedPaths := {[i]} ∪ processedPaths g;
       dirsToProcess := dirsToProcess g ++ [i];
       filesToProcess := filesToProcess g |}.
Proof.
  intros HK Hdir x Hx. cbn [processedPaths dirsToProcess filesToProcess] in *.
  apply elem_of_union in Hx as [Hx|Hx].
  - apply elem_of_singleton in Hx. subst x. split.
    + intros _. apply elem_of_app. right. left.
    + congruence.
  - destruct (HK x Hx) as [H1 H2]. split; [|exact H2].
    intros H. apply elem_of_app. left. now apply H1.
Qed.

Lemma by_kind_add_file g i :
  gathered_by_kind host g -> fs_is_directory host i = false ->
  gathered_by_kind host
    {| processedPaths := {[i]} ∪ processedPaths g;
       dirsToProcess := dirsToProcess g;
       filesToProcess := filesToProcess g ++ [i] |}.
Proof.
  intros HK Hdir x Hx. cbn [processedPaths dirsToProcess filesToProcess] in *.
  apply elem_of_union in Hx as [Hx|Hx].
  - apply elem_of_singleton in Hx. subst x. split.
    + congruence.
    + intros _ _. apply elem_of_app. right. left.
  - destruct (HK x Hx) as [H1 H2]. split; [exact H1|].
    intros H H'. apply elem_of_app. left. now apply H2.
Qed.

(** One turn of the loop over [inputPaths]: what was processed stays
    processed, an existing input that is a directory or a regular file is
    processed afterwards, and both properties of the enumeration are kept. *)
Lemma gather_input_step g i :
  iterator_closed host ->
  gathered_by_kind host g -> processed_closed host g ->
  gathered_by_kind host (gather_input host g i) /\
  processed_closed host (gather_input host g i) /\
  (forall x, x ∈ processedPaths g -> x ∈ processedPaths (gather_input host g i)) /\
  (fs_exists host i = true ->
   fs_is_directory host i = true \/ fs_is_regular_file host i = true ->
   i ∈ processedPaths (gather_input host g i)).
Proof.
  intros Hclosed HK HJ. unfold gather_input.
  destruct (fs_exists host i); cbn [negb orb].
  2:{ split; [exact HK|]. split; [exact HJ|]. split; [tauto|discriminate]. }
  destruct (bool_decide_reflect (i ∈ processedPaths g)) as [Hin|Hnew].
  { split; [exact HK|]. split; [exact HJ|]. split; tauto. }
  destruct (fs_is_directory host i) eqn:Hdir.
  - set (g1 := {| processedPaths := {[i]} ∪ processedPaths g;
                  dirsToProcess := dirsToProcess g ++ [i];
                  filesToProcess := filesToProcess g |}).
    assert (Hmem : forall x,
              x ∈ processedPaths
                    (fold_left (gather_dir_entry host)
                       (fs_recursive_directory_iterator host i) g1) <->
              x = i \/ x ∈ processedPaths g \/
              x ∈ fs_recursive_directory_iterator host i).
    { intros x. rewrite fold_gather_dir_entry_processed. unfold g1.
      cbn [processedPaths]. rewrite elem_of_union, elem_of_singleton. tauto. }
    split; [|split; [|split]].
    + apply fold_gather_dir_entry_by_kind. now apply by_kind_add_dir.
    + intros x Hx Hxdir q Hq. apply Hmem. apply Hmem in Hx as [->|[Hx|Hx]].
      * now right; right.
      * right. left. now apply (HJ x Hx Hxdir).
      * right. right. now apply (Hclosed i x q).
    + intros x Hx. apply Hmem. now right; left.
    + intros _ _. apply Hmem. now left.
  - destruct (fs_is_regular_file host i) eqn:Hreg.
    + split; [|split; [|split]].
      * now apply by_kind_add_file.
      * intros x Hx Hxdir q Hq. cbn [processedPaths] in *.
        apply elem_of_union in Hx as [Hx|Hx].
        -- apply elem_of_singleton in Hx. subst x. congruence.
        -- apply elem_of_union. right. now apply (HJ x Hx Hxdir).
      * intros x Hx. cbn [processedPaths]. apply elem_of_union. now right.
      * intros _ _. cbn [processedPaths]. apply elem_of_union. left.
        now apply elem_of_singleton.
    + split; [exact HK|]. split; [exact HJ|]. split; [tauto|].
      intros _ [H|H]; discriminate.
Qed.

Lemma gather_inputs_steps l : forall g,
  iterator_closed host ->
  gathered_by_kind host g -> processed_closed host g ->
  gathered_by_kind host (fold_left (gather_input host) l g) /\
  processed_closed host (fold_left (gather_input host) l g) /\
  (forall x, x ∈ processedPaths g ->
             x ∈ processedPaths (fold_left (gather_input host) l g)) /\
  (forall i, i ∈ l -> fs_exists host i = true ->
     fs_is_directory host i = true \/ fs_is_regular_file host i = true ->
     i ∈ processedPaths (fold_left (gather_input host) l g)).
Proof.
  induction l as [|i l IH]; intros g Hclosed HK HJ; cbn [fold_left].
  - split; [exact HK|]. split; [exact HJ|]. split; [tauto|]. intros i Hi. inversion Hi.
  - destruct (gather_input_step g i Hclosed HK HJ) as (HK1 & HJ1 & Hmono1 & Hcov1).
    destruct (IH _ Hclosed HK1 HJ1) as (HK2 & HJ2 & Hmono2 & Hcov2).
    split; [exact HK2|]. split; [exact HJ2|]. split.
    + intros x Hx. now apply Hmono2, Hmono1.
    + intros j Hj Hex Hkind. apply elem_of_cons in Hj as [->|Hj].
      * now apply Hmono2, Hcov1.
      * now apply Hcov2.
Qed.

(** The enumeration of [Create] misses nothing: every directory under the
    inputs is gathered as a directory and every regular file under the
    inputs as a file, when the iterator is recursive. *)
Lemma gather_covers inputPaths p :
  iterator_closed host ->
  under_inputs host inputPaths p ->
  (fs_is_directory host p = true -> p ∈ dirsToProcess (gather host inputPaths)) /\
  (fs_is_directory host p = false -> fs_is_regular_file host p = true ->
   p ∈ filesToProcess (gather host inputPaths)).
Proof.
  intros Hclosed Hunder. unfold gather.
  destruct (gather_inputs_steps inputPaths
              {| processedPaths := ∅; dirsToProcess := []; filesToProcess := [] |} Hclosed)
    as (HK & HJ & _ & Hcov).
  { intros x Hx. cbn in Hx. now apply not_elem_of_empty in Hx. }
  { intros x Hx. cbn in Hx. now apply not_elem_of_empty in Hx. }
  destruct Hunder as [[Hin Hex]|(d & Hin & Hex & Hdir & Hp)].
  - split.
    + intros Hpd. apply HK; [|exact Hpd]. apply Hcov; auto.
    + intros Hpd Hreg. apply HK; [|exact Hpd|exact Hreg]. apply Hcov; auto.
  - assert (Hproc : p ∈ processedPaths
                          (fold_left (gather_input host) inputPaths
                             {| processedPaths := ∅; dirsToProcess := [];
                                filesToProcess := [] |})).
    { apply (HJ d); [|exact Hdir|exact Hp]. apply Hcov; auto. }
    split.
    + intros Hpd. now apply HK.
    + intros Hpd Hreg. now apply HK.
Qed.

End Coverage.

Section RoundTripInputs.

Variable host : Host.
Variable zstd : Zstd.
Variable basePath : fspath.
Variable internalBasePath : string.

Lemma Create_returns inputPaths :
  compressor_finishes zstd ->
  exists archive, Create host zstd basePath internalBasePath inputPaths = Ok archive.
Proof.
  intros Hfin. rewrite Create_spec. cbv zeta.
  destruct (stored_files _ _ _ _ _ _) as [[body records]|] eqn:Hstored; [eauto|].
  apply stored_files_None in Hstored as (p & bytes & _ & _ & Hnone).
  destruct (Hfin bytes) as [frame Hframe]. congruence.
Qed.

(** C1. Round trip: for every set of inputs that the format can hold and
    tell apart, with a codec that finishes every frame and decodes what it
    encoded, [Create] returns an archive, and [ExtractAll] on that archive
    (shorter than [2^62] bytes) runs to the end and yields, for every input
    file (every regular file that is an existing input path or that the
    recursive iterator of an existing input directory yields) that opens
    with bytes [C], an output file written at its stored path whose contents
    are [C], byte for byte. *)
Theorem Create_ExtractAll_round_trip (inputPaths : list fspath) :
  codec_round_trip zstd ->
  compressor_finishes zstd ->
  storable host basePath internalBasePath inputPaths ->
  iterator_closed host ->
  (forall archive, Create host zstd basePath internalBasePath inputPaths = Ok archive ->
                   Z.of_nat (length archive) < 2 ^ 62) ->
  exists archive acts,
    Create host zstd basePath internalBasePath inputPaths = Ok archive /\
    ExtractAll zstd archive = (acts, Ok tt) /\
    forall p bytes,
      input_file host inputPaths p ->
      fs_ifstream host p = Some bytes ->
      write_file (internalPath_of host basePath internalBasePath p) bytes ∈ acts /\
      output_files acts !! internalPath_of host basePath internalBasePath p = Some bytes.
Proof.
  intros Hcodec Hfin Hstorable Hclosed Hlen.
  destruct (Create_returns inputPaths Hfin) as [archive Hcreate].
  destruct (Create_ExtractAll_gathered host zstd basePath internalBasePath inputPaths
              archive Hcodec Hstorable Hcreate (Hlen archive Hcreate))
    as (acts & Hrun & Hfiles).
  exists archive, acts. split; [exact Hcreate|]. split; [exact Hrun|].
  intros p bytes (Hunder & Hnodir & Hreg) Hopen.
  apply Hfiles; [|exact Hopen].
  now apply (gather_covers host inputPaths p Hclosed Hunder).
Qed.

End RoundTripInputs.

Lemma is_proper_prefix_trans d : forall p q,
  Demo.is_proper_prefix d p = true -> Demo.is_proper_prefix p q = true ->
  Demo.is_proper_prefix d q = true.
Proof.
  induction d as [|b d IH]; intros [|a p] [|c q] Hdp Hpq; cbn in *;
    try discriminate; try reflexivity.
  apply andb_true_iff in Hdp as [Hab Hdp]. apply andb_true_iff in Hpq as [Hca Hpq].
  apply String.eqb_eq in Hab. apply String.eqb_eq in Hca. subst.
  rewrite String.eqb_refl. cbn. now apply (IH p q).
Qed.

Lemma host_of_iterator_closed t : iterator_closed (Demo.host_of t).
Proof.
  intros d p q Hp _ Hq. cbn in *.
  apply list_elem_of_fmap in Hp as (n & -> & Hn).
  apply list_elem_of_fmap in Hq as (m & -> & Hm).
  apply list_elem_of_filter in Hn as [Hn _].
  apply list_elem_of_filter in Hm as [Hm Hmt].
  apply list_elem_of_fmap. exists m. split; [reflexivity|].
  apply list_elem_of_filter. split; [|exact Hmt].
  now apply (is_proper_prefix_trans d n.1 m.1).
Qed.

Lemma stored_finishes : compressor_finishes Demo.stored.
Proof.
  intros bytes. unfold frame_of.
  destruct (compress_blocks Demo.stored _ _) as [cs out]. cbn. eauto.
Qed.

Lemma Create_ExtractAll_round_trip_witness :
  exists archive acts,
    Create Demo.sample_host Demo.stored [] "" [["root"%string]] = Ok archive /\
    ExtractAll Demo.stored archive = (acts, Ok tt) /\
    forall p bytes,
      input_file Demo.sample_host [["root"%string]] p ->
      fs_ifstream Demo.sample_host p = Some bytes ->
      write_file (internalPath_of Demo.sample_host [] "" p) bytes ∈ acts /\
      output_files acts !! internalPath_of Demo.sample_host [] "" p = Some bytes.
Proof.
  apply (Create_ExtractAll_round_trip Demo.sample_host Demo.stored [] ""
           [["root"%string]]).
  - exact stored_round_trip.
  - exact stored_finishes.
  - exact sample_storable.
  - exact (host_of_iterator_closed Demo.sample_tree).
  - intros archive Hcreate. vm_compute in Hcreate. apply Ok_inj in Hcreate.
    subst archive. vm_compute. reflexivity.
Defined.

(** The file [root\a\b] of the sample is an input file, found under the
    input directory [root]. *)
Example sample_input_file :
  input_file Demo.sample_host [["root"%string]] ["root"; "a"; "b"]%string.
Proof.
  split; [|split; reflexivity]. right. exists ["root"%string].
  split; [left|]. split; [reflexivity|]. split; [reflexivity|].
  apply (list_elem_of_lookup_2 _ 1%nat). vm_compute. reflexivity.
Qed.

(** * A stored path of 65536 bytes *)

(** C7. The claim asks [Create] to reject a stored path of 65536 bytes.
    With an internal base path of 65534 bytes and the one-byte file [f],
    whose stored path is 65536 bytes long, [Create] returns normally: the
    record it stores carries [pathLength = 0], the cast of 65536 to
    [uint16_t], while all 65536 path bytes are written after it. The
    archive cannot be read back: [List] returns the record with an empty
    path, and [ExtractData] asked for the stored path reports it as not
    found. *)
Lemma Create_long_path_misread :
  match Create Demo.long_host Demo.stored [] Demo.long_base [["f"%string]],
        Create_central_directory Demo.long_host Demo.stored [] Demo.long_base
          [["f"%string]] with
  | Ok archive, Some [(e, p)] =>
    Z.of_nat (String.length p) = 65536 /\
    pathLength e = 0 /\
    List archive = Ok [(e, ""%string)] /\
    ExtractData Demo.stored archive p = Throw NotFound
  | _, _ => False
  end.
Proof. vm_compute. repeat split. Qed.
